(** * The command-line front end of scene_based_lst

    A shallow embedding of [usage] and [get_args] together with the part
    of the C library they drive ([getopt_long], [snprintf], [sprintf]),
    and the properties of the argument processor stated over it. *)

From Stdlib Require Import String Ascii List ZArith Arith Bool Lia Permutation.
Import ListNotations.
Open Scope string_scope.
Open Scope list_scope.
Open Scope nat_scope.

Set Implicit Arguments.

(** ** const.h *)

Module Const.

Definition SUCCESS : Z := 0.
Definition FAILURE : Z := 1.
Definition MAX_STR_LEN : nat := 512.

End Const.

(** ** The C library's option scanner

    [getopt_long] belongs to the C library, not to this program.  The
    model follows the GNU implementation the program is linked with
    (getopt.c: [_getopt_internal_r], [_getopt_initialize], [exchange],
    [process_long_option]), for the one way [get_args] calls it: an empty
    [optstring], so that no short option is ever valid, and [opterr = 0],
    so that nothing goes to stderr.  An argv element is represented by its
    characters up to the terminating NUL, and [argc] by the length of
    argv.  Reads past the end of argv, which the library never makes from
    a scanner it has set up itself, are modelled as the end of argv. *)

Module Getopt.

Inductive has_arg_t := no_argument | required_argument | optional_argument.

(** [struct option]: a [flag] of [None] is the NULL pointer. *)
Record option_t (F : Type) := mkOption {
  name : string;
  has_arg : has_arg_t;
  flag : option F;
  val : Z
}.

Inductive ordering_t := REQUIRE_ORDER | PERMUTE.

(** The scanner's globals ([optind], [optarg]) and its private data.
    [nextchar] is the rest of the element being scanned; the empty string
    stands for both NULL and a pointer at the terminator, which the
    library does not tell apart either. *)
Record data := mkData {
  optind : nat;
  optarg : option string;
  nextchar : string;
  first_nonopt : nat;
  last_nonopt : nat;
  ordering : ordering_t;
  initialized : bool
}.

(** What a fresh process starts with. *)
Definition initial : data :=
  mkData 1 None "" 0 0 REQUIRE_ORDER false.

Definition set_optind (n : nat) (d : data) : data :=
  mkData n (optarg d) (nextchar d) (first_nonopt d) (last_nonopt d)
         (ordering d) (initialized d).
Definition set_optarg (a : option string) (d : data) : data :=
  mkData (optind d) a (nextchar d) (first_nonopt d) (last_nonopt d)
         (ordering d) (initialized d).
Definition set_nextchar (s : string) (d : data) : data :=
  mkData (optind d) (optarg d) s (first_nonopt d) (last_nonopt d)
         (ordering d) (initialized d).
Definition set_first_nonopt (n : nat) (d : data) : data :=
  mkData (optind d) (optarg d) (nextchar d) n (last_nonopt d)
         (ordering d) (initialized d).
Definition set_last_nonopt (n : nat) (d : data) : data :=
  mkData (optind d) (optarg d) (nextchar d) (first_nonopt d) n
         (ordering d) (initialized d).

(** [_getopt_initialize] for an [optstring] that starts with neither
    ['-'] nor ['+']; [posix] tells whether POSIXLY_CORRECT is set. *)
Definition initialize (posix : bool) (d : data) : data :=
  let i := if optind d =? 0 then 1 else optind d in
  mkData i (optarg d) "" i i (if posix then REQUIRE_ORDER else PERMUTE) true.

(** [NONOPTION_P]: the element does not start with ['-'], or is ["-"]. *)
Definition nonoption (s : string) : bool :=
  match s with
  | String "-" (String _ _) => false
  | _ => true
  end.

(** [exchange]: the non-options in [first_nonopt, last_nonopt) and the
    options in [last_nonopt, optind) trade places, each block keeping its
    order. *)
Definition exchange_argv (bottom middle top : nat) (argv : list string)
  : list string :=
  if (middle <? top) && (bottom <? middle)
  then firstn bottom argv
         ++ firstn (top - middle) (skipn middle argv)
         ++ firstn (middle - bottom) (skipn bottom argv)
         ++ skipn top argv
  else argv.

Definition exchange (argv : list string) (d : data) : list string * data :=
  (exchange_argv (first_nonopt d) (last_nonopt d) (optind d) argv,
   set_last_nonopt (optind d)
     (set_first_nonopt (first_nonopt d + (optind d - last_nonopt d)) d)).

(** [while (optind < argc && NONOPTION_P) optind++], on the elements from
    [optind] on. *)
Fixpoint skip_nonoptions (rest : list string) (i : nat) : nat :=
  match rest with
  | s :: rest' => if nonoption s then skip_nonoptions rest' (S i) else i
  | [] => i
  end.

(** The name of a long option ends at the first ['='] or at the end of
    the element; what follows the ['='] is the attached value. *)
Fixpoint split_name (s : string) : string * option string :=
  match s with
  | EmptyString => (EmptyString, None)
  | String c s' =>
      if Ascii.eqb c "="%char then (EmptyString, Some s')
      else let (n, v) := split_name s' in (String c n, v)
  end.

Section LongOptions.

Variable F : Type.
Variable F_eqb : F -> F -> bool.

Definition flag_eqb (a b : option F) : bool :=
  match a, b with
  | Some x, Some y => F_eqb x y
  | None, None => true
  | _, _ => false
  end.

Definition has_arg_code (h : has_arg_t) : nat :=
  match h with
  | no_argument => 0
  | required_argument => 1
  | optional_argument => 2
  end.

Definition same_action (p q : option_t F) : bool :=
  (has_arg_code (has_arg p) =? has_arg_code (has_arg q))
  && flag_eqb (flag p) (flag q) && (val p =? val q)%Z.

(** First pass of [process_long_option]: an exact match, with its index. *)
Fixpoint find_exact (nm : string) (opts : list (option_t F)) (i : nat)
  : option (nat * option_t F) :=
  match opts with
  | [] => None
  | p :: opts' =>
      if String.eqb (name p) nm then Some (i, p)
      else find_exact nm opts' (S i)
  end.

Inductive abbrev_t :=
| NoMatch
| Unique (i : nat) (p : option_t F)
| Ambiguous.

(** Second pass: abbreviations.  The first option [nm] is a prefix of is
    kept; a later one that would act differently makes the name
    ambiguous. *)
Fixpoint find_abbrev (nm : string) (opts : list (option_t F)) (i : nat)
         (found : option (nat * option_t F)) (ambig : bool) : abbrev_t :=
  match opts with
  | [] => if ambig then Ambiguous
          else match found with
               | Some (k, p) => Unique k p
               | None => NoMatch
               end
  | p :: opts' =>
      if String.prefix nm (name p) then
        match found with
        | None => find_abbrev nm opts' (S i) (Some (i, p)) ambig
        | Some (_, q) =>
            find_abbrev nm opts' (S i) found
                        (ambig || negb (same_action q p))
        end
      else find_abbrev nm opts' (S i) found ambig
  end.

(** One call's result: the returned character, the value stored through
    [longind] if any, the write through an option's [flag] pointer if
    any, and the updated argv and scanner data. *)
Record ret := mkRet {
  r_c : Z;
  r_longind : option nat;
  r_flag : option (F * Z);
  r_argv : list string;
  r_data : data
}.

Definition QUESTION : Z := 63.   (* '?' *)

(** [process_long_option], entered with [nextchar] just past the ["--"]:
    [body] is that rest of the element. *)
Definition process_long_option (argv : list string)
           (longopts : list (option_t F)) (body : string) (d : data) : ret :=
  let (nm, value) := split_name body in
  let lookup :=
    match find_exact nm longopts 0 with
    | Some (i, p) => Unique i p
    | None => find_abbrev nm longopts 0 None false
    end in
  match lookup with
  | Ambiguous | NoMatch =>
      mkRet QUESTION None None argv (set_optind (S (optind d)) d)
  | Unique i p =>
      let d1 := set_optind (S (optind d)) d in
      let deliver (d2 : data) :=
        match flag p with
        | Some f => mkRet 0 (Some i) (Some (f, val p)) argv d2
        | None => mkRet (val p) (Some i) None argv d2
        end in
      match value with
      | Some v =>
          match has_arg p with
          | no_argument => mkRet QUESTION None None argv d1
          | _ => deliver (set_optarg (Some v) d1)
          end
      | None =>
          match has_arg p with
          | required_argument =>
              match nth_error argv (optind d1) with
              | Some a =>
                  deliver (set_optarg (Some a) (set_optind (S (optind d1)) d1))
              | None => mkRet QUESTION None None argv d1
              end
          | _ => deliver d1
          end
      end
  end.

(** The end of the scan: [optind] is set back to the first of the
    non-options that were skipped, and -1 is returned. *)
Definition finish (argv : list string) (d : data) : ret :=
  mkRet (-1) None None argv
        (if first_nonopt d =? last_nonopt d then d
         else set_optind (first_nonopt d) d).

(** A short option character: with an empty [optstring] none is valid. *)
Definition short_option (argv : list string) (chars : string) (d : data)
  : ret :=
  match chars with
  | EmptyString => mkRet QUESTION None None argv d
  | String _ rest =>
      let d1 := set_nextchar rest d in
      mkRet QUESTION None None argv
            (match rest with
             | EmptyString => set_optind (S (optind d1)) d1
             | _ => d1
             end)
  end.

(** An option element [tok]: a long option after ["--"], a cluster of
    short options after a single ['-']. *)
Definition scan_element (argv : list string) (longopts : list (option_t F))
           (tok : string) (d : data) : ret :=
  match tok with
  | String _ (String "-" body) => process_long_option argv longopts body d
  | String _ chars => short_option argv chars d
  | EmptyString => finish argv d
  end.

(** [first_nonopt] and [last_nonopt] are brought back to [optind] if the
    caller moved [optind] below them. *)
Definition clamp (d : data) : data :=
  let d := if optind d <? last_nonopt d
           then set_last_nonopt (optind d) d else d in
  if optind d <? first_nonopt d then set_first_nonopt (optind d) d else d.

(** Under [PERMUTE]: the options just processed are moved in front of
    the non-options skipped before them, and the non-options that come
    next are skipped. *)
Definition permute (argv : list string) (d : data) : list string * data :=
  let '(argv, d) :=
    if negb (first_nonopt d =? last_nonopt d)
       && negb (last_nonopt d =? optind d)
    then exchange argv d
    else if negb (last_nonopt d =? optind d)
         then (argv, set_first_nonopt (optind d) d)
         else (argv, d) in
  let i := skip_nonoptions (skipn (optind d) argv) (optind d) in
  (argv, set_last_nonopt i (set_optind i d)).

(** The element ["--"]: everything after it is a non-option. *)
Definition end_of_options (argv : list string) (d : data) : ret :=
  let d := set_optind (S (optind d)) d in
  let '(argv, d) :=
    if negb (first_nonopt d =? last_nonopt d)
       && negb (last_nonopt d =? optind d)
    then exchange argv d
    else if first_nonopt d =? last_nonopt d
         then (argv, set_first_nonopt (optind d) d)
         else (argv, d) in
  finish argv (set_optind (length argv) (set_last_nonopt (length argv) d)).

(** The element at [optind], once the non-options before it have been
    dealt with.  With [optind] at [argc] the scan is over.  With [optind]
    beyond [argc], where the caller has handed over a shorter argv than
    in the call before, glibc reads [argv[optind]] outside the array;
    here the scan is over there too.  A run that starts in an unused
    process keeps [optind] within argv ([in_bounds]) and does not get
    there. *)
Definition next_element (argv : list string) (longopts : list (option_t F))
           (d : data) : ret :=
  match nth_error argv (optind d) with
  | None => finish argv d
  | Some tok =>
      if String.eqb tok "--" then end_of_options argv d
      else if nonoption tok then
        match ordering d with
        | REQUIRE_ORDER => mkRet (-1) None None argv d
        | PERMUTE =>
            mkRet 1 None None argv
                  (set_optind (S (optind d)) (set_optarg (Some tok) d))
        end
      else scan_element argv longopts tok d
  end.

(** Moving on to the next argv element. *)
Definition advance (argv : list string) (longopts : list (option_t F))
           (d : data) : ret :=
  let '(argv, d) :=
    match ordering d with
    | PERMUTE => permute argv (clamp d)
    | REQUIRE_ORDER => (argv, clamp d)
    end in
  next_element argv longopts d.

(** [getopt_long (argc, argv, "", longopts, &longind)]. *)
Definition getopt_long (posix : bool) (argv : list string)
           (longopts : list (option_t F)) (d : data) : ret :=
  match argv with
  | [] => mkRet (-1) None None argv d
  | _ =>
      let d := set_optarg None d in
      let d := if (optind d =? 0) || negb (initialized d)
               then initialize posix d else d in
      match nextchar d with
      | EmptyString => advance argv longopts d
      | chars => short_option argv chars d
      end
  end.

End LongOptions.

End Getopt.

(** ** The program: usage and get_args *)

Import Const.

(** A line feed, for the ["\n"] of the C string literals. *)
Definition nl : string := String (ascii_of_nat 10) EmptyString.

(** What the program sends to stdout, one event per call: a [printf],
    or the error report of [RETURN_ERROR]. *)
Inductive event :=
| Printf (text : string)
| ErrorMessage (message module_name : string).

(** usage *)
Definition usage : list event :=
  [ Printf ("Landsat Surface Temperature" ++ nl)%string;
    Printf nl;
    Printf ("usage: scene_based_lst"
            ++ " --xml=input_xml_filename"
            ++ " [--use-tape6]"
            ++ " [--verbose]"
            ++ " [--debug]" ++ nl)%string;
    Printf nl;
    Printf ("where the following parameters are required:" ++ nl)%string;
    Printf ("    --xml: name of the input XML file" ++ nl)%string;
    Printf nl;
    Printf ("where the following parameters are optional:" ++ nl)%string;
    Printf ("    --use-tape6: use the values from the MODTRAN generated"
            ++ " tape6 file? (default is false)" ++ nl)%string;
    Printf ("    --verbose: should intermediate messages be printed?"
            ++ " (default is false)" ++ nl)%string;
    Printf ("    --debug: should debug output be generated?"
            ++ " (default is false)" ++ nl)%string;
    Printf nl;
    Printf ("scene_based_lst --help will print the usage statement"
            ++ nl)%string;
    Printf nl;
    Printf ("Example: scene_based_lst"
            ++ " --xml=LE70390032010263EDC00.xml"
            ++ " --verbose" ++ nl)%string;
    Printf ("Note: The scene_based_lst must run from the directory"
            ++ " where the input data are located." ++ nl ++ nl)%string ].

(** The three function-scope statics of [get_args], as the targets of
    the [flag] pointers in [long_options]. *)
Inductive flag_var := verbose_flag | debug_flag | use_tape6_flag.

Definition flag_var_eqb (a b : flag_var) : bool :=
  match a, b with
  | verbose_flag, verbose_flag
  | debug_flag, debug_flag
  | use_tape6_flag, use_tape6_flag => true
  | _, _ => false
  end.

Record statics := mkStatics {
  verbose_flag_v : Z;
  debug_flag_v : Z;
  use_tape6_flag_v : Z
}.

Definition store_flag (f : flag_var) (v : Z) (s : statics) : statics :=
  match f with
  | verbose_flag => mkStatics v (debug_flag_v s) (use_tape6_flag_v s)
  | debug_flag => mkStatics (verbose_flag_v s) v (use_tape6_flag_v s)
  | use_tape6_flag => mkStatics (verbose_flag_v s) (debug_flag_v s) v
  end.

Definition CHAR_h : Z := 104.
Definition CHAR_i : Z := 105.

Definition long_options : list (Getopt.option_t flag_var) :=
  [ Getopt.mkOption "verbose" Getopt.no_argument (Some verbose_flag) 1;
    Getopt.mkOption "debug" Getopt.no_argument (Some debug_flag) 1;
    Getopt.mkOption "use-tape6" Getopt.no_argument (Some use_tape6_flag) 1;
    Getopt.mkOption "xml" Getopt.required_argument None CHAR_i;
    Getopt.mkOption "help" Getopt.no_argument None CHAR_h ].

(** Everything that outlives a call of [get_args] inside one process:
    the scanner's data, the statics, and whether the environment has
    POSIXLY_CORRECT. *)
Record process := mkProcess {
  scanner : Getopt.data;
  flags : statics;
  posixly_correct : bool
}.

Definition fresh_process (posix : bool) : process :=
  mkProcess Getopt.initial (mkStatics 0 0 0) posix.

(** The caller's storage behind the four pointer parameters. *)
Record config := mkConfig {
  xml_filename : string;
  use_tape6 : bool;
  verbose : bool;
  debug : bool
}.

Definition fresh_config : config := mkConfig "" false false false.

(** The first [n] characters of [s]. *)
Fixpoint truncate (n : nat) (s : string) : string :=
  match n, s with
  | S n', String c s' => String c (truncate n' s')
  | _, _ => EmptyString
  end.

(** [snprintf (buf, size, "%s", arg)]: at most [size - 1] characters and
    the terminator; nothing at all for a size of 0.  A NULL [arg] prints
    as the C library prints it. *)
Definition snprintf_s (size : nat) (buf : string) (arg : option string)
  : string :=
  match size with
  | 0 => buf
  | S n => truncate n (match arg with Some s => s | None => "(null)" end)
  end.

(** [sprintf (errmsg, "Unknown option %s", tok)] into [errmsg[MAX_STR_LEN]]:
    [None] when the text and its terminator do not fit, which the C
    standard leaves undefined. *)
Definition sprintf_unknown (tok : string) : option string :=
  let text := ("Unknown option " ++ tok)%string in
  if String.length text <? MAX_STR_LEN then Some text else None.

(** Modelled from the spec: the macro [RETURN_ERROR] of utilities.h, which
    is not among the sources.  It surfaces the error, naming the message
    and the function it comes from, and makes that function return the
    given status. *)
Definition RETURN_ERROR (message module_name : string) (st : Z)
  : list event * Z :=
  ([ErrorMessage message module_name], st).

(** How the scanning loop is left. *)
Inductive scan_exit :=
| OutOfOptions
| HelpRequested
| UnknownOption (errmsg : string)
| UndefinedBehaviour.

Record scan_state := mkScan {
  sc_argv : list string;
  sc_process : process;
  sc_option_index : option nat;
  sc_xml : string
}.

Section Program.

(** [PATH_MAX] comes from the system's <limits.h>. *)
Variable PATH_MAX : nat.

(** One turn of [while (1)]: [inl] to go round again, [inr] to leave. *)
Definition scan_step (s : scan_state) : scan_state + (scan_exit * scan_state) :=
  let p := sc_process s in
  let r := Getopt.getopt_long flag_var_eqb (posixly_correct p) (sc_argv s)
                              long_options (scanner p) in
  let fl := match Getopt.r_flag r with
            | Some (f, v) => store_flag f v (flags p)
            | None => flags p
            end in
  let oi := match Getopt.r_longind r with
            | Some i => Some i
            | None => sc_option_index s
            end in
  let s1 := mkScan (Getopt.r_argv r)
                   (mkProcess (Getopt.r_data r) fl (posixly_correct p))
                   oi (sc_xml s) in
  let c := Getopt.r_c r in
  let unknown :=
    match nth_error (Getopt.r_argv r) (Getopt.optind (Getopt.r_data r) - 1) with
    | Some tok =>
        match sprintf_unknown tok with
        | Some msg => inr (UnknownOption msg, s1)
        | None => inr (UndefinedBehaviour, s1)
        end
    | None => inr (UndefinedBehaviour, s1)
    end in
  if (c =? -1)%Z then inr (OutOfOptions, s1)
  else if (c =? 0)%Z then
    match oi with
    | Some i =>
        match nth_error long_options i with
        | Some o =>
            match Getopt.flag o with
            | Some _ => inl s1
            | None => inr (HelpRequested, s1)
            end
        | None => inr (UndefinedBehaviour, s1)
        end
    | None => inr (UndefinedBehaviour, s1)
    end
  else if (c =? CHAR_h)%Z then inr (HelpRequested, s1)
  else if (c =? CHAR_i)%Z then
    inl (mkScan (sc_argv s1) (sc_process s1) (sc_option_index s1)
                (snprintf_s PATH_MAX (sc_xml s1)
                            (Getopt.optarg (Getopt.r_data r))))
  else unknown.

Fixpoint scan (fuel : nat) (s : scan_state) : option (scan_exit * scan_state) :=
  match fuel with
  | 0 => None
  | S fuel' =>
      match scan_step s with
      | inl s' => scan fuel' s'
      | inr e => Some e
      end
  end.

(** What the caller sees when [get_args] is back. *)
Record result := mkResult {
  status : Z;
  cfg : config;
  stdout : list event;
  argv_after : list string;
  process_after : process
}.

Inductive outcome :=
| Returned (r : result)
| Undefined.

Definition weight (l : list string) : nat :=
  list_sum (map (fun s => S (String.length s)) l).

(** What is left to scan: the characters still to come in the element
    under way, and the elements after it. *)
Definition togo (argv : list string) (d : Getopt.data) : nat :=
  match Getopt.nextchar d with
  | EmptyString => weight (skipn (Getopt.optind d) argv)
  | chars => String.length chars + weight (skipn (S (Getopt.optind d)) argv)
  end.

(** A bound on the number of turns the loop can take. *)
Definition turns (argv : list string) (d : Getopt.data) : nat :=
  togo argv (if (Getopt.optind d =? 0) || negb (Getopt.initialized d)
             then Getopt.initialize false d else d).

(** get_args, after the loop. *)
Definition validate (c : config) (e : scan_exit) (s : scan_state) : outcome :=
  let p := sc_process s in
  let c1 := mkConfig (sc_xml s) (use_tape6 c) (verbose c) (debug c) in
  match e with
  | UndefinedBehaviour => Undefined
  | HelpRequested =>
      Returned (mkResult FAILURE c1 usage (sc_argv s) p)
  | UnknownOption errmsg =>
      let (report, st) := RETURN_ERROR errmsg "get_args" FAILURE in
      Returned (mkResult st c1 (usage ++ report) (sc_argv s) p)
  | OutOfOptions =>
      if String.length (sc_xml s) <=? 0 then
        let (report, st) :=
          RETURN_ERROR "XML input file is a required argument" "get_args"
                       FAILURE in
        Returned (mkResult st c1 (usage ++ report) (sc_argv s) p)
      else
        let t := negb (use_tape6_flag_v (flags p) =? 0)%Z in
        let v := negb (verbose_flag_v (flags p) =? 0)%Z in
        let g := negb (debug_flag_v (flags p) =? 0)%Z in
        Returned (mkResult SUCCESS (mkConfig (sc_xml s) t v g)
                   (if v
                    then [Printf ("XML_input_file = " ++ sc_xml s ++ nl)%string]
                    else [])
                   (sc_argv s) p)
  end.

(** get_args.  [argv] includes the program name; [c] is what the
    caller's storage holds on entry.  [None] only if the loop were to
    outrun [turns]. *)
Definition get_args (p : process) (argv : list string) (c : config)
  : option outcome :=
  match scan (S (turns argv (scanner p)))
             (mkScan argv p None (xml_filename c)) with
  | Some (e, s) => Some (validate c e s)
  | None => None
  end.

End Program.

(** ** The command line as the usage text describes it *)

Inductive opt_flag := UseTape6 | Verbose | Debug.

(** The option tokens of a run that is meant to go through:
    [--xml=<value>] and the three optional flags. *)
Inductive token :=
| Xml (value : string)
| Flag (f : opt_flag).

Definition render (t : token) : string :=
  match t with
  | Xml v => ("--xml=" ++ v)%string
  | Flag UseTape6 => "--use-tape6"
  | Flag Verbose => "--verbose"
  | Flag Debug => "--debug"
  end.

Definition flag_var_of (f : opt_flag) : flag_var :=
  match f with
  | UseTape6 => use_tape6_flag
  | Verbose => verbose_flag
  | Debug => debug_flag
  end.

Definition opt_flag_eqb (a b : opt_flag) : bool :=
  match a, b with
  | UseTape6, UseTape6 | Verbose, Verbose | Debug, Debug => true
  | _, _ => false
  end.

(** Does the flag's token occur in the sequence? *)
Definition given (f : opt_flag) (ts : list token) : bool :=
  existsb (fun t => match t with
                    | Flag g => opt_flag_eqb f g
                    | Xml _ => false
                    end) ts.

(** The value of the last [--xml=] token, if there is one. *)
Fixpoint last_xml (ts : list token) : option string :=
  match ts with
  | [] => None
  | t :: ts' =>
      match last_xml ts' with
      | Some v => Some v
      | None => match t with
                | Xml v => Some v
                | Flag _ => None
                end
      end
  end.

(** The sequence with every token before its last occurrence dropped:
    each option at most once. *)
Fixpoint last_occurrences (ts : list token) : list token :=
  match ts with
  | [] => []
  | Xml v :: ts' =>
      match last_xml ts' with
      | Some _ => last_occurrences ts'
      | None => Xml v :: last_occurrences ts'
      end
  | Flag f :: ts' =>
      if given f ts' then last_occurrences ts'
      else Flag f :: last_occurrences ts'
  end.

(** What the statics and the path buffer hold once the tokens have been
    taken in, one after the other. *)
Definition flags_after (ts : list token) (s : statics) : statics :=
  fold_left (fun s t => match t with
                        | Flag f => store_flag (flag_var_of f) 1 s
                        | Xml _ => s
                        end) ts s.

Definition xml_after (PATH_MAX : nat) (ts : list token) (buf : string)
  : string :=
  fold_left (fun b t => match t with
                        | Xml v => snprintf_s PATH_MAX b (Some v)
                        | Flag _ => b
                        end) ts buf.

(** The usage text is on stdout, as one run of consecutive events. *)
Definition usage_emitted (out : list event) : Prop :=
  exists before after, out = before ++ usage ++ after.

(** The line that echoes the input path. *)
Definition echo_line (path : string) : event :=
  Printf ("XML_input_file = " ++ path ++ nl)%string.

(** The three ways [get_args] reports a failure, as the caller sees
    them: the status and what went to stdout. *)
Definition help_failure (r : result) : Prop :=
  status r = FAILURE /\ stdout r = usage.

Definition unknown_option_failure (tok : string) (r : result) : Prop :=
  status r = FAILURE
  /\ stdout r = usage ++ [ErrorMessage ("Unknown option " ++ tok)%string
                                       "get_args"].

Definition missing_argument_failure (r : result) : Prop :=
  status r = FAILURE
  /\ stdout r = usage ++ [ErrorMessage "XML input file is a required argument"
                                       "get_args"].

(** A token [--<name>] or [--<name>=<value>] whose name starts none of
    the names in [long_options]. *)
Definition starts_none (F : Type) (nm : string)
           (opts : list (Getopt.option_t F)) : bool :=
  forallb (fun o => negb (String.prefix nm (Getopt.name o))) opts.

Definition unregistered (tok : string) : Prop :=
  exists body,
    tok = ("--" ++ body)%string
    /\ starts_none (fst (Getopt.split_name body)) long_options = true.

(** The scanner between two argv elements, about to look at element [k]. *)
Definition ready (d : Getopt.data) (k : nat) : Prop :=
  Getopt.nextchar d = ""
  /\ Getopt.initialized d = true
  /\ Getopt.optind d = k
  /\ Getopt.first_nonopt d = Getopt.last_nonopt d
  /\ k <> 0.

(** A process in which neither [get_args] nor the scanner has run. *)
Definition unused (p : process) : Prop :=
  Getopt.optind (scanner p) = 1
  /\ Getopt.initialized (scanner p) = false
  /\ flags p = mkStatics 0 0 0.

(** An argv element short enough for the "Unknown option" message to
    fit [errmsg]. *)
Definition fits (s : string) : Prop := String.length s + 16 <= MAX_STR_LEN.

(** The scanner is set up and [optind] points into argv, or just past
    it; in the middle of an element it points at that element. *)
Definition in_bounds (argv : list string) (d : Getopt.data) : Prop :=
  Getopt.initialized d = true
  /\ 1 <= Getopt.optind d
  /\ Getopt.optind d <= length argv
  /\ (Getopt.nextchar d <> "" -> Getopt.optind d < length argv).

(** [n] times the letter x, for tokens of a given length. *)
Fixpoint filler (n : nat) : string :=
  match n with
  | 0 => EmptyString
  | S n' => String "x" (filler n')
  end.

(** The value of [PATH_MAX] on Linux, for the runs worked out below. *)
Definition LINUX_PATH_MAX : nat := 4096.

(** The scanner of an unused process once its first call has set it up. *)
Definition started (posix : bool) : Getopt.data :=
  Getopt.mkData 1 None "" 1 1
                (if posix then Getopt.REQUIRE_ORDER else Getopt.PERMUTE) true.

(** ** const.h: the elements of a point result record *)

Inductive LST_RESULTS :=
| LST_LATITUDE
| LST_LONGITUDE
| LST_HEIGHT
| LST_TAU
| LST_UPWELLED_RADIANCE
| LST_DOWNWELLED_RADIANCE
| LST_NUM_ELEMENTS.

(** The enumerators in the order of their declaration, the first with
    its explicit value. *)
Definition LST_RESULTS_declared : list (LST_RESULTS * option Z) :=
  [ (LST_LATITUDE, Some 0%Z);
    (LST_LONGITUDE, None);
    (LST_HEIGHT, None);
    (LST_TAU, None);
    (LST_UPWELLED_RADIANCE, None);
    (LST_DOWNWELLED_RADIANCE, None);
    (LST_NUM_ELEMENTS, None) ].

(** The C rule for enumerators: the explicit value if there is one, else
    one more than the enumerator before. *)
Fixpoint enum_values (A : Type) (next : Z) (l : list (A * option Z))
  : list (A * Z) :=
  match l with
  | [] => []
  | (e, Some v) :: l' => (e, v) :: enum_values (v + 1) l'
  | (e, None) :: l' => (e, next) :: enum_values (next + 1) l'
  end.

Definition LST_RESULTS_eqb (a b : LST_RESULTS) : bool :=
  match a, b with
  | LST_LATITUDE, LST_LATITUDE
  | LST_LONGITUDE, LST_LONGITUDE
  | LST_HEIGHT, LST_HEIGHT
  | LST_TAU, LST_TAU
  | LST_UPWELLED_RADIANCE, LST_UPWELLED_RADIANCE
  | LST_DOWNWELLED_RADIANCE, LST_DOWNWELLED_RADIANCE
  | LST_NUM_ELEMENTS, LST_NUM_ELEMENTS => true
  | _, _ => false
  end.

Definition LST_RESULTS_value (e : LST_RESULTS) : Z :=
  match find (fun x => LST_RESULTS_eqb (fst x) e)
             (enum_values 0 LST_RESULTS_declared) with
  | Some (_, v) => v
  | None => 0%Z
  end.

(** ** Other spellings of the options *)

(** The long name behind each optional flag. *)
Definition flag_name (f : opt_flag) : string :=
  match f with
  | UseTape6 => "use-tape6"
  | Verbose => "verbose"
  | Debug => "debug"
  end.

(** [nm] is the beginning of [name], and not empty. *)
Definition abbreviates (nm name : string) : Prop :=
  nm <> "" /\ String.prefix nm name = true.

(** The non-empty beginnings of a string, shortest first. *)
Fixpoint prefixes (s : string) : list string :=
  match s with
  | EmptyString => []
  | String c s' => String c EmptyString :: map (String c) (prefixes s')
  end.

(** An option as it may be written on the command line: a token of the
    usage line, a flag under a shortened name, and [--xml] under a
    shortened name with its value after an ['='] or as the next
    element. *)
Inductive word :=
| Exact (t : token)
| FlagAs (nm : string) (f : opt_flag)
| XmlAs (nm value : string)
| XmlThen (nm value : string).

Definition spell (w : word) : list string :=
  match w with
  | Exact t => [render t]
  | FlagAs nm _ => [("--" ++ nm)%string]
  | XmlAs nm v => [("--" ++ nm ++ "=" ++ v)%string]
  | XmlThen nm v => [("--" ++ nm)%string; v]
  end.

Definition meaning (w : word) : token :=
  match w with
  | Exact t => t
  | FlagAs _ f => Flag f
  | XmlAs _ v => Xml v
  | XmlThen _ v => Xml v
  end.

Definition well_spelt (w : word) : Prop :=
  match w with
  | Exact _ => True
  | FlagAs nm f => abbreviates nm (flag_name f)
  | XmlAs nm _ => abbreviates nm "xml"
  | XmlThen nm _ => abbreviates nm "xml"
  end.

Definition spell_all (ws : list word) : list string :=
  concat (map spell ws).

(** ** The loop, from state to state *)

(** From [s] the loop comes to [s'] after some turns. *)
Definition reaches (PATH_MAX : nat) (s s' : scan_state) : Prop :=
  exists n, forall fuel, scan PATH_MAX (n + fuel) s = scan PATH_MAX fuel s'.

(** Each static is what it was, or has been set to 1. *)
Definition kept_or_set (before after : statics) : Prop :=
  (verbose_flag_v after = verbose_flag_v before \/ verbose_flag_v after = 1%Z)
  /\ (debug_flag_v after = debug_flag_v before \/ debug_flag_v after = 1%Z)
  /\ (use_tape6_flag_v after = use_tape6_flag_v before
      \/ use_tape6_flag_v after = 1%Z).

(** What the callers see of two outcomes is the same: status,
    configuration and output. *)
Definition same_outcome (r1 r2 : result) : Prop :=
  status r1 = status r2 /\ cfg r1 = cfg r2 /\ stdout r1 = stdout r2.

(** ** Options among operands *)

(** An element of a command line that mixes the options of the usage
    line with operands. *)
Inductive item :=
| Opt (t : token)
| Operand (s : string).

Definition item_text (i : item) : string :=
  match i with
  | Opt t => render t
  | Operand s => s
  end.

(** The options of a command line, in their order. *)
Fixpoint options_of (l : list item) : list token :=
  match l with
  | [] => []
  | Opt t :: l' => t :: options_of l'
  | Operand _ :: l' => options_of l'
  end.

(** What is called an operand is one for the scanner. *)
Definition item_ok (i : item) : Prop :=
  match i with
  | Opt _ => True
  | Operand s => Getopt.nonoption s = true
  end.

(** The scanner between two elements under [PERMUTE]: behind the
    elements [pre] that are dealt with come the operands [skipped] and,
    after them, the options [fresh] taken in since the last exchange;
    [optind] is just past these. *)
Definition permuting (d : Getopt.data) (pre skipped fresh : list string)
  : Prop :=
  Getopt.nextchar d = ""
  /\ Getopt.initialized d = true
  /\ Getopt.ordering d = Getopt.PERMUTE
  /\ pre <> []
  /\ Getopt.first_nonopt d = length pre
  /\ Getopt.last_nonopt d = length pre + length skipped
  /\ Getopt.optind d = length pre + length skipped + length fresh.

Unset Implicit Arguments.

(** ** The scanner, one element at a time *)

Import Getopt.

(** Unfolds the field updates and reads the fields back. *)
Ltac fields :=
  repeat (unfold set_optind, set_optarg, set_nextchar, set_first_nonopt,
                 set_last_nonopt in *;
          cbn [optind optarg nextchar first_nonopt last_nonopt ordering
               initialized fst snd] in *).

Section ScannerFacts.

Lemma skipn_nth_error (A : Type) (l : list A) (k : nat) (x : A) :
  nth_error l k = Some x -> skipn k l = x :: skipn (S k) l.
Proof.
  revert k; induction l as [|a l IH]; intros [|k] H; simpl in *;
    try discriminate.
  - injection H as ->; reflexivity.
  - rewrite (IH _ H); reflexivity.
Qed.

Lemma nth_error_middle (A : Type) (pre rest : list A) (x : A) :
  nth_error (pre ++ x :: rest) (length pre) = Some x.
Proof.
  induction pre; simpl; auto.
Qed.

Lemma clamp_ready d k :
  ready d k ->
  ready (clamp d) k /\ optarg (clamp d) = optarg d
  /\ ordering (clamp d) = ordering d.
Proof.
  intros (Hnc & Hini & Hk & Hfl & Hk0).
  destruct d as [oi oa nc fn ln ord ini]; fields; subst nc ini oi fn.
  unfold clamp, ready; fields.
  destruct (k <? ln) eqn:E; fields; rewrite ?E; fields; auto 10.
Qed.

Lemma permute_ready argv d k tok :
  ready d k ->
  nth_error argv k = Some tok ->
  nonoption tok = false ->
  exists d1, permute argv d = (argv, d1) /\ ready d1 k
             /\ optarg d1 = optarg d /\ ordering d1 = ordering d.
Proof.
  intros (Hnc & Hini & Hk & Hfl & Hk0) Hnth Hopt.
  destruct d as [oi oa nc fn ln ord ini]; fields; subst nc ini oi fn.
  unfold permute, ready; fields.
  rewrite Nat.eqb_refl; cbn [negb andb].
  destruct (ln =? k) eqn:E; cbn [negb]; fields;
    rewrite (skipn_nth_error _ _ _ _ Hnth); cbn [skip_nonoptions];
    rewrite Hopt; eexists; (split; [reflexivity|]); fields;
    try (apply Nat.eqb_eq in E); auto 10.
Qed.

Variable F : Type.
Variable F_eqb : F -> F -> bool.

(** From a [ready] scanner an option element goes straight to
    [scan_element]; argv is left as it is. *)
Lemma getopt_long_ready posix argv (lo : list (option_t F)) d k tok :
  ready d k ->
  nth_error argv k = Some tok ->
  nonoption tok = false ->
  tok <> "--" ->
  exists d1,
    ready d1 k /\ optarg d1 = None
    /\ getopt_long F_eqb posix argv lo d = scan_element F_eqb argv lo tok d1.
Proof.
  intros Hr Hnth Hopt Hdd.
  assert (Hr0 : ready (set_optarg None d) k)
    by (destruct Hr as (? & ? & ? & ? & ?); unfold ready; fields; auto).
  destruct (clamp_ready _ _ Hr0) as (Hr1 & Ha1 & Ho1).
  assert (Heqb : String.eqb tok "--" = false)
    by (apply String.eqb_neq; assumption).
  unfold getopt_long.
  destruct argv as [|a argv]; [destruct k; discriminate|].
  set (av := a :: argv) in *.
  destruct Hr as (Hnc & Hini & Hk & Hfl & Hk0).
  replace (optind (set_optarg None d)) with k by (fields; auto).
  replace (initialized (set_optarg None d)) with true by (fields; auto).
  replace (k =? 0) with false by (symmetry; apply Nat.eqb_neq; assumption).
  cbn [orb negb].
  replace (nextchar (set_optarg None d)) with EmptyString by (fields; auto).
  unfold advance.
  destruct (ordering (set_optarg None d)) eqn:Eord.
  - destruct Hr1 as (? & ? & Hk1 & ? & ?).
    unfold next_element. rewrite Hk1, Hnth, Heqb, Hopt.
    exists (clamp (set_optarg None d)); unfold ready; auto 10.
  - destruct (permute_ready av _ _ _ Hr1 Hnth Hopt) as (d1 & -> & Hr2 & Ha2 & Ho2).
    destruct Hr2 as (? & ? & Hk2 & ? & ?).
    unfold next_element. rewrite Hk2, Hnth, Heqb, Hopt.
    exists d1; unfold ready; split; [auto 10|split; [|reflexivity]].
    rewrite Ha2, Ha1; reflexivity.
Qed.

End ScannerFacts.

(** ** The loop of get_args on option tokens *)

Section LoopFacts.

Variable PATH_MAX : nat.

Lemma render_is_option t : nonoption (render t) = false /\ render t <> "--".
Proof.
  destruct t as [v|[]]; split; try reflexivity; discriminate.
Qed.

(** One turn of the loop on a token of the usage line. *)
Lemma scan_step_token argv d k fl posix oi xml t :
  ready d k ->
  nth_error argv k = Some (render t) ->
  exists d' oi',
    ready d' (S k)
    /\ scan_step PATH_MAX (mkScan argv (mkProcess d fl posix) oi xml)
       = inl (mkScan argv (mkProcess d' (flags_after [t] fl) posix) oi'
                     (xml_after PATH_MAX [t] xml)).
Proof.
  intros Hr Hnth.
  destruct (render_is_option t) as (Hopt & Hdd).
  destruct (getopt_long_ready _ flag_var_eqb posix argv long_options d k _
              Hr Hnth Hopt Hdd)
    as (d1 & Hr1 & Ha1 & Hg).
  destruct Hr1 as (Hnc & Hini & Hk & Hfl & Hk0).
  unfold scan_step.
  cbn [sc_process sc_argv sc_option_index sc_xml scanner flags posixly_correct].
  rewrite Hg.
  destruct d1 as [oi1 oa1 nc1 fn1 ln1 ord1 ini1]; fields; subst.
  destruct t as [v|[]]; cbn; do 2 eexists; (split; [|reflexivity]);
    unfold ready; fields; auto.
Qed.

End LoopFacts.

Section TokenRuns.

Variable PATH_MAX : nat.

(** The loop takes in a run of tokens, one turn each. *)
Lemma scan_tokens ts : forall pre rest d fl posix oi xml fuel,
  ready d (length pre) ->
  exists d' oi',
    ready d' (length pre + length ts)
    /\ scan PATH_MAX (length ts + fuel)
            (mkScan (pre ++ map render ts ++ rest) (mkProcess d fl posix)
                    oi xml)
       = scan PATH_MAX fuel
              (mkScan (pre ++ map render ts ++ rest)
                      (mkProcess d' (flags_after ts fl) posix) oi'
                      (xml_after PATH_MAX ts xml)).
Proof.
  induction ts as [|t ts IH]; intros pre rest d fl posix oi xml fuel Hr.
  - exists d, oi. rewrite Nat.add_0_r. auto.
  - cbn [map app length].
    destruct (scan_step_token PATH_MAX
                (pre ++ render t :: map render ts ++ rest) d (length pre)
                fl posix oi xml t Hr (nth_error_middle _ _ _ _))
      as (d1 & oi1 & Hr1 & Hstep).
    cbn [Nat.add scan]. rewrite Hstep.
    replace (pre ++ render t :: map render ts ++ rest)
      with ((pre ++ [render t]) ++ map render ts ++ rest)
      by (rewrite <- app_assoc; reflexivity).
    assert (Hr1' : ready d1 (length (pre ++ [render t])))
      by (rewrite length_app; cbn [length]; rewrite Nat.add_1_r; exact Hr1).
    destruct (IH (pre ++ [render t]) rest d1 (flags_after [t] fl) posix oi1
                 (xml_after PATH_MAX [t] xml) fuel Hr1')
      as (d2 & oi2 & Hr2 & Hscan).
    exists d2, oi2. split.
    + rewrite length_app in Hr2; cbn [length] in Hr2.
      replace (length pre + S (length ts))
        with (length pre + 1 + length ts) by lia.
      exact Hr2.
    + rewrite Hscan. reflexivity.
Qed.

(** At the end of argv the scanner reports that the options are over. *)
Lemma getopt_long_done (F : Type) (F_eqb : F -> F -> bool) posix argv
      (lo : list (option_t F)) d k :
  ready d k ->
  nth_error argv k = None ->
  exists d1,
    ready d1 k
    /\ getopt_long F_eqb posix argv lo d = mkRet (-1) None None argv d1.
Proof.
  intros Hr Hnth.
  assert (Hr0 : ready (set_optarg None d) k)
    by (destruct Hr as (? & ? & ? & ? & ?); unfold ready; fields; auto).
  destruct (clamp_ready _ _ Hr0) as (Hr1 & Ha1 & Ho1).
  unfold getopt_long.
  destruct argv as [|a argv].
  - exists d; auto.
  - set (av := a :: argv) in *.
    destruct Hr as (Hnc & Hini & Hk & Hfl & Hk0).
    replace (optind (set_optarg None d)) with k by (fields; auto).
    replace (initialized (set_optarg None d)) with true by (fields; auto).
    replace (k =? 0) with false by (symmetry; apply Nat.eqb_neq; assumption).
    cbn [orb negb].
    replace (nextchar (set_optarg None d)) with EmptyString by (fields; auto).
    unfold advance.
    set (d0 := clamp (set_optarg None d)) in *.
    assert (Hfin : forall d1, ready d1 k ->
              next_element F_eqb av lo d1 = mkRet (-1) None None av d1).
    { intros d1 (? & ? & Hk1 & Hfl1 & ?). unfold next_element.
      rewrite Hk1, Hnth.
      unfold finish. rewrite Hfl1, Nat.eqb_refl. reflexivity. }
    destruct (ordering (set_optarg None d)).
    + exists d0. split; [exact Hr1|]. apply Hfin, Hr1.
    + assert (Hp : exists d1, permute av d0 = (av, d1) /\ ready d1 k).
      { destruct Hr1 as (Hnc1 & Hini1 & Hk1 & Hfl1 & _).
        destruct d0 as [oi oa nc fn ln ord ini]; fields; subst nc ini oi fn.
        unfold permute; fields.
        rewrite Nat.eqb_refl; cbn [negb andb].
        assert (Hs : skipn k av = [])
          by (apply skipn_all2, nth_error_None; exact Hnth).
        destruct (ln =? k) eqn:E; cbn [negb]; fields;
          rewrite Hs; cbn [skip_nonoptions];
          eexists; (split; [reflexivity|]); unfold ready; fields;
          try (apply Nat.eqb_eq in E); auto 10. }
      destruct Hp as (d1 & -> & Hr2).
      exists d1. split; [exact Hr2|]. apply Hfin, Hr2.
Qed.

Lemma started_ready posix : ready (started posix) 1.
Proof.
  unfold ready, started; fields; auto.
Qed.

Lemma getopt_long_unused (F : Type) (F_eqb : F -> F -> bool) posix argv
      (lo : list (option_t F)) d :
  argv <> [] ->
  optind d = 1 ->
  initialized d = false ->
  getopt_long F_eqb posix argv lo d
  = getopt_long F_eqb posix argv lo (started posix).
Proof.
  intros Hne Hk Hini.
  destruct d as [oi oa nc fn ln ord ini]; fields; subst oi ini.
  unfold getopt_long, initialize, started; fields.
  destruct argv; [contradiction|reflexivity].
Qed.

Lemma scan_step_unused p argv oi xml :
  argv <> [] ->
  optind (scanner p) = 1 ->
  initialized (scanner p) = false ->
  scan_step PATH_MAX (mkScan argv p oi xml)
  = scan_step PATH_MAX
      (mkScan argv (mkProcess (started (posixly_correct p)) (flags p)
                              (posixly_correct p)) oi xml).
Proof.
  intros Hne Hk Hini. unfold scan_step.
  cbn [sc_process sc_argv sc_option_index sc_xml scanner flags posixly_correct].
  rewrite (getopt_long_unused _ flag_var_eqb (posixly_correct p) argv
             long_options (scanner p) Hne Hk Hini).
  reflexivity.
Qed.

Lemma weight_length l : length l <= weight l.
Proof.
  unfold weight. induction l; simpl; lia.
Qed.

Lemma turns_unused argv d :
  optind d = 1 -> initialized d = false ->
  turns argv d = weight (skipn 1 argv).
Proof.
  intros Hk Hini. unfold turns. rewrite Hk, Hini.
  cbn [Nat.eqb orb negb]. unfold initialize; fields. rewrite Hk. reflexivity.
Qed.

End TokenRuns.

Section Runs.

Variable PATH_MAX : nat.

Lemma scan_unused fuel p argv oi xml :
  argv <> [] ->
  optind (scanner p) = 1 ->
  initialized (scanner p) = false ->
  scan PATH_MAX (S fuel) (mkScan argv p oi xml)
  = scan PATH_MAX (S fuel)
         (mkScan argv (mkProcess (started (posixly_correct p)) (flags p)
                                 (posixly_correct p)) oi xml).
Proof.
  intros Hne Hk Hini. cbn [scan].
  rewrite (scan_step_unused PATH_MAX p argv oi xml Hne Hk Hini). reflexivity.
Qed.

(** A run that starts with tokens of the usage line: the loop reaches the
    element after them with the statics and the path buffer as those
    tokens leave them, and with at least one turn to go. *)
Lemma get_args_prefix p prog ts rest c :
  unused p ->
  exists d' oi' fuel,
    ready d' (S (length ts))
    /\ get_args PATH_MAX p (prog :: map render ts ++ rest) c
       = match scan PATH_MAX (S fuel)
                    (mkScan (prog :: map render ts ++ rest)
                            (mkProcess d' (flags_after ts (mkStatics 0 0 0))
                                       (posixly_correct p)) oi'
                            (xml_after PATH_MAX ts (xml_filename c))) with
         | Some (e, s) => Some (validate c e s)
         | None => None
         end.
Proof.
  intros (Hk & Hini & Hfl).
  unfold get_args.
  rewrite (turns_unused _ _ Hk Hini). cbn [skipn].
  rewrite scan_unused by (auto; discriminate).
  rewrite Hfl.
  pose proof (weight_length (map render ts ++ rest)) as Hw.
  rewrite length_app, length_map in Hw.
  set (W := weight (map render ts ++ rest)) in *.
  destruct (scan_tokens PATH_MAX ts [prog] rest
              (started (posixly_correct p)) (mkStatics 0 0 0)
              (posixly_correct p) None (xml_filename c)
              (S (W - length ts)) (started_ready _))
    as (d' & oi' & Hr & Hscan).
  exists d', oi', (W - length ts). split; [exact Hr|].
  replace (S W) with (length ts + S (W - length ts)) by lia.
  cbn [app] in Hscan. rewrite Hscan. reflexivity.
Qed.

(** With nothing after the tokens the loop ends on "out of options". *)
Lemma scan_step_done argv d k fl posix oi xml :
  ready d k ->
  nth_error argv k = None ->
  exists d1,
    scan_step PATH_MAX (mkScan argv (mkProcess d fl posix) oi xml)
    = inr (OutOfOptions, mkScan argv (mkProcess d1 fl posix) oi xml).
Proof.
  intros Hr Hnth.
  destruct (getopt_long_done _ flag_var_eqb posix argv long_options d k
              Hr Hnth) as (d1 & _ & Hg).
  exists d1. unfold scan_step.
  cbn [sc_process sc_argv sc_option_index sc_xml scanner flags posixly_correct].
  rewrite Hg. reflexivity.
Qed.

Lemma nth_error_end (A : Type) (prog : A) (l : list A) :
  nth_error (prog :: l) (S (length l)) = None.
Proof.
  apply nth_error_None. simpl. lia.
Qed.

(** A run on tokens of the usage line alone comes to the check of the
    path buffer. *)
Lemma get_args_tokens p prog ts c :
  unused p ->
  exists s,
    get_args PATH_MAX p (prog :: map render ts) c
    = Some (validate c OutOfOptions s)
    /\ sc_xml s = xml_after PATH_MAX ts (xml_filename c)
    /\ flags (sc_process s) = flags_after ts (mkStatics 0 0 0).
Proof.
  intros Hu.
  destruct (get_args_prefix p prog ts [] c Hu) as (d' & oi' & fuel & Hr & Hg).
  rewrite app_nil_r in Hg.
  destruct (scan_step_done (prog :: map render ts) d' (S (length ts))
              (flags_after ts (mkStatics 0 0 0)) (posixly_correct p) oi'
              (xml_after PATH_MAX ts (xml_filename c)) Hr)
    as (d1 & Hstep).
  { rewrite <- (length_map render ts). apply nth_error_end. }
  cbn [scan] in Hg. rewrite Hstep in Hg.
  eexists. split; [exact Hg|]. split; reflexivity.
Qed.

End Runs.

(** ** What a run of tokens leaves behind *)

Lemma flags_after_cons t ts s :
  flags_after (t :: ts) s = flags_after ts (flags_after [t] s).
Proof. reflexivity. Qed.

Lemma given_cons f t ts :
  given f (t :: ts)
  = (match t with Flag g => opt_flag_eqb f g | Xml _ => false end
     || given f ts)%bool.
Proof. reflexivity. Qed.

Lemma flags_after_given ts : forall s,
  verbose_flag_v (flags_after ts s)
  = (if given Verbose ts then 1%Z else verbose_flag_v s)
  /\ debug_flag_v (flags_after ts s)
     = (if given Debug ts then 1%Z else debug_flag_v s)
  /\ use_tape6_flag_v (flags_after ts s)
     = (if given UseTape6 ts then 1%Z else use_tape6_flag_v s).
Proof.
  induction ts as [|t ts IH]; intros s.
  - auto.
  - rewrite flags_after_cons.
    destruct (IH (flags_after [t] s)) as (Hv & Hd & Hu).
    rewrite Hv, Hd, Hu, !given_cons.
    destruct t as [v|[]];
      destruct (given Verbose ts), (given Debug ts), (given UseTape6 ts);
      repeat split; reflexivity.
Qed.

Lemma snprintf_s_twice n buf a b :
  snprintf_s n (snprintf_s n buf a) b = snprintf_s n buf b.
Proof.
  destruct n; reflexivity.
Qed.

Lemma xml_after_last n ts : forall buf,
  xml_after n ts buf
  = match last_xml ts with
    | Some v => snprintf_s n buf (Some v)
    | None => buf
    end.
Proof.
  induction ts as [|t ts IH]; intros buf.
  - reflexivity.
  - change (xml_after n (t :: ts) buf)
      with (xml_after n ts (xml_after n [t] buf)).
    rewrite IH. cbn [last_xml].
    destruct (last_xml ts) as [w|]; destruct t as [v|f]; cbn;
      auto using snprintf_s_twice.
Qed.

Lemma snprintf_s_empty n : snprintf_s n "" (Some "") = "".
Proof.
  destruct n as [|[|n]]; reflexivity.
Qed.

Lemma snprintf_s_truncate n buf v :
  1 <= n -> snprintf_s n buf (Some v) = truncate (n - 1) v.
Proof.
  destruct n; [lia|]. cbn [snprintf_s Nat.sub]. rewrite Nat.sub_0_r. auto.
Qed.

Lemma truncate_nonempty n s :
  2 <= n -> s <> "" -> truncate (n - 1) s <> "".
Proof.
  destruct n as [|[|n]]; try lia. intros _.
  destruct s; [congruence|discriminate].
Qed.

Lemma length_zero_empty s : (String.length s <=? 0) = true <-> s = "".
Proof.
  destruct s; cbn; split; intros; congruence.
Qed.

(** The three results [validate] can give once the loop is out of
    options. *)
Lemma validate_success c s :
  sc_xml s <> "" ->
  validate c OutOfOptions s
  = Returned
      (mkResult SUCCESS
         (mkConfig (sc_xml s)
                   (negb (use_tape6_flag_v (flags (sc_process s)) =? 0)%Z)
                   (negb (verbose_flag_v (flags (sc_process s)) =? 0)%Z)
                   (negb (debug_flag_v (flags (sc_process s)) =? 0)%Z))
         (if negb (verbose_flag_v (flags (sc_process s)) =? 0)%Z
          then [echo_line (sc_xml s)] else [])
         (sc_argv s) (sc_process s)).
Proof.
  intros Hne. unfold validate.
  destruct (String.length (sc_xml s) <=? 0) eqn:E.
  - apply length_zero_empty in E. contradiction.
  - reflexivity.
Qed.

Lemma validate_missing c s :
  sc_xml s = "" ->
  validate c OutOfOptions s
  = Returned
      (mkResult FAILURE
         (mkConfig "" (use_tape6 c) (verbose c) (debug c))
         (usage ++ [ErrorMessage "XML input file is a required argument"
                                 "get_args"])
         (sc_argv s) (sc_process s)).
Proof.
  intros He. unfold validate. rewrite He. reflexivity.
Qed.

Section ClosedForm.

Variable PATH_MAX : nat.

(** The result of a run on tokens of the usage line, in closed form. *)
Lemma get_args_tokens_success p prog ts c v :
  unused p ->
  2 <= PATH_MAX ->
  last_xml ts = Some v ->
  v <> "" ->
  exists r,
    get_args PATH_MAX p (prog :: map render ts) c = Some (Returned r)
    /\ status r = SUCCESS
    /\ cfg r = mkConfig (truncate (PATH_MAX - 1) v) (given UseTape6 ts)
                        (given Verbose ts) (given Debug ts)
    /\ stdout r = (if given Verbose ts
                   then [echo_line (truncate (PATH_MAX - 1) v)] else []).
Proof.
  intros Hu Hpm Hlast Hv.
  destruct (get_args_tokens PATH_MAX p prog ts c Hu) as (s & Hg & Hx & Hf).
  rewrite xml_after_last, Hlast in Hx.
  rewrite snprintf_s_truncate in Hx by lia.
  assert (Hne : sc_xml s <> "")
    by (rewrite Hx; apply truncate_nonempty; assumption).
  rewrite (validate_success c s Hne) in Hg.
  destruct (flags_after_given ts (mkStatics 0 0 0)) as (Hfv & Hfd & Hfu).
  rewrite <- Hf in Hfv, Hfd, Hfu.
  rewrite Hfv, Hfd, Hfu, Hx in Hg.
  eexists. split; [exact Hg|]. cbn [status cfg stdout].
  cbn [verbose_flag_v debug_flag_v use_tape6_flag_v].
  destruct (given Verbose ts), (given Debug ts), (given UseTape6 ts);
    auto.
Qed.

Lemma get_args_tokens_missing p prog ts c :
  unused p ->
  xml_after PATH_MAX ts (xml_filename c) = "" ->
  exists r,
    get_args PATH_MAX p (prog :: map render ts) c = Some (Returned r)
    /\ missing_argument_failure r
    /\ cfg r = mkConfig "" (use_tape6 c) (verbose c) (debug c).
Proof.
  intros Hu He.
  destruct (get_args_tokens PATH_MAX p prog ts c Hu) as (s & Hg & Hx & Hf).
  rewrite He in Hx.
  rewrite (validate_missing c s Hx) in Hg.
  eexists. split; [exact Hg|]. unfold missing_argument_failure. auto.
Qed.

End ClosedForm.

(** ** The loop comes to an end *)

Section Termination.

Lemma weight_cons a l : weight (a :: l) = S (String.length a) + weight l.
Proof. reflexivity. Qed.

Lemma weight_skipn_le l : forall i j,
  i <= j -> weight (skipn j l) <= weight (skipn i l).
Proof.
  induction l as [|a l IH]; intros i j Hij.
  - rewrite !skipn_nil. lia.
  - destruct i, j; try lia.
    + cbn [skipn]. specialize (IH 0 j (Nat.le_0_l _)).
      cbn [skipn] in IH. rewrite weight_cons. lia.
    + cbn [skipn]. apply IH. lia.
Qed.

Lemma weight_skipn_nth l i tok :
  nth_error l i = Some tok ->
  weight (skipn i l) = S (String.length tok) + weight (skipn (S i) l).
Proof.
  intros H. rewrite (skipn_nth_error _ _ _ _ H). reflexivity.
Qed.

Lemma skipn_exchange_argv b m top argv :
  skipn top (exchange_argv b m top argv) = skipn top argv.
Proof.
  unfold exchange_argv.
  destruct ((m <? top) && (b <? m))%bool eqn:E; [|reflexivity].
  apply andb_true_iff in E. destruct E as (E1 & E2).
  apply Nat.ltb_lt in E1, E2.
  destruct (Nat.le_gt_cases top (length argv)) as [Hle|Hgt].
  - rewrite !app_assoc.
    rewrite skipn_app.
    rewrite skipn_all2, app_nil_l.
    + replace (top - _) with 0; [reflexivity|].
      rewrite !length_app, !length_firstn, !length_skipn.
      change Init.Nat.min with Nat.min. lia.
    + rewrite !length_app, !length_firstn, !length_skipn.
      change Init.Nat.min with Nat.min. lia.
  - replace (skipn top argv) with (@nil string)
      by (symmetry; apply skipn_all2; lia).
    apply skipn_all2.
    rewrite !length_app, !length_firstn, !length_skipn. cbn [length].
    change Init.Nat.min with Nat.min. lia.
Qed.

Lemma skip_nonoptions_ge rest : forall i, i <= skip_nonoptions rest i.
Proof.
  induction rest as [|s rest IH]; intros i; cbn; [lia|].
  destruct (nonoption s); [|lia]. specialize (IH (S i)). lia.
Qed.

Lemma skipn_skipn_eq (A : Type) (l l' : list A) i j :
  i <= j -> skipn i l = skipn i l' -> skipn j l = skipn j l'.
Proof.
  intros Hij H.
  replace j with ((j - i) + i) by lia.
  rewrite <- !skipn_skipn, H. reflexivity.
Qed.

(** What [permute] keeps: the scanner stays between elements, moves on
    only, and the elements from its new position on are untouched. *)
Lemma permute_keeps argv d argv' d' :
  permute argv d = (argv', d') ->
  nextchar d' = nextchar d /\ initialized d' = initialized d
  /\ optind d <= optind d'
  /\ skipn (optind d') argv' = skipn (optind d') argv.
Proof.
  unfold permute.
  destruct d as [oi oa nc fn ln ord ini]; fields.
  destruct (negb (fn =? ln) && negb (ln =? oi))%bool.
  - unfold exchange; fields. intros H; injection H as <- <-; fields.
    pose proof (skip_nonoptions_ge
                  (skipn oi (exchange_argv fn ln oi argv)) oi) as Hge.
    repeat split; auto.
    apply (skipn_skipn_eq _ _ _ oi); [exact Hge|].
    apply skipn_exchange_argv.
  - destruct (negb (ln =? oi)); fields;
      intros H; injection H as <- <-; fields;
      pose proof (skip_nonoptions_ge (skipn oi argv) oi); auto.
Qed.

Lemma clamp_keeps d :
  nextchar (clamp d) = nextchar d /\ initialized (clamp d) = initialized d
  /\ optind (clamp d) = optind d /\ ordering (clamp d) = ordering d.
Proof.
  destruct d as [oi oa nc fn ln ord ini]. unfold clamp; fields.
  destruct (oi <? ln); fields; destruct (oi <? _); fields; auto.
Qed.

Variable F : Type.
Variable F_eqb : F -> F -> bool.

Lemma process_long_option_keeps argv (lo : list (option_t F)) body d :
  let r := process_long_option F_eqb argv lo body d in
  r_argv r = argv /\ nextchar (r_data r) = nextchar d
  /\ initialized (r_data r) = initialized d
  /\ S (optind d) <= optind (r_data r).
Proof.
  unfold process_long_option.
  destruct (split_name body) as (nm, value).
  repeat match goal with
         | |- context [match ?x with _ => _ end] => destruct x
         end;
    cbn [r_argv r_data]; fields; repeat split; auto; lia.
Qed.

Lemma short_option_togo argv chars d :
  chars <> "" ->
  let r := short_option F argv chars d in
  r_argv r = argv /\ initialized (r_data r) = initialized d
  /\ optind d <= optind (r_data r)
  /\ togo argv (r_data r)
     < String.length chars + weight (skipn (S (optind d)) argv).
Proof.
  intros Hne. destruct chars as [|c rest]; [congruence|].
  unfold short_option, togo.
  destruct rest as [|c' rest]; cbn [r_argv r_data String.length]; fields;
    repeat split; auto; lia.
Qed.

Lemma end_of_options_c argv d : r_c (end_of_options F argv d) = (-1)%Z.
Proof.
  unfold end_of_options.
  repeat match goal with
         | |- context [if ?x then _ else _] => destruct x
         end; reflexivity.
Qed.

Lemma next_element_togo argv (lo : list (option_t F)) d :
  nextchar d = "" ->
  let r := next_element F_eqb argv lo d in
  r_c r <> (-1)%Z ->
  initialized (r_data r) = initialized d
  /\ optind d <= optind (r_data r)
  /\ togo (r_argv r) (r_data r) < weight (skipn (optind d) argv).
Proof.
  intros Hnc. unfold next_element. cbv zeta.
  destruct (nth_error argv (optind d)) as [tok|] eqn:Hnth;
    [|cbn; congruence].
  rewrite (weight_skipn_nth _ _ _ Hnth).
  destruct (String.eqb tok "--");
    [intros Hc; exfalso; apply Hc, end_of_options_c|].
  destruct (nonoption tok) eqn:Hopt.
  - destruct (ordering d); [cbn; congruence|].
    intros _. unfold togo. cbn [r_argv r_data]; fields.
    rewrite Hnc.
    repeat split; auto; lia.
  - unfold scan_element.
    destruct tok as [|a [|b body]];
      try (cbn in Hopt; destruct a as [[] [] [] [] [] [] [] []]; discriminate);
      try discriminate.
    destruct (Ascii.eqb b "-") eqn:Eb.
    + apply Ascii.eqb_eq in Eb; subst b.
      pose proof (process_long_option_keeps argv lo body d) as H.
      cbv zeta in H. destruct H as (Ha & Hn & Hi & Ho).
      intros _. rewrite Ha. unfold togo. rewrite Hn, Hnc.
      pose proof (weight_skipn_le argv _ _ Ho).
      repeat split; auto; lia.
    + assert (Hs : forall X (x y : X),
                 match b with "-"%char => x | _ => y end = y).
      { intros X x y. apply Ascii.eqb_neq in Eb.
        destruct b as [[] [] [] [] [] [] [] []]; try reflexivity.
        congruence. }
      intros _.
      pose proof (short_option_togo argv (String b body) d) as H.
      cbv zeta in H. destruct H as (Ha & Hi & Ho & Ht); [discriminate|].
      cbn [String.length] in *.
      change (match String a (String b body) with
              | String _ (String "-" body0) =>
                  process_long_option F_eqb argv lo body0 d
              | String _ "" | String _ (String _ _) =>
                  short_option F argv (String b body) d
              | EmptyString => finish F argv d
              end) with
        (match b with
         | "-"%char => process_long_option F_eqb argv lo body d
         | _ => short_option F argv (String b body) d
         end).
      rewrite Hs, Ha. repeat split; auto; lia.
Qed.

Lemma advance_togo argv (lo : list (option_t F)) d :
  nextchar d = "" ->
  let r := advance F_eqb argv lo d in
  r_c r <> (-1)%Z ->
  initialized (r_data r) = initialized d
  /\ optind d <= optind (r_data r)
  /\ togo (r_argv r) (r_data r) < togo argv d.
Proof.
  intros Hnc. unfold advance.
  destruct (clamp_keeps d) as (Hcn & Hci & Hco & _).
  assert (Hp : exists argv2 d2,
             match ordering d with
             | PERMUTE => permute argv (clamp d)
             | REQUIRE_ORDER => (argv, clamp d)
             end = (argv2, d2)
             /\ nextchar d2 = "" /\ initialized d2 = initialized d
             /\ optind d <= optind d2
             /\ skipn (optind d2) argv2 = skipn (optind d2) argv).
  { destruct (ordering d).
    - exists argv, (clamp d). rewrite Hcn, Hci, Hco. auto 10.
    - destruct (permute argv (clamp d)) as (argv2, d2) eqn:E.
      destruct (permute_keeps _ _ _ _ E) as (Hn & Hi & Ho & Hs).
      exists argv2, d2. rewrite Hn, Hi, Hcn, Hci. rewrite Hco in Ho.
      auto 10. }
  destruct Hp as (argv2 & d2 & -> & Hn2 & Hi2 & Ho2 & Hs2).
  cbv zeta. intros Hc.
  destruct (next_element_togo argv2 lo d2 Hn2 Hc) as (Hi & Ho & Ht).
  rewrite Hs2 in Ht.
  pose proof (weight_skipn_le argv _ _ Ho2).
  unfold togo at 2. rewrite Hnc.
  repeat split; try congruence; lia.
Qed.

(** Every call that does not end the scan leaves less to scan. *)
Lemma getopt_long_togo posix argv (lo : list (option_t F)) d :
  let r := getopt_long F_eqb posix argv lo d in
  r_c r <> (-1)%Z ->
  initialized (r_data r) = true /\ optind (r_data r) <> 0
  /\ togo (r_argv r) (r_data r) < turns argv d.
Proof.
  unfold getopt_long.
  destruct argv as [|a argv]; [cbn; congruence|].
  set (av := a :: argv).
  set (d0 := if (optind (set_optarg None d) =? 0)
                || negb (initialized (set_optarg None d))
             then initialize posix (set_optarg None d)
             else set_optarg None d).
  assert (H0 : initialized d0 = true /\ optind d0 <> 0
               /\ turns av d = togo av d0).
  { unfold turns, togo, d0, initialize.
    destruct d as [oi oa nc fn ln ord ini]; fields.
    destruct oi as [|oi]; destruct ini; cbn [Nat.eqb orb negb]; fields;
      auto. }
  destruct H0 as (Hi0 & Ho0 & ->).
  destruct (nextchar d0) as [|c rest] eqn:Hnc.
  - cbv zeta. intros Hc.
    destruct (advance_togo av lo d0 Hnc Hc) as (Hi & Ho & Ht).
    repeat split; try congruence; lia.
  - cbv zeta. intros _.
    pose proof (short_option_togo av (String c rest) d0) as H.
    cbv zeta in H. destruct H as (Ha & Hi & Ho & Ht); [discriminate|].
    rewrite Ha.
    unfold togo at 2. rewrite Hnc.
    repeat split; try congruence; lia.
Qed.

End Termination.

Section Totality.

Variable PATH_MAX : nat.

Lemma scan_step_inl s s' :
  scan_step PATH_MAX s = inl s' ->
  let r := getopt_long flag_var_eqb (posixly_correct (sc_process s))
                       (sc_argv s) long_options (scanner (sc_process s)) in
  r_c r <> (-1)%Z /\ sc_argv s' = r_argv r
  /\ scanner (sc_process s') = r_data r.
Proof.
  unfold scan_step. cbv zeta.
  set (r := getopt_long _ _ _ _ _).
  destruct (r_c r =? -1)%Z eqn:E; [discriminate|].
  apply Z.eqb_neq in E.
  repeat match goal with
         | |- context [match ?x with _ => _ end] => destruct x
         end;
    intros H; try discriminate; injection H as <-; auto.
Qed.

Lemma turns_set_up argv d :
  initialized d = true -> optind d <> 0 -> turns argv d = togo argv d.
Proof.
  intros Hi Ho. unfold turns. rewrite Hi.
  destruct (optind d); [congruence|reflexivity].
Qed.

(** [turns] is enough: the loop is left before the fuel runs out. *)
Lemma scan_terminates fuel : forall s,
  turns (sc_argv s) (scanner (sc_process s)) < fuel ->
  scan PATH_MAX fuel s <> None.
Proof.
  induction fuel as [|fuel IH]; intros s Hlt; [lia|].
  cbn [scan].
  destruct (scan_step PATH_MAX s) as [s'|e] eqn:E; [|discriminate].
  apply IH.
  destruct (scan_step_inl _ _ E) as (Hc & Ha & Hd).
  destruct (getopt_long_togo _ flag_var_eqb _ _ long_options _ Hc)
    as (Hi & Ho & Ht).
  rewrite Ha, Hd, (turns_set_up _ _ Hi Ho). lia.
Qed.

(** get_args always comes back with an outcome. *)
Lemma get_args_total p argv c :
  exists o, get_args PATH_MAX p argv c = Some o.
Proof.
  unfold get_args.
  destruct (scan PATH_MAX (S (turns argv (scanner p)))
                 (mkScan argv p None (xml_filename c)))
    as [(e, s)|] eqn:E.
  - eauto.
  - exfalso. revert E. apply scan_terminates. cbn. lia.
Qed.

(** The loop only ever writes the path buffer. *)
Lemma get_args_validate p argv c o :
  get_args PATH_MAX p argv c = Some o ->
  exists e s, o = validate c e s.
Proof.
  unfold get_args.
  destruct (scan _ _ _) as [(e, s)|]; [|discriminate].
  intros H; injection H as <-. eauto.
Qed.

End Totality.

(** ** What every returning call has in common *)

Section Returns.

Variable PATH_MAX : nat.

(** A call that returns has either failed, with the usage text first on
    stdout and the three booleans untouched, or succeeded, with a
    non-empty path and the booleans taken from the statics. *)
Lemma get_args_returned p argv c r :
  get_args PATH_MAX p argv c = Some (Returned r) ->
  (status r = FAILURE
   /\ (stdout r = usage
       \/ exists msg, stdout r = usage ++ [ErrorMessage msg "get_args"])
   /\ use_tape6 (cfg r) = use_tape6 c
   /\ verbose (cfg r) = verbose c
   /\ debug (cfg r) = debug c)
  \/
  (status r = SUCCESS
   /\ xml_filename (cfg r) <> ""
   /\ stdout r = (if verbose (cfg r)
                  then [echo_line (xml_filename (cfg r))] else [])
   /\ use_tape6 (cfg r)
      = negb (use_tape6_flag_v (flags (process_after r)) =? 0)%Z
   /\ verbose (cfg r)
      = negb (verbose_flag_v (flags (process_after r)) =? 0)%Z
   /\ debug (cfg r)
      = negb (debug_flag_v (flags (process_after r)) =? 0)%Z).
Proof.
  intros H. destruct (get_args_validate _ _ _ _ _ H) as (e & s & Hv).
  destruct e as [| |msg|]; cbn [validate] in Hv.
  - destruct (String.length (sc_xml s) <=? 0) eqn:E;
      injection Hv as ->; cbn [status stdout cfg use_tape6 verbose debug
                               xml_filename process_after].
    + left. repeat split; auto. right. eexists. reflexivity.
    + right. repeat split; auto.
      intros He. rewrite He in E. discriminate.
  - injection Hv as ->. left. cbn. auto 10.
  - injection Hv as ->. left. cbn. repeat split; auto.
    right. eexists. reflexivity.
  - discriminate.
Qed.

Lemma usage_emitted_length out : usage_emitted out -> 16 <= length out.
Proof.
  intros (before & after & ->). rewrite !length_app.
  change (length usage) with 16. lia.
Qed.

Lemma no_echo_in_usage path : ~ In (echo_line path) usage.
Proof.
  unfold echo_line, usage. cbn [In app String.append].
  intuition discriminate.
Qed.

End Returns.

(** ** Leaving the loop early *)

Section EarlyExits.

Variable PATH_MAX : nat.

Lemma prefix_refl s : String.prefix s s = true.
Proof.
  induction s as [|a s IH]; cbn; [reflexivity|].
  destruct (ascii_dec a a); [exact IH|congruence].
Qed.

Section Lookup.

Variable F : Type.
Variable F_eqb : F -> F -> bool.

Lemma find_exact_none nm (opts : list (option_t F)) : forall i,
  starts_none nm opts = true -> find_exact nm opts i = None.
Proof.
  induction opts as [|p opts IH]; intros i H; unfold starts_none in *;
    cbn in *; [reflexivity|].
  apply andb_true_iff in H. destruct H as (Hp & H).
  destruct (String.eqb (name p) nm) eqn:E.
  - apply String.eqb_eq in E. rewrite E, prefix_refl in Hp. discriminate.
  - apply IH, H.
Qed.

Lemma find_abbrev_none nm (opts : list (option_t F)) : forall i,
  starts_none nm opts = true ->
  find_abbrev F_eqb nm opts i None false = NoMatch F.
Proof.
  induction opts as [|p opts IH]; intros i H; unfold starts_none in *;
    cbn in *; [reflexivity|].
  apply andb_true_iff in H. destruct H as (Hp & H).
  apply negb_true_iff in Hp. rewrite Hp. apply IH, H.
Qed.

End Lookup.

(** [--help] after the scanner is ready for it. *)
Lemma scan_step_help argv d k fl posix oi xml :
  ready d k ->
  nth_error argv k = Some "--help" ->
  exists d' oi',
    scan_step PATH_MAX (mkScan argv (mkProcess d fl posix) oi xml)
    = inr (HelpRequested, mkScan argv (mkProcess d' fl posix) oi' xml).
Proof.
  intros Hr Hnth.
  destruct (getopt_long_ready _ flag_var_eqb posix argv long_options d k _
              Hr Hnth eq_refl) as (d1 & Hr1 & Ha1 & Hg); [discriminate|].
  unfold scan_step.
  cbn [sc_process sc_argv sc_option_index sc_xml scanner flags posixly_correct].
  rewrite Hg. cbn. eauto.
Qed.

Lemma sprintf_unknown_fits tok :
  String.length tok + 16 <= MAX_STR_LEN ->
  sprintf_unknown tok = Some ("Unknown option " ++ tok)%string.
Proof.
  intros H. unfold sprintf_unknown.
  destruct (_ <? _) eqn:E; [reflexivity|].
  apply Nat.ltb_ge in E. cbn [String.append String.length] in E. lia.
Qed.

(** A token that leaves the scanner's call with ['?'] and [optind] just
    past it is reported by name. *)
Lemma scan_step_question argv d k fl posix oi xml tok d1 :
  getopt_long flag_var_eqb posix argv long_options d
  = mkRet QUESTION None None argv d1 ->
  optind d1 = S k ->
  nth_error argv k = Some tok ->
  String.length tok + 16 <= MAX_STR_LEN ->
  scan_step PATH_MAX (mkScan argv (mkProcess d fl posix) oi xml)
  = inr (UnknownOption ("Unknown option " ++ tok),
         mkScan argv (mkProcess d1 fl posix) oi xml).
Proof.
  intros Hg Ho Hnth Hlen. unfold scan_step.
  cbn [sc_process sc_argv sc_option_index sc_xml scanner flags posixly_correct].
  rewrite Hg. cbn [r_c r_flag r_longind r_argv r_data].
  rewrite Ho. cbn [Nat.sub]. rewrite Nat.sub_0_r, Hnth.
  rewrite (sprintf_unknown_fits _ Hlen). reflexivity.
Qed.

Lemma unregistered_is_option tok :
  unregistered tok -> nonoption tok = false /\ tok <> "--".
Proof.
  intros (body & -> & H). split; [reflexivity|].
  destruct body; [discriminate H|discriminate].
Qed.

Lemma scan_step_unregistered argv d k fl posix oi xml tok :
  ready d k ->
  nth_error argv k = Some tok ->
  unregistered tok ->
  String.length tok + 16 <= MAX_STR_LEN ->
  exists d',
    scan_step PATH_MAX (mkScan argv (mkProcess d fl posix) oi xml)
    = inr (UnknownOption ("Unknown option " ++ tok),
           mkScan argv (mkProcess d' fl posix) oi xml).
Proof.
  intros Hr Hnth Hun Hlen.
  destruct (unregistered_is_option _ Hun) as (Hopt & Hdd).
  destruct (getopt_long_ready _ flag_var_eqb posix argv long_options d k _
              Hr Hnth Hopt Hdd) as (d1 & Hr1 & Ha1 & Hg).
  destruct Hun as (body & -> & Hnone).
  change (scan_element flag_var_eqb argv long_options ("--" ++ body) d1)
    with (process_long_option flag_var_eqb argv long_options body d1) in Hg.
  unfold process_long_option in Hg.
  destruct (split_name body) as (nm, value). cbn [fst] in Hnone.
  rewrite (find_exact_none _ nm long_options 0 Hnone) in Hg.
  rewrite (find_abbrev_none _ flag_var_eqb nm long_options 0 Hnone) in Hg.
  eexists. apply (scan_step_question _ _ k _ _ _ _ _ _ Hg); auto.
  destruct Hr1 as (_ & _ & Hk & _). fields. rewrite Hk. reflexivity.
Qed.

(** [--xml] as the last element: the value is missing. *)
Lemma scan_step_xml_last argv d k fl posix oi xml :
  ready d k ->
  nth_error argv k = Some "--xml" ->
  nth_error argv (S k) = None ->
  exists d',
    scan_step PATH_MAX (mkScan argv (mkProcess d fl posix) oi xml)
    = inr (UnknownOption "Unknown option --xml",
           mkScan argv (mkProcess d' fl posix) oi xml).
Proof.
  intros Hr Hnth Hend.
  destruct (getopt_long_ready _ flag_var_eqb posix argv long_options d k _
              Hr Hnth eq_refl) as (d1 & Hr1 & Ha1 & Hg); [discriminate|].
  destruct Hr1 as (_ & _ & Hk & _).
  assert (Hg' : getopt_long flag_var_eqb posix argv long_options d
                = mkRet QUESTION None None argv (set_optind (S k) d1)).
  { rewrite Hg. destruct argv as [|a argv]; [destruct k; discriminate|].
    cbn in Hend |- *. fields. rewrite Hk, Hend. reflexivity. }
  eexists.
  apply (scan_step_question _ _ k _ _ _ _ "--xml" _ Hg'); auto.
  cbn. unfold MAX_STR_LEN. lia.
Qed.

End EarlyExits.

(** ** Repeated and reordered options *)

Lemma last_xml_in ts w : last_xml ts = Some w -> In (Xml w) ts.
Proof.
  induction ts as [|t ts IH]; cbn; [discriminate|].
  destruct (last_xml ts) as [u|].
  - intros H; injection H as <-. auto.
  - destruct t as [v|f]; [|discriminate].
    intros H; injection H as <-. auto.
Qed.

Lemma last_xml_none ts w : last_xml ts = None -> ~ In (Xml w) ts.
Proof.
  induction ts as [|t ts IH]; cbn; [tauto|].
  destruct (last_xml ts) as [u|]; [discriminate|].
  destruct t as [v|f]; [discriminate|].
  intros _ [H|H]; [discriminate|]. apply IH; auto.
Qed.

Lemma last_xml_last_occurrences ts :
  last_xml (last_occurrences ts) = last_xml ts.
Proof.
  induction ts as [|[v|f] ts IH]; cbn [last_occurrences last_xml];
    [reflexivity| |].
  - destruct (last_xml ts) as [w|] eqn:E; [exact IH|].
    cbn [last_xml]. rewrite IH. reflexivity.
  - destruct (given f ts); cbn [last_xml]; rewrite IH;
      destruct (last_xml ts); reflexivity.
Qed.

Lemma opt_flag_eqb_eq a b : opt_flag_eqb a b = true <-> a = b.
Proof.
  destruct a, b; cbn; split; intros; congruence.
Qed.

Lemma given_in f ts : given f ts = true <-> In (Flag f) ts.
Proof.
  unfold given. rewrite existsb_exists. split.
  - intros ([v|g] & Hin & H); [discriminate|].
    apply opt_flag_eqb_eq in H. subst g. exact Hin.
  - intros H. exists (Flag f). split; [exact H|].
    apply opt_flag_eqb_eq. reflexivity.
Qed.

Lemma given_last_occurrences f ts :
  given f (last_occurrences ts) = given f ts.
Proof.
  induction ts as [|[v|g] ts IH]; cbn [last_occurrences];
    [reflexivity| |].
  - destruct (last_xml ts); rewrite ?given_cons, IH; reflexivity.
  - destruct (given g ts) eqn:E; rewrite ?given_cons, IH; [|reflexivity].
    destruct (opt_flag_eqb f g) eqn:Efg; [|reflexivity].
    apply opt_flag_eqb_eq in Efg. subst g. rewrite E. reflexivity.
Qed.

Lemma given_permutation f ts1 ts2 :
  Permutation ts1 ts2 -> given f ts1 = given f ts2.
Proof.
  intros HP.
  destruct (given f ts1) eqn:E1, (given f ts2) eqn:E2; try reflexivity.
  - apply given_in in E1. apply (Permutation_in _ HP) in E1.
    apply given_in in E1. congruence.
  - apply given_in in E2. apply (Permutation_in _ (Permutation_sym HP)) in E2.
    apply given_in in E2. congruence.
Qed.

Lemma last_xml_permutation v ts1 ts2 :
  Permutation ts1 ts2 ->
  (forall w, In (Xml w) ts1 -> w = v) ->
  last_xml ts1 = last_xml ts2.
Proof.
  intros HP Hv.
  destruct (last_xml ts1) as [w1|] eqn:E1, (last_xml ts2) as [w2|] eqn:E2;
    try reflexivity.
  - apply last_xml_in in E1, E2.
    apply (Permutation_in _ (Permutation_sym HP)) in E2.
    rewrite (Hv _ E1), (Hv _ E2). reflexivity.
  - apply last_xml_in in E1. apply (Permutation_in _ HP) in E1.
    destruct (last_xml_none _ _ E2 E1).
  - apply last_xml_in in E2.
    apply (Permutation_in _ (Permutation_sym HP)) in E2.
    destruct (last_xml_none _ _ E1 E2).
Qed.

Lemma statics_eq s1 s2 :
  verbose_flag_v s1 = verbose_flag_v s2 ->
  debug_flag_v s1 = debug_flag_v s2 ->
  use_tape6_flag_v s1 = use_tape6_flag_v s2 ->
  s1 = s2.
Proof.
  destruct s1, s2; cbn; congruence.
Qed.

(** The statics and the path buffer depend on the tokens only through
    which flags occur and which [--xml] value comes last. *)
Lemma after_same n ts1 ts2 buf s :
  last_xml ts1 = last_xml ts2 ->
  (forall f, given f ts1 = given f ts2) ->
  xml_after n ts1 buf = xml_after n ts2 buf
  /\ flags_after ts1 s = flags_after ts2 s.
Proof.
  intros Hl Hg. split.
  - rewrite !xml_after_last, Hl. reflexivity.
  - destruct (flags_after_given ts1 s) as (Hv1 & Hd1 & Hu1).
    destruct (flags_after_given ts2 s) as (Hv2 & Hd2 & Hu2).
    apply statics_eq; rewrite ?Hv1, ?Hv2, ?Hd1, ?Hd2, ?Hu1, ?Hu2, ?Hg;
      reflexivity.
Qed.

(** What the caller sees of a run that got to the end of its options
    depends on the path buffer and the statics only. *)
Lemma validate_same c s1 s2 :
  sc_xml s1 = sc_xml s2 ->
  flags (sc_process s1) = flags (sc_process s2) ->
  exists r1 r2,
    validate c OutOfOptions s1 = Returned r1
    /\ validate c OutOfOptions s2 = Returned r2
    /\ status r1 = status r2 /\ cfg r1 = cfg r2 /\ stdout r1 = stdout r2.
Proof.
  intros Hx Hf. unfold validate. rewrite Hx, Hf.
  destruct (String.length (sc_xml s2) <=? 0); do 2 eexists;
    (split; [reflexivity|]); (split; [reflexivity|]); cbn; auto.
Qed.

Section SameOutcome.

Variable PATH_MAX : nat.

(** Two token sequences with the same last [--xml] value and the same
    flags given end the same way. *)
Lemma get_args_same p prog ts1 ts2 c :
  unused p ->
  last_xml ts1 = last_xml ts2 ->
  (forall f, given f ts1 = given f ts2) ->
  exists r1 r2,
    get_args PATH_MAX p (prog :: map render ts1) c = Some (Returned r1)
    /\ get_args PATH_MAX p (prog :: map render ts2) c = Some (Returned r2)
    /\ status r1 = status r2 /\ cfg r1 = cfg r2 /\ stdout r1 = stdout r2.
Proof.
  intros Hu Hl Hg.
  destruct (get_args_tokens PATH_MAX p prog ts1 c Hu) as (s1 & H1 & Hx1 & Hf1).
  destruct (get_args_tokens PATH_MAX p prog ts2 c Hu) as (s2 & H2 & Hx2 & Hf2).
  destruct (after_same PATH_MAX ts1 ts2 (xml_filename c) (mkStatics 0 0 0)
              Hl Hg) as (Ex & Ef).
  destruct (validate_same c s1 s2) as (r1 & r2 & V1 & V2 & Hs);
    [congruence|congruence|].
  exists r1, r2. rewrite H1, H2, V1, V2. auto.
Qed.

End SameOutcome.

(** ** Where the behaviour is defined *)

Section InBounds.

Lemma exchange_argv_permutation b m top argv :
  Permutation argv (exchange_argv b m top argv).
Proof.
  unfold exchange_argv.
  destruct ((m <? top) && (b <? m))%bool eqn:E; [|apply Permutation_refl].
  apply andb_true_iff in E. destruct E as (E1 & E2).
  apply Nat.ltb_lt in E1, E2.
  rewrite <- (firstn_skipn b argv) at 1.
  apply Permutation_app_head.
  rewrite <- (firstn_skipn (m - b) (skipn b argv)) at 1.
  rewrite skipn_skipn. replace (m - b + b) with m by lia.
  rewrite <- (firstn_skipn (top - m) (skipn m argv)) at 1.
  rewrite skipn_skipn. replace (top - m + m) with top by lia.
  rewrite !app_assoc. apply Permutation_app_tail, Permutation_app_comm.
Qed.

Lemma skip_nonoptions_le rest : forall i,
  skip_nonoptions rest i <= i + length rest.
Proof.
  induction rest as [|s rest IH]; intros i; cbn; [lia|].
  destruct (nonoption s); [|lia]. specialize (IH (S i)). lia.
Qed.

Lemma permute_bounds argv d argv' d' :
  permute argv d = (argv', d') ->
  optind d <= length argv ->
  Permutation argv argv' /\ optind d' <= length argv'.
Proof.
  unfold permute.
  destruct d as [oi oa nc fn ln ord ini]; fields. intros H Hle.
  assert (Hs : forall l, length l = length argv ->
                         skip_nonoptions (skipn oi l) oi <= length l).
  { intros l Hl. pose proof (skip_nonoptions_le (skipn oi l) oi) as Hs.
    rewrite length_skipn in Hs. lia. }
  destruct (negb (fn =? ln) && negb (ln =? oi))%bool.
  - unfold exchange in H; fields. injection H as <- <-; fields.
    pose proof (exchange_argv_permutation fn ln oi argv) as HP.
    split; [exact HP|]. apply Hs. symmetry. apply Permutation_length, HP.
  - destruct (negb (ln =? oi)); fields; injection H as <- <-; fields;
      (split; [apply Permutation_refl|apply Hs; reflexivity]).
Qed.

Variable F : Type.
Variable F_eqb : F -> F -> bool.

Lemma find_exact_index nm (lo : list (option_t F)) : forall i0 i p,
  find_exact nm lo i0 = Some (i, p) ->
  i0 <= i /\ nth_error lo (i - i0) = Some p.
Proof.
  induction lo as [|q lo IH]; intros i0 i p; cbn; [discriminate|].
  destruct (String.eqb (name q) nm).
  - intros H; injection H as <- <-. rewrite Nat.sub_diag. auto.
  - intros H. destruct (IH _ _ _ H) as (Hle & Hn). split; [lia|].
    replace (i - i0) with (S (i - S i0)) by lia. exact Hn.
Qed.

Lemma find_abbrev_index nm (lo : list (option_t F)) :
  forall i0 found ambig i p,
  find_abbrev F_eqb nm lo i0 found ambig = Unique i p ->
  found = Some (i, p) \/ (i0 <= i /\ nth_error lo (i - i0) = Some p).
Proof.
  induction lo as [|q lo IH]; intros i0 found ambig i p; cbn.
  - destruct ambig; [discriminate|].
    destruct found as [(k, r)|]; [|discriminate].
    intros H; injection H as <- <-. auto.
  - destruct (String.prefix nm (name q)).
    + destruct found as [(k, r)|]; intros H; apply IH in H.
      * destruct H as [H|(Hle & Hn)]; [auto|]. right. split; [lia|].
        replace (i - i0) with (S (i - S i0)) by lia. exact Hn.
      * destruct H as [H|(Hle & Hn)].
        -- injection H as <- <-. right. rewrite Nat.sub_diag. auto.
        -- right. split; [lia|].
           replace (i - i0) with (S (i - S i0)) by lia. exact Hn.
    + intros H; apply IH in H.
      destruct H as [H|(Hle & Hn)]; [auto|]. right. split; [lia|].
      replace (i - i0) with (S (i - S i0)) by lia. exact Hn.
Qed.

(** A long option leaves [optind] inside argv, and what it stores
    through [longind] is the index of an entry of the table. *)
Lemma process_long_option_bounds argv (lo : list (option_t F)) body d :
  optind d < length argv ->
  let r := process_long_option F_eqb argv lo body d in
  optind (r_data r) <= length argv
  /\ (r_c r = 0%Z ->
      exists i p, r_longind r = Some i /\ nth_error lo i = Some p).
Proof.
  intros Hlt. unfold process_long_option.
  destruct (split_name body) as (nm, value).
  assert (Hlook :
    forall i p,
      match find_exact nm lo 0 with
      | Some (i, p) => Unique i p
      | None => find_abbrev F_eqb nm lo 0 None false
      end = Unique i p -> nth_error lo i = Some p).
  { intros i p. destruct (find_exact nm lo 0) as [(j, q)|] eqn:E.
    - intros H; injection H as <- <-.
      destruct (find_exact_index _ _ _ _ _ E) as (_ & Hn).
      rewrite Nat.sub_0_r in Hn. exact Hn.
    - intros H. destruct (find_abbrev_index _ _ _ _ _ _ _ H)
        as [H'|(_ & Hn)]; [discriminate|].
      rewrite Nat.sub_0_r in Hn. exact Hn. }
  destruct (match find_exact nm lo 0 with
            | Some (i, p) => Unique i p
            | None => find_abbrev F_eqb nm lo 0 None false
            end) as [|i p|] eqn:E; cbv zeta.
  - cbn [r_data r_c]; fields. split; [lia|]. unfold QUESTION. discriminate.
  - specialize (Hlook i p eq_refl).
    assert (Hnext : forall a, nth_error argv (S (optind d)) = Some a ->
                              S (S (optind d)) <= length argv).
    { intros a Ha.
      assert (S (optind d) < length argv)
        by (apply nth_error_Some; congruence).
      lia. }
    destruct value, (has_arg p), (flag p); fields;
      try (destruct (nth_error argv (S (optind d))) eqn:En;
           [specialize (Hnext _ eq_refl)|]);
      cbn [r_data r_c r_longind]; fields;
      (split; [lia|]); unfold QUESTION; try discriminate; eauto.
  - cbn [r_data r_c]; fields. split; [lia|]. unfold QUESTION. discriminate.
Qed.

Lemma short_option_bounds argv chars d :
  optind d < length argv ->
  let r := short_option F argv chars d in
  r_c r <> 0%Z /\ r_argv r = argv
  /\ initialized (r_data r) = initialized d
  /\ optind d <= optind (r_data r)
  /\ optind (r_data r) <= length argv
  /\ (nextchar (r_data r) <> "" -> optind (r_data r) < length argv).
Proof.
  intros Hlt. unfold short_option.
  destruct chars as [|c [|c' rest]]; cbn [r_c r_argv r_data]; fields;
    unfold QUESTION; repeat split; auto; try lia; try discriminate;
    try (intros H; congruence); try (intros _; exact Hlt).
Qed.

Lemma next_element_bounds argv (lo : list (option_t F)) d :
  nextchar d = "" ->
  let r := next_element F_eqb argv lo d in
  r_c r <> (-1)%Z ->
  r_argv r = argv
  /\ initialized (r_data r) = initialized d
  /\ optind d <= optind (r_data r)
  /\ optind (r_data r) <= length argv
  /\ (nextchar (r_data r) <> "" -> optind (r_data r) < length argv)
  /\ (r_c r = 0%Z ->
      exists i p, r_longind r = Some i /\ nth_error lo i = Some p).
Proof.
  intros Hnc. unfold next_element. cbv zeta.
  destruct (nth_error argv (optind d)) as [tok|] eqn:Hnth;
    [|cbn; congruence].
  assert (Hlt : optind d < length argv)
    by (apply nth_error_Some; congruence).
  destruct (String.eqb tok "--");
    [intros Hc; exfalso; apply Hc, end_of_options_c|].
  destruct (nonoption tok) eqn:Hopt.
  - destruct (ordering d); [cbn; congruence|].
    intros _. cbn [r_c r_argv r_data r_longind]; fields.
    repeat split; auto; try lia; try discriminate. congruence.
  - intros _. unfold scan_element.
    destruct tok as [|a [|b body]];
      try (cbn in Hopt; destruct a as [[] [] [] [] [] [] [] []]; discriminate);
      try discriminate.
    destruct (Ascii.eqb b "-") eqn:Eb.
    + apply Ascii.eqb_eq in Eb; subst b.
      pose proof (process_long_option_keeps _ F_eqb argv lo body d) as H.
      pose proof (process_long_option_bounds argv lo body d Hlt) as H'.
      cbv zeta in H, H'.
      destruct H as (Ha & Hn & Hi & Ho). destruct H' as (Hle & Hz).
      repeat split; auto; try lia. rewrite Hn, Hnc. congruence.
    + assert (Hs : forall X (x y : X),
                 match b with "-"%char => x | _ => y end = y).
      { intros X x y. apply Ascii.eqb_neq in Eb.
        destruct b as [[] [] [] [] [] [] [] []]; try reflexivity.
        congruence. }
      pose proof (short_option_bounds argv (String b body) d Hlt) as H.
      cbv zeta in H. destruct H as (Hz & Ha & Hi & Ho & Hle & Hn).
      change (match String a (String b body) with
              | String _ (String "-" body0) =>
                  process_long_option F_eqb argv lo body0 d
              | String _ "" | String _ (String _ _) =>
                  short_option F argv (String b body) d
              | EmptyString => finish F argv d
              end) with
        (match b with
         | "-"%char => process_long_option F_eqb argv lo body d
         | _ => short_option F argv (String b body) d
         end).
      rewrite Hs. repeat split; auto. intros Hc. contradiction.
Qed.

Lemma advance_bounds argv (lo : list (option_t F)) d :
  nextchar d = "" ->
  optind d <= length argv ->
  let r := advance F_eqb argv lo d in
  r_c r <> (-1)%Z ->
  Permutation argv (r_argv r)
  /\ initialized (r_data r) = initialized d
  /\ optind d <= optind (r_data r)
  /\ optind (r_data r) <= length (r_argv r)
  /\ (nextchar (r_data r) <> ""
      -> optind (r_data r) < length (r_argv r))
  /\ (r_c r = 0%Z ->
      exists i p, r_longind r = Some i /\ nth_error lo i = Some p).
Proof.
  intros Hnc Hle. unfold advance.
  destruct (clamp_keeps d) as (Hcn & Hci & Hco & _).
  assert (Hp : exists argv2 d2,
             match ordering d with
             | PERMUTE => permute argv (clamp d)
             | REQUIRE_ORDER => (argv, clamp d)
             end = (argv2, d2)
             /\ nextchar d2 = "" /\ initialized d2 = initialized d
             /\ optind d <= optind d2
             /\ Permutation argv argv2).
  { destruct (ordering d).
    - exists argv, (clamp d). rewrite Hcn, Hci, Hco. auto 10.
    - destruct (permute argv (clamp d)) as (argv2, d2) eqn:E.
      destruct (permute_keeps _ _ _ _ E) as (Hn & Hi & Ho & Hs).
      destruct (permute_bounds _ _ _ _ E) as (HP & _); [lia|].
      exists argv2, d2. rewrite Hn, Hi, Hcn, Hci. rewrite Hco in Ho.
      auto 10. }
  destruct Hp as (argv2 & d2 & -> & Hn2 & Hi2 & Ho2 & HP).
  cbv zeta. intros Hc.
  destruct (next_element_bounds argv2 lo d2 Hn2 Hc)
    as (Ha & Hi & Ho & Hl & Hn & Hz).
  rewrite Ha in *. repeat split; auto; try congruence; lia.
Qed.

(** Each call that does not end the scan keeps the scanner in bounds and
    argv a rearrangement of itself. *)
Lemma getopt_long_bounds posix argv (lo : list (option_t F)) d :
  in_bounds argv d ->
  let r := getopt_long F_eqb posix argv lo d in
  (r_c r = 0%Z ->
   exists i p, r_longind r = Some i /\ nth_error lo i = Some p)
  /\ (r_c r <> (-1)%Z ->
      Permutation argv (r_argv r) /\ in_bounds (r_argv r) (r_data r)).
Proof.
  intros (Hini & H1 & Hle & Hmid). unfold getopt_long.
  destruct argv as [|a argv]; [cbn in *; lia|].
  set (av := a :: argv) in *.
  replace (optind (set_optarg None d)) with (optind d) by reflexivity.
  replace (initialized (set_optarg None d)) with true by (fields; auto).
  replace (optind d =? 0) with false by (symmetry; apply Nat.eqb_neq; lia).
  cbn [orb negb].
  replace (nextchar (set_optarg None d)) with (nextchar d) by reflexivity.
  destruct (nextchar d) as [|c rest] eqn:Hnc; cbv zeta.
  - assert (Hnc0 : nextchar (set_optarg None d) = "") by (fields; auto).
    split.
    + intros Hz.
      assert (Hc : r_c (advance F_eqb av lo (set_optarg None d)) <> (-1)%Z)
        by (rewrite Hz; discriminate).
      apply (advance_bounds av lo _ Hnc0 Hle Hc). exact Hz.
    + intros Hc.
      destruct (advance_bounds av lo _ Hnc0 Hle Hc)
        as (HP & Hi & Ho & Hl & Hn & _).
      split; [exact HP|]. unfold in_bounds.
      fields. repeat split; auto; try congruence; lia.
  - assert (Hlt : optind (set_optarg None d) < length av)
      by (apply Hmid; discriminate).
    pose proof (short_option_bounds av (String c rest) _ Hlt) as H.
    cbv zeta in H. destruct H as (Hz & Ha & Hi & Ho & Hl & Hn).
    split; [intros Hc; contradiction|].
    intros _. rewrite Ha. split; [apply Permutation_refl|].
    unfold in_bounds. fields. repeat split; auto; try congruence; lia.
Qed.

End InBounds.

Section DefinedRuns.

Variable PATH_MAX : nat.

(** One turn of the loop from a scanner in bounds, on elements that fit
    the message buffer, stays there and is never undefined. *)
Lemma scan_step_defined s :
  in_bounds (sc_argv s) (scanner (sc_process s)) ->
  Forall fits (sc_argv s) ->
  match scan_step PATH_MAX s with
  | inl s' =>
      in_bounds (sc_argv s') (scanner (sc_process s'))
      /\ Forall fits (sc_argv s')
  | inr (e, _) => e <> UndefinedBehaviour
  end.
Proof.
  intros Hb Hf.
  pose proof (getopt_long_bounds _ flag_var_eqb
                (posixly_correct (sc_process s)) (sc_argv s) long_options
                (scanner (sc_process s)) Hb) as H.
  cbv zeta in H. destruct H as (Hz & Hn).
  unfold scan_step. cbv zeta.
  set (r := getopt_long _ _ _ _ _) in *.
  destruct (r_c r =? -1)%Z eqn:E1; [discriminate|].
  apply Z.eqb_neq in E1. destruct (Hn E1) as (HP & Hb').
  assert (Hf' : Forall fits (r_argv r))
    by (apply (Permutation_Forall HP), Hf).
  destruct (r_c r =? 0)%Z eqn:E0.
  - apply Z.eqb_eq in E0. destruct (Hz E0) as (i & p & -> & ->).
    destruct (flag p); [|discriminate].
    cbn [sc_argv sc_process scanner]. auto.
  - destruct (r_c r =? CHAR_h)%Z; [discriminate|].
    destruct (r_c r =? CHAR_i)%Z.
    + cbn [sc_argv sc_process scanner]. auto.
    + destruct Hb' as (_ & H1 & Hle & _).
      destruct (nth_error (r_argv r) (optind (r_data r) - 1)) as [tok|] eqn:En.
      * assert (Hfit : fits tok).
        { apply nth_error_In in En.
          rewrite Forall_forall in Hf'. apply Hf', En. }
        rewrite (sprintf_unknown_fits _ Hfit). discriminate.
      * apply nth_error_None in En. lia.
Qed.

Lemma scan_defined fuel : forall s e s',
  in_bounds (sc_argv s) (scanner (sc_process s)) ->
  Forall fits (sc_argv s) ->
  scan PATH_MAX fuel s = Some (e, s') ->
  e <> UndefinedBehaviour.
Proof.
  induction fuel as [|fuel IH]; intros s e s' Hb Hf; cbn [scan];
    [discriminate|].
  pose proof (scan_step_defined s Hb Hf) as H.
  destruct (scan_step PATH_MAX s) as [s1|(e1, s1)].
  - destruct H as (Hb1 & Hf1). apply IH; assumption.
  - intros Heq; injection Heq as <- <-. exact H.
Qed.

(** From an unused process, and with every argv element short enough to
    be quoted in the error message, get_args returns. *)
Lemma get_args_returns p prog tokens c :
  unused p ->
  Forall fits (prog :: tokens) ->
  exists r, get_args PATH_MAX p (prog :: tokens) c = Some (Returned r).
Proof.
  intros (Hk & Hi & Hfl) Hf.
  destruct (get_args_total PATH_MAX p (prog :: tokens) c) as (o & Ho).
  revert Ho. unfold get_args.
  rewrite scan_unused by (auto; discriminate).
  destruct (scan _ _ _) as [(e, s)|] eqn:E; [|discriminate].
  intros H; injection H as <-.
  apply scan_defined in E; [| |exact Hf].
  - destruct e; cbn [validate]; try (eexists; reflexivity);
      [|congruence].
    destruct (String.length (sc_xml s) <=? 0); eexists; reflexivity.
  - unfold in_bounds, started; cbn. repeat split; auto; try lia.
    congruence.
Qed.

End DefinedRuns.

(** ** The argument processor's contract *)

Section Contract.

Variable PATH_MAX : nat.

(** C2: whenever the path buffer is empty once the loop has run out of
    options, get_args reports the missing required argument: usage text,
    the error "XML input file is a required argument", FAILURE.  That is
    so when no [--xml] token was given at all and when the last one has
    an empty value.  Put the other way round, a call that returns SUCCESS
    leaves a non-empty path. *)
Theorem C2_empty_path_is_missing_argument :
  (forall p argv c r,
      get_args PATH_MAX p argv c = Some (Returned r) ->
      status r = SUCCESS -> xml_filename (cfg r) <> "")
  /\ (forall p argv c s,
         scan PATH_MAX (S (turns argv (scanner p)))
              (mkScan argv p None (xml_filename c)) = Some (OutOfOptions, s) ->
         sc_xml s = "" ->
         exists r, get_args PATH_MAX p argv c = Some (Returned r)
                   /\ missing_argument_failure r
                   /\ xml_filename (cfg r) = "")
  /\ (forall p prog ts,
         unused p ->
         last_xml ts = None \/ last_xml ts = Some "" ->
         exists r, get_args PATH_MAX p (prog :: map render ts) fresh_config
                   = Some (Returned r)
                   /\ missing_argument_failure r
                   /\ xml_filename (cfg r) = "").
Proof.
  split; [|split].
  - intros p argv c r H Hs.
    destruct (get_args_returned _ _ _ _ _ H) as [(Hf & _)|(_ & Hne & _)];
      [|exact Hne].
    rewrite Hs in Hf. discriminate.
  - intros p argv c s Hscan He.
    unfold get_args. rewrite Hscan, (validate_missing c s He).
    eexists. split; [reflexivity|].
    unfold missing_argument_failure. cbn. auto.
  - intros p prog ts Hu Hlast.
    destruct (get_args_tokens_missing PATH_MAX p prog ts fresh_config Hu)
      as (r & Hg & Hm & Hc).
    + rewrite xml_after_last.
      destruct Hlast as [-> | ->]; [reflexivity|].
      apply snprintf_s_empty.
    + exists r. rewrite Hc. auto.
Qed.

(** C8: a call that returns SUCCESS with [*verbose] true has printed
    exactly one thing, the line [XML_input_file = <path>] with the path it
    leaves in the buffer; a call that leaves [*verbose] false has printed
    no such line. *)
Theorem C8_verbose_echoes_path p argv c r :
  get_args PATH_MAX p argv c = Some (Returned r) ->
  (status r = SUCCESS -> verbose (cfg r) = true ->
   stdout r = [echo_line (xml_filename (cfg r))])
  /\ (verbose (cfg r) = false ->
      forall path, ~ In (echo_line path) (stdout r)).
Proof.
  intros H.
  destruct (get_args_returned _ _ _ _ _ H)
    as [(Hf & Hout & _)|(Hs & _ & Hout & _)].
  - split.
    + intros Hs. rewrite Hs in Hf. discriminate.
    + intros _ path Hin.
      destruct Hout as [Hout|(msg & Hout)]; rewrite Hout in Hin.
      * exact (no_echo_in_usage path Hin).
      * apply in_app_or in Hin. destruct Hin as [Hin|[Hin|[]]].
        -- exact (no_echo_in_usage path Hin).
        -- discriminate.
  - split.
    + intros _ Hv. rewrite Hout, Hv. reflexivity.
    + intros Hv path. rewrite Hout, Hv. intros [].
Qed.

(** C9: get_args always comes back with an outcome; in an unused process
    and with argv elements that fit the message buffer it returns; and
    whenever it returns, the usage text is on stdout if and only if the
    status is FAILURE: on FAILURE the usage text is the first thing
    printed, before any error message, and on SUCCESS it is not printed. *)
Theorem C9_usage_iff_failure p argv c :
  (exists o, get_args PATH_MAX p argv c = Some o)
  /\ (forall prog tokens,
         argv = prog :: tokens -> unused p -> Forall fits argv ->
         exists r, get_args PATH_MAX p argv c = Some (Returned r))
  /\ forall r,
      get_args PATH_MAX p argv c = Some (Returned r) ->
      (usage_emitted (stdout r) <-> status r = FAILURE)
      /\ (status r = FAILURE ->
          stdout r = usage
          \/ exists msg, stdout r = usage ++ [ErrorMessage msg "get_args"])
      /\ (status r = SUCCESS -> ~ usage_emitted (stdout r)).
Proof.
  split; [apply get_args_total|].
  split; [intros prog tokens -> Hu Hf; apply get_args_returns; assumption|].
  intros r H.
  destruct (get_args_returned _ _ _ _ _ H)
    as [(Hf & Hout & _)|(Hs & _ & Hout & _)].
  - assert (He : usage_emitted (stdout r)).
    { destruct Hout as [->|(msg & ->)].
      - exists [], []. rewrite app_nil_r. reflexivity.
      - exists [], [ErrorMessage msg "get_args"]. reflexivity. }
    split; [tauto|]. split; [auto|].
    intros Hs. rewrite Hs in Hf. discriminate.
  - assert (Hn : ~ usage_emitted (stdout r)).
    { intros He. apply usage_emitted_length in He. rewrite Hout in He.
      destruct (verbose (cfg r)); cbn in He; lia. }
    split; [|split; [|auto]].
    + split; [tauto|]. intros Hf. rewrite Hs in Hf. discriminate.
    + intros Hf. rewrite Hs in Hf. discriminate.
Qed.

(** C10: a call that returns FAILURE leaves [*use_tape6], [*verbose] and
    [*debug] as the caller had them; a call that returns SUCCESS has set
    all three from the statics, whatever the caller had there; and there
    is no third status. *)
Theorem C10_booleans_written_on_success_only p argv c r :
  get_args PATH_MAX p argv c = Some (Returned r) ->
  (status r = FAILURE ->
   use_tape6 (cfg r) = use_tape6 c /\ verbose (cfg r) = verbose c
   /\ debug (cfg r) = debug c)
  /\ (status r = SUCCESS ->
      use_tape6 (cfg r)
      = negb (use_tape6_flag_v (flags (process_after r)) =? 0)%Z
      /\ verbose (cfg r)
         = negb (verbose_flag_v (flags (process_after r)) =? 0)%Z
      /\ debug (cfg r)
         = negb (debug_flag_v (flags (process_after r)) =? 0)%Z
      /\ forall t v g,
          get_args PATH_MAX p argv (mkConfig (xml_filename c) t v g)
          = Some (Returned r))
  /\ (status r = SUCCESS \/ status r = FAILURE).
Proof.
  intros H.
  destruct (get_args_returned _ _ _ _ _ H)
    as [(Hf & _ & Hb)|(Hs & Hne & _ & Ht & Hv & Hd)].
  - split; [auto|]. split; [|auto].
    intros Hs. rewrite Hs in Hf. discriminate.
  - split; [|split; [|auto]].
    + intros Hf. rewrite Hs in Hf. discriminate.
    + intros _. repeat split; auto.
      intros t v g. revert H Hs. unfold get_args. cbn [xml_filename].
      destruct (scan _ _ _) as [(e, s)|]; [|discriminate].
      destruct e; cbn [validate]; try discriminate;
        try (intros H; injection H as <-; discriminate).
      destruct (String.length (sc_xml s) <=? 0);
        intros H; injection H as <-; [discriminate|reflexivity].
Qed.

End Contract.

(** ** Command lines that go through, and command lines that do not *)

Lemma truncate_all s : forall n, String.length s <= n -> truncate n s = s.
Proof.
  induction s as [|a s IH]; intros [|n] H; cbn in *; try reflexivity;
    [lia|].
  rewrite IH by lia. reflexivity.
Qed.

Section CommandLines.

Variable PATH_MAX : nat.

(** C1, as the code has it: on a command line made of [--xml=<value>],
    [--use-tape6], [--verbose] and [--debug] tokens only (so without
    [--help]), whose last [--xml=] token has a non-empty value, get_args
    in an unused process returns SUCCESS, the path is that last value cut
    to [PATH_MAX - 1] characters, and each boolean is true exactly when
    its flag token occurs, so false when it does not. *)
Theorem C1_option_tokens_succeed p prog ts v :
  unused p ->
  2 <= PATH_MAX ->
  last_xml ts = Some v ->
  v <> "" ->
  exists r,
    get_args PATH_MAX p (prog :: map render ts) fresh_config
    = Some (Returned r)
    /\ status r = SUCCESS
    /\ xml_filename (cfg r) = truncate (PATH_MAX - 1) v
    /\ use_tape6 (cfg r) = given UseTape6 ts
    /\ verbose (cfg r) = given Verbose ts
    /\ debug (cfg r) = given Debug ts.
Proof.
  intros Hu Hpm Hlast Hv.
  destruct (get_args_tokens_success PATH_MAX p prog ts fresh_config v
              Hu Hpm Hlast Hv) as (r & Hg & Hs & Hc & _).
  exists r. rewrite Hc. cbn. auto 10.
Qed.

(** C3, as the code has it: when [--help] comes after [--xml=<value>],
    [--use-tape6], [--verbose] and [--debug] tokens only, get_args prints
    the usage text and nothing else and returns FAILURE, whatever follows
    the [--help]. *)
Theorem C3_help_after_option_tokens p prog ts rest c :
  unused p ->
  exists r,
    get_args PATH_MAX p (prog :: map render ts ++ "--help" :: rest) c
    = Some (Returned r)
    /\ help_failure r
    /\ status r <> SUCCESS.
Proof.
  intros Hu.
  destruct (get_args_prefix PATH_MAX p prog ts ("--help" :: rest) c Hu)
    as (d' & oi' & fuel & Hr & Hg).
  destruct (scan_step_help PATH_MAX
              (prog :: map render ts ++ "--help" :: rest) d' (S (length ts))
              (flags_after ts (mkStatics 0 0 0)) (posixly_correct p) oi'
              (xml_after PATH_MAX ts (xml_filename c)) Hr)
    as (d1 & oi1 & Hstep).
  { rewrite <- (length_map render ts).
    apply (nth_error_middle _ (prog :: map render ts)). }
  cbn [scan] in Hg. rewrite Hstep in Hg. cbn [validate] in Hg.
  eexists. split; [exact Hg|].
  unfold help_failure. cbn. repeat split; auto. discriminate.
Qed.

(** C4, as the code has it: when [--xml=<value>], [--use-tape6],
    [--verbose] and [--debug] tokens are followed by a token
    [--<name>] or [--<name>=<value>] whose name starts no registered
    option name, or by a final [--xml] with nothing after it, and the
    token leaves room in the message buffer, get_args stops at that token:
    it prints the usage text, then the error "Unknown option <token>",
    and returns FAILURE, with the path buffer as the tokens before
    left it. *)
Theorem C4_unknown_option_reported p prog ts tok rest c :
  unused p ->
  String.length tok + 16 <= MAX_STR_LEN ->
  unregistered tok \/ (tok = "--xml" /\ rest = []) ->
  exists r,
    get_args PATH_MAX p (prog :: map render ts ++ tok :: rest) c
    = Some (Returned r)
    /\ unknown_option_failure tok r
    /\ xml_filename (cfg r) = xml_after PATH_MAX ts (xml_filename c).
Proof.
  intros Hu Hlen Htok.
  destruct (get_args_prefix PATH_MAX p prog ts (tok :: rest) c Hu)
    as (d' & oi' & fuel & Hr & Hg).
  assert (Hnth : nth_error (prog :: map render ts ++ tok :: rest)
                           (S (length ts)) = Some tok).
  { rewrite <- (length_map render ts).
    apply (nth_error_middle _ (prog :: map render ts)). }
  assert (Hstep : exists d1,
             scan_step PATH_MAX
               (mkScan (prog :: map render ts ++ tok :: rest)
                       (mkProcess d' (flags_after ts (mkStatics 0 0 0))
                                  (posixly_correct p)) oi'
                       (xml_after PATH_MAX ts (xml_filename c)))
             = inr (UnknownOption ("Unknown option " ++ tok),
                    mkScan (prog :: map render ts ++ tok :: rest)
                           (mkProcess d1 (flags_after ts (mkStatics 0 0 0))
                                      (posixly_correct p)) oi'
                           (xml_after PATH_MAX ts (xml_filename c)))).
  { destruct Htok as [Hun|(-> & ->)].
    - apply (scan_step_unregistered PATH_MAX _ _ _ _ _ _ _ _ Hr Hnth Hun Hlen).
    - apply (scan_step_xml_last PATH_MAX _ _ _ _ _ _ _ Hr Hnth).
      apply nth_error_None. rewrite length_cons, length_app, length_map.
      cbn. lia. }
  destruct Hstep as (d1 & Hstep).
  cbn [scan] in Hg. rewrite Hstep in Hg. cbn [validate] in Hg.
  eexists. split; [exact Hg|].
  unfold unknown_option_failure. cbn. auto.
Qed.

(** Two calls on the same argv, each the first in its process and each
    on a fresh configuration, come back with the same outcome, whatever
    the scanner data of the two processes held before. *)
Lemma unused_processes_agree p1 p2 prog tokens :
  unused p1 ->
  unused p2 ->
  posixly_correct p1 = posixly_correct p2 ->
  get_args PATH_MAX p1 (prog :: tokens) fresh_config
  = get_args PATH_MAX p2 (prog :: tokens) fresh_config
  /\ exists o, get_args PATH_MAX p1 (prog :: tokens) fresh_config = Some o.
Proof.
  intros (Hk1 & Hi1 & Hf1) (Hk2 & Hi2 & Hf2) Hpx.
  split; [|apply get_args_total].
  unfold get_args.
  rewrite (turns_unused _ _ Hk1 Hi1), (turns_unused _ _ Hk2 Hi2).
  rewrite (scan_unused PATH_MAX _ p1) by (auto; discriminate).
  rewrite (scan_unused PATH_MAX _ p2) by (auto; discriminate).
  rewrite Hf1, Hf2, Hpx. reflexivity.
Qed.

(** C6: with one [--xml=<value>] token and any optional flags, every
    order of the tokens gives the same status, the same configuration
    and the same output. *)
Theorem C6_order_of_flags_is_immaterial p prog v fl ts1 ts2 c :
  unused p ->
  Permutation ts1 (Xml v :: map Flag fl) ->
  Permutation ts2 (Xml v :: map Flag fl) ->
  exists r1 r2,
    get_args PATH_MAX p (prog :: map render ts1) c = Some (Returned r1)
    /\ get_args PATH_MAX p (prog :: map render ts2) c = Some (Returned r2)
    /\ status r1 = status r2 /\ cfg r1 = cfg r2 /\ stdout r1 = stdout r2.
Proof.
  intros Hu HP1 HP2.
  assert (HP : Permutation ts1 ts2)
    by (eapply Permutation_trans; [exact HP1|apply Permutation_sym, HP2]).
  apply get_args_same; [exact Hu| |].
  - apply (last_xml_permutation v); [exact HP|].
    intros w Hin. apply (Permutation_in _ HP1) in Hin.
    destruct Hin as [Hin|Hin]; [congruence|].
    apply in_map_iff in Hin. destruct Hin as (f & Hf & _). discriminate.
  - intros f. apply given_permutation, HP.
Qed.

(** C7: giving an option more than once is not an error.  A command line
    of [--xml=<value>], [--use-tape6], [--verbose] and [--debug] tokens
    ends exactly as the command line that keeps only the last occurrence
    of each: the path is the value of the last [--xml=], and the only
    failure left is the missing-argument one when that value is empty.
    So [--xml=a.xml --xml=b.xml] returns SUCCESS with the path "b.xml". *)
Theorem C7_last_occurrence_wins p prog ts :
  unused p ->
  6 <= PATH_MAX ->
  (exists r r',
      get_args PATH_MAX p (prog :: map render ts) fresh_config
      = Some (Returned r)
      /\ get_args PATH_MAX p (prog :: map render (last_occurrences ts))
                  fresh_config = Some (Returned r')
      /\ status r = status r' /\ cfg r = cfg r' /\ stdout r = stdout r'
      /\ xml_filename (cfg r)
         = match last_xml ts with
           | Some v => truncate (PATH_MAX - 1) v
           | None => ""
           end
      /\ (status r = SUCCESS \/ missing_argument_failure r))
  /\ (exists r,
         get_args PATH_MAX p [prog; "--xml=a.xml"; "--xml=b.xml"] fresh_config
         = Some (Returned r)
         /\ status r = SUCCESS /\ xml_filename (cfg r) = "b.xml").
Proof.
  intros Hu Hpm. split.
  - destruct (get_args_same PATH_MAX p prog ts (last_occurrences ts)
                fresh_config Hu) as (r & r' & H & H' & Hs & Hc & Ho).
    { symmetry. apply last_xml_last_occurrences. }
    { intros f. symmetry. apply given_last_occurrences. }
    exists r, r'. repeat (split; [assumption|]).
    destruct (get_args_tokens PATH_MAX p prog ts fresh_config Hu)
      as (s & Hg & Hx & Hf).
    assert (Hv : validate fresh_config OutOfOptions s = Returned r)
      by congruence.
    clear Hg.
    rewrite xml_after_last in Hx. cbn [xml_filename fresh_config] in Hx.
    assert (Hx' : sc_xml s = match last_xml ts with
                             | Some v => truncate (PATH_MAX - 1) v
                             | None => ""
                             end).
    { rewrite Hx. destruct (last_xml ts); [|reflexivity].
      apply snprintf_s_truncate. lia. }
    destruct (string_dec (sc_xml s) "") as [He|Hne].
    + rewrite (validate_missing _ _ He) in Hv. injection Hv as <-.
      cbn [cfg xml_filename]. split; [congruence|].
      right. unfold missing_argument_failure. cbn. auto.
    + rewrite (validate_success _ _ Hne) in Hv. injection Hv as <-.
      cbn [cfg xml_filename status]. auto.
  - destruct (get_args_tokens_success PATH_MAX p prog
                [Xml "a.xml"; Xml "b.xml"] fresh_config "b.xml" Hu)
      as (r & Hg & Hs & Hc & _); [lia|reflexivity|discriminate|].
    exists r. split; [exact Hg|]. split; [exact Hs|].
    rewrite Hc. cbn [xml_filename].
    apply truncate_all. cbn [String.length]. lia.
Qed.

End CommandLines.

(** ** Runs worked out *)

Lemma unused_fresh_process posix : unused (fresh_process posix).
Proof.
  unfold unused, fresh_process; cbn; auto.
Qed.

(** A well-formed [--xml=a.xml] and recognized tokens only, yet FAILURE:
    with [--help] among them, and with an empty [--xml=] coming last. *)
Lemma C1_counterexample_help :
  (exists r,
      get_args LINUX_PATH_MAX (fresh_process false)
               ["scene_based_lst"; "--xml=a.xml"; "--help"] fresh_config
      = Some (Returned r)
      /\ status r = FAILURE /\ status r <> SUCCESS)
  /\ (exists r,
         get_args LINUX_PATH_MAX (fresh_process false)
                  ["scene_based_lst"; "--xml=a.xml"; "--xml="] fresh_config
         = Some (Returned r)
         /\ status r = FAILURE /\ status r <> SUCCESS).
Proof.
  split; eexists; (split; [vm_compute; reflexivity|]);
    (split; [reflexivity|discriminate]).
Qed.

(** [--xml=a.xml --verbose] goes through. *)
Lemma C1_witness :
  exists r,
    get_args LINUX_PATH_MAX (fresh_process false)
             ("scene_based_lst" :: map render [Xml "a.xml"; Flag Verbose])
             fresh_config
    = Some (Returned r)
    /\ status r = SUCCESS
    /\ xml_filename (cfg r) = truncate (LINUX_PATH_MAX - 1) "a.xml"
    /\ use_tape6 (cfg r) = given UseTape6 [Xml "a.xml"; Flag Verbose]
    /\ verbose (cfg r) = given Verbose [Xml "a.xml"; Flag Verbose]
    /\ debug (cfg r) = given Debug [Xml "a.xml"; Flag Verbose].
Proof.
  apply (C1_option_tokens_succeed LINUX_PATH_MAX (fresh_process false)
           "scene_based_lst" [Xml "a.xml"; Flag Verbose] "a.xml").
  - apply unused_fresh_process.
  - unfold LINUX_PATH_MAX; lia.
  - reflexivity.
  - discriminate.
Defined.

(** [--debug --xml=]: the path is missing. *)
Lemma C2_witness :
  exists r,
    get_args LINUX_PATH_MAX (fresh_process false)
             ("scene_based_lst" :: map render [Flag Debug; Xml ""])
             fresh_config
    = Some (Returned r)
    /\ missing_argument_failure r
    /\ xml_filename (cfg r) = "".
Proof.
  apply (proj2 (proj2 (C2_empty_path_is_missing_argument LINUX_PATH_MAX))
               (fresh_process false) "scene_based_lst" [Flag Debug; Xml ""]).
  - apply unused_fresh_process.
  - right. reflexivity.
Defined.

(** [--help] among the tokens without the help path being taken: as the
    value of [--xml], after [--], and after an unknown option. *)
Lemma C3_counterexample_help_not_reached :
  (exists r,
      get_args LINUX_PATH_MAX (fresh_process false)
               ["scene_based_lst"; "--xml"; "--help"] fresh_config
      = Some (Returned r)
      /\ status r = SUCCESS /\ stdout r = []
      /\ xml_filename (cfg r) = "--help")
  /\ (exists r,
         get_args LINUX_PATH_MAX (fresh_process false)
                  ["scene_based_lst"; "--xml=a.xml"; "--"; "--help"]
                  fresh_config
         = Some (Returned r)
         /\ status r = SUCCESS /\ stdout r = [])
  /\ (exists r,
         get_args LINUX_PATH_MAX (fresh_process false)
                  ["scene_based_lst"; "--bogus"; "--help"] fresh_config
         = Some (Returned r)
         /\ unknown_option_failure "--bogus" r
         /\ stdout r <> usage).
Proof.
  split; [|split]; eexists; (split; [vm_compute; reflexivity|]).
  - repeat split.
  - repeat split.
  - split; [split; reflexivity|]. discriminate.
Qed.

(** [--help] after options, with anything behind it. *)
Lemma C3_witness :
  exists r,
    get_args LINUX_PATH_MAX (fresh_process false)
             ("scene_based_lst"
                :: map render [Xml "a.xml"; Flag Verbose]
                ++ "--help" :: ["--bogus"; "stray"])
             fresh_config
    = Some (Returned r)
    /\ help_failure r
    /\ status r <> SUCCESS.
Proof.
  apply (C3_help_after_option_tokens LINUX_PATH_MAX (fresh_process false)
           "scene_based_lst" [Xml "a.xml"; Flag Verbose]
           ["--bogus"; "stray"] fresh_config).
  apply unused_fresh_process.
Defined.

(** A token that is no option at all is passed over, and [--xml] takes
    whatever comes next as its value: SUCCESS both times, nothing
    printed. *)
Lemma C4_counterexample_operand_ignored :
  (exists r,
      get_args LINUX_PATH_MAX (fresh_process false)
               ["scene_based_lst"; "--xml=a.xml"; "bogus"] fresh_config
      = Some (Returned r)
      /\ status r = SUCCESS /\ stdout r = [])
  /\ (exists r,
         get_args LINUX_PATH_MAX (fresh_process false)
                  ["scene_based_lst"; "--xml"; "--verbose"] fresh_config
         = Some (Returned r)
         /\ status r = SUCCESS /\ stdout r = []
         /\ xml_filename (cfg r) = "--verbose").
Proof.
  split; eexists; (split; [vm_compute; reflexivity|]); repeat split.
Qed.

(** [--bogus] after [--xml=a.xml]. *)
Lemma C4_witness :
  exists r,
    get_args LINUX_PATH_MAX (fresh_process false)
             ("scene_based_lst"
                :: map render [Xml "a.xml"] ++ "--bogus" :: ["--verbose"])
             fresh_config
    = Some (Returned r)
    /\ unknown_option_failure "--bogus" r
    /\ xml_filename (cfg r)
       = xml_after LINUX_PATH_MAX [Xml "a.xml"] (xml_filename fresh_config).
Proof.
  apply (C4_unknown_option_reported LINUX_PATH_MAX (fresh_process false)
           "scene_based_lst" [Xml "a.xml"] "--bogus" ["--verbose"]
           fresh_config).
  - apply unused_fresh_process.
  - unfold MAX_STR_LEN. cbn [String.length]. lia.
  - left. exists "bogus". split; reflexivity.
Defined.

(** Two orders of [--xml=a.xml], [--verbose] and [--debug]. *)
Lemma C6_witness :
  exists r1 r2,
    get_args LINUX_PATH_MAX (fresh_process false)
             ("scene_based_lst"
                :: map render [Flag Debug; Xml "a.xml"; Flag Verbose])
             fresh_config
    = Some (Returned r1)
    /\ get_args LINUX_PATH_MAX (fresh_process false)
                ("scene_based_lst"
                   :: map render [Flag Verbose; Flag Debug; Xml "a.xml"])
                fresh_config
       = Some (Returned r2)
    /\ status r1 = status r2 /\ cfg r1 = cfg r2 /\ stdout r1 = stdout r2.
Proof.
  apply (C6_order_of_flags_is_immaterial LINUX_PATH_MAX (fresh_process false)
           "scene_based_lst" "a.xml" [Verbose; Debug]
           [Flag Debug; Xml "a.xml"; Flag Verbose]
           [Flag Verbose; Flag Debug; Xml "a.xml"] fresh_config).
  - apply unused_fresh_process.
  - cbn [map].
    apply (perm_trans (l' := [Xml "a.xml"; Flag Debug; Flag Verbose])).
    + apply perm_swap.
    + apply perm_skip, perm_swap.
  - cbn [map].
    apply (perm_trans (l' := [Flag Verbose; Xml "a.xml"; Flag Debug])).
    + apply perm_skip, perm_swap.
    + apply perm_swap.
Defined.

(** [--xml=a.xml --xml=b.xml]. *)
Lemma C7_witness :
  exists r,
    get_args LINUX_PATH_MAX (fresh_process false)
             ["scene_based_lst"; "--xml=a.xml"; "--xml=b.xml"] fresh_config
    = Some (Returned r)
    /\ status r = SUCCESS /\ xml_filename (cfg r) = "b.xml".
Proof.
  apply (proj2 (C7_last_occurrence_wins LINUX_PATH_MAX (fresh_process false)
                  "scene_based_lst" [Xml "a.xml"; Xml "b.xml"]
                  (unused_fresh_process false)
                  ltac:(unfold LINUX_PATH_MAX; lia))).
Defined.

(** [--xml=a.xml --verbose] prints the one line. *)
Lemma C8_witness :
  exists r,
    get_args LINUX_PATH_MAX (fresh_process false)
             ["scene_based_lst"; "--xml=a.xml"; "--verbose"] fresh_config
    = Some (Returned r)
    /\ status r = SUCCESS /\ verbose (cfg r) = true
    /\ stdout r = [echo_line "a.xml"].
Proof.
  eexists. split; [vm_compute; reflexivity|].
  split; [reflexivity|]. split; [reflexivity|].
  refine (proj1 (C8_verbose_echoes_path LINUX_PATH_MAX (fresh_process false)
                   ["scene_based_lst"; "--xml=a.xml"; "--verbose"]
                   fresh_config _ _) _ _).
  - vm_compute; reflexivity.
  - reflexivity.
  - reflexivity.
Defined.

(** [--bogus]: FAILURE, and the usage text is there. *)
Lemma C9_witness :
  exists r,
    get_args LINUX_PATH_MAX (fresh_process false)
             ["scene_based_lst"; "--bogus"] fresh_config
    = Some (Returned r)
    /\ status r = FAILURE
    /\ (usage_emitted (stdout r) <-> status r = FAILURE).
Proof.
  eexists. split; [vm_compute; reflexivity|].
  split; [reflexivity|].
  refine (proj1 (proj2 (proj2 (C9_usage_iff_failure LINUX_PATH_MAX
                                 (fresh_process false)
                                 ["scene_based_lst"; "--bogus"]
                                 fresh_config)) _ _)).
  vm_compute; reflexivity.
Defined.

(** A failing run leaves the caller's booleans alone. *)
Lemma C10_witness :
  exists r,
    get_args LINUX_PATH_MAX (fresh_process false)
             ["scene_based_lst"; "--debug"; "--bogus"]
             (mkConfig "" true true false)
    = Some (Returned r)
    /\ status r = FAILURE
    /\ use_tape6 (cfg r) = true /\ verbose (cfg r) = true
    /\ debug (cfg r) = false.
Proof.
  eexists. split; [vm_compute; reflexivity|].
  split; [reflexivity|].
  refine (proj1 (C10_booleans_written_on_success_only LINUX_PATH_MAX
                   (fresh_process false)
                   ["scene_based_lst"; "--debug"; "--bogus"]
                   (mkConfig "" true true false) _ _) _).
  - vm_compute; reflexivity.
  - reflexivity.
Defined.

(** Inside one process a second call is not a fresh start.  The same
    argv parsed twice, each time against a fresh configuration: the first
    call returns SUCCESS with the path and verbose set, the second finds
    the scanner at the end of argv, scans nothing and fails on the empty
    path buffer. *)
Lemma C5_counterexample_second_parse :
  exists r1 r2,
    get_args LINUX_PATH_MAX (fresh_process false)
             ["scene_based_lst"; "--xml=a.xml"; "--verbose"] fresh_config
    = Some (Returned r1)
    /\ argv_after r1 = ["scene_based_lst"; "--xml=a.xml"; "--verbose"]
    /\ get_args LINUX_PATH_MAX (process_after r1)
                ["scene_based_lst"; "--xml=a.xml"; "--verbose"] fresh_config
       = Some (Returned r2)
    /\ status r1 = SUCCESS
    /\ cfg r1 = mkConfig "a.xml" false true false
    /\ status r2 = FAILURE
    /\ cfg r2 = fresh_config
    /\ cfg r1 <> cfg r2.
Proof.
  do 2 eexists. split; [vm_compute; reflexivity|].
  split; [reflexivity|]. split; [vm_compute; reflexivity|].
  repeat split. discriminate.
Qed.

(** Unambiguous abbreviations of the option names are taken as the
    options themselves, and the value of [--xml] may come as the next
    element. *)
Lemma abbreviations_are_accepted :
  exists r,
    get_args LINUX_PATH_MAX (fresh_process false)
             ["scene_based_lst"; "--x"; "a.xml"; "--verb"; "--u"]
             fresh_config
    = Some (Returned r)
    /\ status r = SUCCESS
    /\ cfg r = mkConfig "a.xml" true true false.
Proof.
  eexists. split; [vm_compute; reflexivity|]. split; reflexivity.
Qed.

(** A cluster of short options is reported under the name of the element
    before it, here the program itself. *)
Lemma short_cluster_reported_as_previous_element :
  exists r,
    get_args LINUX_PATH_MAX (fresh_process false)
             ["scene_based_lst"; "-ab"] fresh_config
    = Some (Returned r)
    /\ unknown_option_failure "scene_based_lst" r.
Proof.
  eexists. split; [vm_compute; reflexivity|]. split; reflexivity.
Qed.

(** An unknown option of 497 characters or more does not fit the message
    buffer. *)
Lemma long_unknown_option_overflows :
  get_args LINUX_PATH_MAX (fresh_process false)
           ["scene_based_lst"; ("--" ++ filler 495)%string] fresh_config
  = Some Undefined.
Proof.
  vm_compute; reflexivity.
Qed.

(** ** Composing turns of the loop *)

Section Reaching.

Variable PATH_MAX : nat.

Lemma scan_fuel_mono n : forall s x m,
  scan PATH_MAX n s = Some x -> n <= m -> scan PATH_MAX m s = Some x.
Proof.
  induction n as [|n IH]; intros s x m H Hle; [discriminate|].
  destruct m as [|m]; [lia|]. cbn [scan] in *.
  destruct (scan_step PATH_MAX s) as [s'|e]; [|exact H].
  apply IH; [exact H|lia].
Qed.

(** Any amount of fuel that lets the loop finish tells what get_args
    does. *)
Lemma get_args_scan p argv c n e s :
  scan PATH_MAX n (mkScan argv p None (xml_filename c)) = Some (e, s) ->
  get_args PATH_MAX p argv c = Some (validate c e s).
Proof.
  intros H. unfold get_args.
  destruct (scan PATH_MAX (S (turns argv (scanner p)))
                 (mkScan argv p None (xml_filename c)))
    as [(e2, s2)|] eqn:E.
  - apply (scan_fuel_mono _ _ _ (n + S (turns argv (scanner p)))) in H;
      [|lia].
    apply (scan_fuel_mono _ _ _ (n + S (turns argv (scanner p)))) in E;
      [|lia].
    congruence.
  - exfalso. revert E. apply scan_terminates. cbn. lia.
Qed.

Lemma reaches_refl s : reaches PATH_MAX s s.
Proof. exists 0. reflexivity. Qed.

Lemma reaches_trans s1 s2 s3 :
  reaches PATH_MAX s1 s2 -> reaches PATH_MAX s2 s3 -> reaches PATH_MAX s1 s3.
Proof.
  intros (n & Hn) (m & Hm). exists (n + m). intros fuel.
  rewrite <- Nat.add_assoc, Hn, Hm. reflexivity.
Qed.

Lemma reaches_step s s' :
  scan_step PATH_MAX s = inl s' -> reaches PATH_MAX s s'.
Proof.
  intros H. exists 1. intros fuel. cbn [Nat.add scan]. rewrite H. reflexivity.
Qed.

Lemma reaches_exit s s' x :
  reaches PATH_MAX s s' -> scan_step PATH_MAX s' = inr x ->
  exists n, scan PATH_MAX n s = Some x.
Proof.
  intros (n & Hn) H. exists (n + 1). rewrite Hn. cbn [scan]. rewrite H.
  reflexivity.
Qed.

(** The first turn in an unused process is the first turn of a scanner
    that is set up. *)
Lemma reaches_exit_unused p argv oi xml s' x :
  argv <> [] ->
  unused p ->
  reaches PATH_MAX (mkScan argv (mkProcess (started (posixly_correct p))
                                           (mkStatics 0 0 0)
                                           (posixly_correct p)) oi xml) s' ->
  scan_step PATH_MAX s' = inr x ->
  exists n, scan PATH_MAX n (mkScan argv p oi xml) = Some x.
Proof.
  intros Hne (Hk & Hi & Hf) Hr Hx.
  destruct (reaches_exit _ _ _ Hr Hx) as (n & Hn).
  exists (S n).
  rewrite scan_unused by assumption. rewrite Hf.
  apply (scan_fuel_mono _ _ _ _ Hn). lia.
Qed.

End Reaching.

(** ** Shortened names and detached values *)

Lemma abbreviates_cases nm : forall name,
  abbreviates nm name -> In nm (prefixes name).
Proof.
  induction nm as [|a nm IH]; intros name (Hne & Hp); [congruence|].
  destruct name as [|c name]; [discriminate|].
  cbn in Hp. destruct (ascii_dec a c) as [->|]; [|discriminate].
  cbn [prefixes]. destruct nm as [|b nm]; [left; reflexivity|].
  right. apply in_map, IH. split; [discriminate|exact Hp].
Qed.

Lemma nth_error_after (A : Type) (pre rest : list A) (x y : A) :
  nth_error (pre ++ x :: y :: rest) (S (length pre)) = Some y.
Proof.
  induction pre; simpl; auto.
Qed.

Section Spellings.

Variable PATH_MAX : nat.

(** One turn on a token [tok] that is known character by character. *)
Ltac turn_on posix Hr Hnth :=
  let d1 := fresh "d1" in
  let Hr1 := fresh "Hr1" in
  let Ha1 := fresh "Ha1" in
  let Hg := fresh "Hg" in
  destruct (getopt_long_ready _ flag_var_eqb posix _ long_options _ _ _
              Hr Hnth eq_refl) as (d1 & Hr1 & Ha1 & Hg); [discriminate|];
  destruct Hr1 as (? & ? & ? & ? & ?);
  unfold scan_step;
  cbn [sc_process sc_argv sc_option_index sc_xml scanner flags
       posixly_correct];
  rewrite Hg;
  destruct d1 as [oi1 oa1 nc1 fn1 ln1 ord1 ini1]; fields; subst;
  cbn; do 2 eexists; (split; [|reflexivity]);
  unfold ready; fields; auto.

Lemma scan_step_flag_as argv d k fl posix oi xml nm f :
  ready d k ->
  abbreviates nm (flag_name f) ->
  nth_error argv k = Some ("--" ++ nm)%string ->
  exists d' oi',
    ready d' (S k)
    /\ scan_step PATH_MAX (mkScan argv (mkProcess d fl posix) oi xml)
       = inl (mkScan argv (mkProcess d' (flags_after [Flag f] fl) posix) oi'
                     xml).
Proof.
  intros Hr Hab Hnth. apply abbreviates_cases in Hab.
  destruct f; cbn [flag_name prefixes map] in Hab;
    repeat (destruct Hab as [<-|Hab]; [turn_on posix Hr Hnth|]);
    destruct Hab.
Qed.

Lemma scan_step_xml_as argv d k fl posix oi xml nm v :
  ready d k ->
  abbreviates nm "xml" ->
  nth_error argv k = Some ("--" ++ nm ++ "=" ++ v)%string ->
  exists d' oi',
    ready d' (S k)
    /\ scan_step PATH_MAX (mkScan argv (mkProcess d fl posix) oi xml)
       = inl (mkScan argv (mkProcess d' fl posix) oi'
                     (snprintf_s PATH_MAX xml (Some v))).
Proof.
  intros Hr Hab Hnth. apply abbreviates_cases in Hab.
  cbn [prefixes map] in Hab;
    repeat (destruct Hab as [<-|Hab]; [turn_on posix Hr Hnth|]);
    destruct Hab.
Qed.

Lemma scan_step_xml_then argv d k fl posix oi xml nm v :
  ready d k ->
  abbreviates nm "xml" ->
  nth_error argv k = Some ("--" ++ nm)%string ->
  nth_error argv (S k) = Some v ->
  exists d' oi',
    ready d' (S (S k))
    /\ scan_step PATH_MAX (mkScan argv (mkProcess d fl posix) oi xml)
       = inl (mkScan argv (mkProcess d' fl posix) oi'
                     (snprintf_s PATH_MAX xml (Some v))).
Proof.
  intros Hr Hab Hnth Hnext. apply abbreviates_cases in Hab.
  assert (Hstep : forall tok,
             In tok ["--x"; "--xm"; "--xml"] ->
             nth_error argv k = Some tok ->
             exists d' oi',
               ready d' (S (S k))
               /\ scan_step PATH_MAX
                    (mkScan argv (mkProcess d fl posix) oi xml)
                  = inl (mkScan argv (mkProcess d' fl posix) oi'
                                (snprintf_s PATH_MAX xml (Some v)))).
  { intros tok Hin Htok.
    assert (Hopt : nonoption tok = false /\ tok <> "--")
      by (cbn in Hin; intuition (subst; try reflexivity; discriminate)).
    destruct Hopt as (Hopt & Hdd).
    destruct (getopt_long_ready _ flag_var_eqb posix argv long_options d k
                _ Hr Htok Hopt Hdd) as (d1 & Hr1 & Ha1 & Hg).
    destruct Hr1 as (? & ? & Hk & ? & ?).
    unfold scan_step.
    cbn [sc_process sc_argv sc_option_index sc_xml scanner flags
         posixly_correct].
    rewrite Hg.
    destruct argv as [|a argv]; [destruct k; discriminate|].
    destruct d1 as [oi1 oa1 nc1 fn1 ln1 ord1 ini1]; fields; subst.
    cbn in Hnext.
    cbn in Hin; destruct Hin as [<-|[<-|[<-|[]]]]; cbn; rewrite Hnext;
      cbn; do 2 eexists; (split; [|reflexivity]);
      unfold ready; fields; auto. }
  cbn [prefixes map] in Hab.
  destruct Hab as [<-|[<-|[<-|[]]]];
    (eapply Hstep; [|exact Hnth]); cbn; auto.
Qed.

(** One turn of the loop on an option, however it is spelt. *)
Lemma scan_step_word pre rest d fl posix oi xml w :
  ready d (length pre) ->
  well_spelt w ->
  exists d' oi',
    ready d' (length pre + length (spell w))
    /\ scan_step PATH_MAX
         (mkScan (pre ++ spell w ++ rest) (mkProcess d fl posix) oi xml)
       = inl (mkScan (pre ++ spell w ++ rest)
                     (mkProcess d' (flags_after [meaning w] fl) posix) oi'
                     (xml_after PATH_MAX [meaning w] xml)).
Proof.
  intros Hr Hw.
  destruct w as [t|nm f|nm v|nm v]; cbn [spell app length meaning];
    rewrite ?Nat.add_1_r.
  - apply scan_step_token; [exact Hr|apply nth_error_middle].
  - apply (scan_step_flag_as _ _ _ _ _ _ _ nm);
      [exact Hr|exact Hw|apply nth_error_middle].
  - apply (scan_step_xml_as _ _ _ _ _ _ _ nm);
      [exact Hr|exact Hw|apply nth_error_middle].
  - replace (length pre + 2) with (S (S (length pre))) by lia.
    apply (scan_step_xml_then _ _ _ _ _ _ _ nm);
      [exact Hr|exact Hw|apply nth_error_middle|apply nth_error_after].
Qed.

(** The loop takes in a run of options, however they are spelt, and is
    then where it would be after the tokens they stand for. *)
Lemma reaches_words ws : forall pre rest d fl posix oi xml,
  ready d (length pre) ->
  Forall well_spelt ws ->
  exists d' oi',
    ready d' (length pre + length (spell_all ws))
    /\ reaches PATH_MAX
         (mkScan (pre ++ spell_all ws ++ rest) (mkProcess d fl posix) oi xml)
         (mkScan (pre ++ spell_all ws ++ rest)
                 (mkProcess d' (flags_after (map meaning ws) fl) posix) oi'
                 (xml_after PATH_MAX (map meaning ws) xml)).
Proof.
  induction ws as [|w ws IH]; intros pre rest d fl posix oi xml Hr Hws.
  - exists d, oi. rewrite Nat.add_0_r. split; [exact Hr|apply reaches_refl].
  - inversion Hws as [|? ? Hw Hws']; subst.
    unfold spell_all. cbn [map concat]. fold (spell_all ws).
    rewrite <- app_assoc.
    destruct (scan_step_word pre (spell_all ws ++ rest) d fl posix oi xml w
                Hr Hw) as (d1 & oi1 & Hr1 & Hstep).
    rewrite <- length_app in Hr1.
    destruct (IH (pre ++ spell w) rest d1 (flags_after [meaning w] fl) posix
                 oi1 (xml_after PATH_MAX [meaning w] xml) Hr1 Hws')
      as (d2 & oi2 & Hr2 & Hreach).
    exists d2, oi2. split.
    + rewrite !length_app in *. rewrite Nat.add_assoc. exact Hr2.
    + eapply reaches_trans; [apply reaches_step, Hstep|].
      rewrite <- !app_assoc in Hreach. exact Hreach.
Qed.

End Spellings.

(** ** What holds of every call *)

Section EveryCall.

Variable PATH_MAX : nat.

(** A relation between states that holds across every turn holds across
    the loop. *)
Lemma scan_invariant (R : scan_state -> scan_state -> Prop) :
  (forall s, R s s) ->
  (forall a b c, R a b -> R b c -> R a c) ->
  (forall s s', scan_step PATH_MAX s = inl s' -> R s s') ->
  (forall s e s', scan_step PATH_MAX s = inr (e, s') -> R s s') ->
  forall n s e s', scan PATH_MAX n s = Some (e, s') -> R s s'.
Proof.
  intros Hrefl Htrans Hinl Hinr.
  induction n as [|n IH]; intros s e s' H; [discriminate|].
  cbn [scan] in H.
  destruct (scan_step PATH_MAX s) as [s1|(e1, s1)] eqn:E.
  - apply (Htrans _ s1); [apply Hinl, E|apply (IH _ _ _ H)].
  - injection H as <- <-. apply (Hinr _ _ _ E).
Qed.

Lemma get_args_scanned p argv c o :
  get_args PATH_MAX p argv c = Some o ->
  exists n e s,
    scan PATH_MAX n (mkScan argv p None (xml_filename c)) = Some (e, s)
    /\ o = validate c e s.
Proof.
  unfold get_args.
  destruct (scan _ _ _) as [(e, s)|] eqn:E; [|discriminate].
  intros H; injection H as <-. eauto 10.
Qed.

Lemma validate_returned c e s r :
  validate c e s = Returned r ->
  argv_after r = sc_argv s /\ process_after r = sc_process s
  /\ xml_filename (cfg r) = sc_xml s.
Proof.
  destruct e; cbn [validate]; try discriminate;
    try (destruct (String.length (sc_xml s) <=? 0));
    intros H; injection H as <-; cbn; auto.
Qed.

(** What one turn does to the state, read off [scan_step]: the statics
    take at most the write the scanner asks for, and the path buffer at
    most one [snprintf]. *)
Lemma scan_step_effect s :
  let r := getopt_long flag_var_eqb (posixly_correct (sc_process s))
                       (sc_argv s) long_options (scanner (sc_process s)) in
  forall s', (scan_step PATH_MAX s = inl s'
              \/ exists e, scan_step PATH_MAX s = inr (e, s')) ->
  sc_argv s' = r_argv r
  /\ flags (sc_process s')
     = match r_flag r with
       | Some (f, v) => store_flag f v (flags (sc_process s))
       | None => flags (sc_process s)
       end
  /\ (sc_xml s' = sc_xml s
      \/ exists a, sc_xml s' = snprintf_s PATH_MAX (sc_xml s) a).
Proof.
  cbv zeta. intros s'. unfold scan_step. cbv zeta.
  set (r := getopt_long _ _ _ _ _).
  intros [H|(e & H)]; revert H;
    repeat match goal with
           | |- context [match ?x with _ => _ end] => destruct x
           end;
    intros H; try discriminate; injection H; intros; subst;
    cbn [sc_argv sc_process sc_xml flags]; eauto 10.
Qed.

End EveryCall.

Section ScannerWrites.

Variable F : Type.
Variable F_eqb : F -> F -> bool.

Lemma end_of_options_ret argv d :
  exists argv' d',
    end_of_options F argv d = mkRet (-1) None None argv' d'
    /\ Permutation argv argv'.
Proof.
  unfold end_of_options, exchange, finish.
  repeat match goal with
         | |- context [if ?x then _ else _] => destruct x
         end;
    do 2 eexists; (split; [reflexivity|]);
    auto using exchange_argv_permutation, Permutation_refl.
Qed.

Lemma permute_permutation argv d :
  Permutation argv (fst (permute argv d)).
Proof.
  unfold permute, exchange.
  repeat match goal with
         | |- context [if ?x then _ else _] => destruct x
         end;
    cbn [fst]; auto using exchange_argv_permutation, Permutation_refl.
Qed.

(** A write through a [flag] pointer is the write some entry of the
    table asks for. *)
Lemma process_long_option_flag argv (lo : list (option_t F)) body d f v :
  r_flag (process_long_option F_eqb argv lo body d) = Some (f, v) ->
  exists i p, nth_error lo i = Some p /\ flag p = Some f /\ val p = v.
Proof.
  unfold process_long_option.
  destruct (split_name body) as (nm, value).
  assert (Hlook :
    forall i p,
      match find_exact nm lo 0 with
      | Some (i, p) => Unique i p
      | None => find_abbrev F_eqb nm lo 0 None false
      end = Unique i p -> nth_error lo i = Some p).
  { intros i p. destruct (find_exact nm lo 0) as [(j, q)|] eqn:E.
    - intros H; injection H as <- <-.
      destruct (find_exact_index _ _ _ _ _ _ E) as (_ & Hn).
      rewrite Nat.sub_0_r in Hn. exact Hn.
    - intros H. destruct (find_abbrev_index _ _ _ _ _ _ _ _ _ H)
        as [H'|(_ & Hn)]; [discriminate|].
      rewrite Nat.sub_0_r in Hn. exact Hn. }
  destruct (match find_exact nm lo 0 with
            | Some (i, p) => Unique i p
            | None => find_abbrev F_eqb nm lo 0 None false
            end) as [|i p|] eqn:E; cbv zeta; try (cbn; discriminate).
  specialize (Hlook i p eq_refl).
  destruct value, (has_arg p), (flag p) eqn:Ef;
    try (destruct (nth_error argv (optind (set_optind (S (optind d)) d))));
    cbn [r_flag]; try discriminate;
    intros H; injection H as <- <-; eauto.
Qed.

Lemma next_element_flag argv (lo : list (option_t F)) d f v :
  r_flag (next_element F_eqb argv lo d) = Some (f, v) ->
  exists i p, nth_error lo i = Some p /\ flag p = Some f /\ val p = v.
Proof.
  unfold next_element.
  destruct (nth_error argv (optind d)) as [tok|]; [|cbn; discriminate].
  destruct (String.eqb tok "--").
  - destruct (end_of_options_ret argv d) as (a & d' & -> & _).
    cbn; discriminate.
  - destruct (nonoption tok).
    + destruct (ordering d); cbn; discriminate.
    + unfold scan_element.
      destruct tok as [|a [|b body]]; try (cbn; discriminate).
      destruct b as [[] [] [] [] [] [] [] []];
        try (unfold short_option; destruct body; cbn; discriminate).
      apply process_long_option_flag.
Qed.

Lemma getopt_long_flag posix argv (lo : list (option_t F)) d f v :
  r_flag (getopt_long F_eqb posix argv lo d) = Some (f, v) ->
  exists i p, nth_error lo i = Some p /\ flag p = Some f /\ val p = v.
Proof.
  unfold getopt_long.
  destruct argv as [|a argv]; [cbn; discriminate|].
  match goal with
  | |- context [match nextchar ?x with _ => _ end] =>
      destruct (nextchar x) as [|c [|c' rest]]
  end; try (cbn; discriminate).
  unfold advance.
  match goal with
  | |- context [let '(_, _) := ?x in _] => destruct x as (argv2, d2)
  end.
  apply next_element_flag.
Qed.

(** A call of the scanner may reorder argv, and does nothing else to
    it. *)
Lemma getopt_long_permutation posix argv (lo : list (option_t F)) d :
  Permutation argv (r_argv (getopt_long F_eqb posix argv lo d)).
Proof.
  unfold getopt_long.
  destruct argv as [|a argv]; [apply Permutation_refl|].
  set (av := a :: argv).
  match goal with
  | |- context [match nextchar ?x with _ => _ end] =>
      set (d0 := x); destruct (nextchar d0) as [|c rest]
  end.
  - unfold advance.
    assert (HP : exists argv2 d2,
               match ordering d0 with
               | PERMUTE => permute av (clamp d0)
               | REQUIRE_ORDER => (av, clamp d0)
               end = (argv2, d2) /\ Permutation av argv2).
    { destruct (ordering d0).
      - do 2 eexists. split; [reflexivity|apply Permutation_refl].
      - pose proof (permute_permutation av (clamp d0)) as HP.
        destruct (permute av (clamp d0)) as (argv2, d2). eauto. }
    destruct HP as (argv2 & d2 & -> & HP).
    apply (Permutation_trans HP).
    unfold next_element.
    destruct (nth_error argv2 (optind d2)) as [tok|];
      [|apply Permutation_refl].
    destruct (String.eqb tok "--").
    + destruct (end_of_options_ret argv2 d2) as (a' & d' & -> & HP').
      exact HP'.
    + destruct (nonoption tok).
      * destruct (ordering d2); apply Permutation_refl.
      * unfold scan_element.
        destruct tok as [|x [|b body]]; try apply Permutation_refl.
        destruct b as [[] [] [] [] [] [] [] []];
          try (unfold short_option; destruct body; apply Permutation_refl).
        pose proof (process_long_option_keeps _ F_eqb argv2 lo body d2) as H.
        cbv zeta in H. destruct H as (-> & _). apply Permutation_refl.
  - unfold short_option. destruct rest; apply Permutation_refl.
Qed.

End ScannerWrites.

Lemma long_options_flag_val i p f :
  nth_error long_options i = Some p -> flag p = Some f -> val p = 1%Z.
Proof.
  do 5 (destruct i as [|i]; [cbn; intros H; injection H as <-;
                              cbn; intros; congruence|]).
  destruct i; discriminate.
Qed.

Lemma kept_or_set_refl s : kept_or_set s s.
Proof. unfold kept_or_set; auto. Qed.

Lemma kept_or_set_trans a b c :
  kept_or_set a b -> kept_or_set b c -> kept_or_set a c.
Proof.
  unfold kept_or_set. intros (H1 & H2 & H3) (K1 & K2 & K3).
  repeat split;
    match goal with
    | H : ?x = ?y \/ _, K : ?z = ?x \/ _ |- ?z = ?y \/ _ =>
        destruct H as [H|H], K as [K|K]; rewrite ?K, ?H; auto
    end.
Qed.

Lemma kept_or_set_store f s : kept_or_set s (store_flag f 1 s).
Proof.
  destruct f; unfold kept_or_set; cbn; auto.
Qed.

Lemma truncate_length n : forall s, String.length (truncate n s) <= n.
Proof.
  induction n as [|n IH]; intros [|a s]; cbn; try lia.
  specialize (IH s). lia.
Qed.

Lemma snprintf_s_length n buf a :
  snprintf_s n buf a = buf \/ String.length (snprintf_s n buf a) <= n - 1.
Proof.
  destruct n as [|n]; [left; reflexivity|right].
  cbn [snprintf_s]. rewrite Nat.sub_1_r. cbn [Nat.pred].
  apply truncate_length.
Qed.

Section EveryCallKeeps.

Variable PATH_MAX : nat.

Lemma scan_keeps_statics n s e s' :
  scan PATH_MAX n s = Some (e, s') ->
  kept_or_set (flags (sc_process s)) (flags (sc_process s')).
Proof.
  apply (scan_invariant PATH_MAX
           (fun a b => kept_or_set (flags (sc_process a))
                                   (flags (sc_process b)))).
  - intros a. apply kept_or_set_refl.
  - intros a b c. apply kept_or_set_trans.
  - intros a b H.
    destruct (scan_step_effect PATH_MAX a b (or_introl H)) as (_ & Hf & _).
    rewrite Hf.
    destruct (r_flag _) as [(f, v)|] eqn:E; [|apply kept_or_set_refl].
    destruct (getopt_long_flag _ _ _ _ _ _ _ _ E) as (i & p & Hn & Hp & Hv).
    rewrite <- Hv, (long_options_flag_val _ _ _ Hn Hp).
    apply kept_or_set_store.
  - intros a e0 b H.
    destruct (scan_step_effect PATH_MAX a b (or_intror (ex_intro _ e0 H)))
      as (_ & Hf & _).
    rewrite Hf.
    destruct (r_flag _) as [(f, v)|] eqn:E; [|apply kept_or_set_refl].
    destruct (getopt_long_flag _ _ _ _ _ _ _ _ E) as (i & p & Hn & Hp & Hv).
    rewrite <- Hv, (long_options_flag_val _ _ _ Hn Hp).
    apply kept_or_set_store.
Qed.

Lemma scan_keeps_argv n s e s' :
  scan PATH_MAX n s = Some (e, s') ->
  Permutation (sc_argv s) (sc_argv s').
Proof.
  apply (scan_invariant PATH_MAX
           (fun a b => Permutation (sc_argv a) (sc_argv b))).
  - intros a. apply Permutation_refl.
  - intros a b c. apply Permutation_trans.
  - intros a b H.
    destruct (scan_step_effect PATH_MAX a b (or_introl H)) as (-> & _).
    apply getopt_long_permutation.
  - intros a e0 b H.
    destruct (scan_step_effect PATH_MAX a b (or_intror (ex_intro _ e0 H)))
      as (-> & _).
    apply getopt_long_permutation.
Qed.

Lemma scan_bounds_path n s e s' :
  scan PATH_MAX n s = Some (e, s') ->
  sc_xml s' = sc_xml s \/ String.length (sc_xml s') <= PATH_MAX - 1.
Proof.
  apply (scan_invariant PATH_MAX
           (fun a b => sc_xml b = sc_xml a
                       \/ String.length (sc_xml b) <= PATH_MAX - 1)).
  - auto.
  - intros a b c [H1|H1] [H2|H2]; rewrite ?H2, ?H1; auto.
  - intros a b H.
    destruct (scan_step_effect PATH_MAX a b (or_introl H))
      as (_ & _ & [Hx|(x & Hx)]); rewrite Hx; [auto|].
    apply snprintf_s_length.
  - intros a e0 b H.
    destruct (scan_step_effect PATH_MAX a b (or_intror (ex_intro _ e0 H)))
      as (_ & _ & [Hx|(x & Hx)]); rewrite Hx; [auto|].
    apply snprintf_s_length.
Qed.

(** X5: the statics only ever go up.  Across any call each of the three
    is what it was before or has been set to 1, so a flag that was set
    when the call began is reported as true by a successful call even if
    its token is not on the command line. *)
Theorem X5_statics_are_never_cleared p argv c r :
  get_args PATH_MAX p argv c = Some (Returned r) ->
  kept_or_set (flags p) (flags (process_after r))
  /\ (status r = SUCCESS ->
      (verbose_flag_v (flags p) <> 0%Z -> verbose (cfg r) = true)
      /\ (debug_flag_v (flags p) <> 0%Z -> debug (cfg r) = true)
      /\ (use_tape6_flag_v (flags p) <> 0%Z -> use_tape6 (cfg r) = true)).
Proof.
  intros H.
  destruct (get_args_scanned _ _ _ _ _ H) as (n & e & s & Hscan & Hv).
  symmetry in Hv.
  destruct (validate_returned _ _ _ _ Hv) as (_ & Hp & _).
  pose proof (scan_keeps_statics _ _ _ _ Hscan) as Hk.
  cbn [sc_process] in Hk. rewrite <- Hp in Hk.
  split; [exact Hk|]. intros Hs.
  destruct (get_args_returned _ _ _ _ _ H)
    as [(Hf & _)|(_ & _ & _ & Ht & Hvb & Hd)];
    [rewrite Hs in Hf; discriminate|].
  destruct Hk as (K1 & K2 & K3).
  rewrite Ht, Hvb, Hd.
  repeat split; intros Hne; apply negb_true_iff, Z.eqb_neq;
    [destruct K1 as [K|K]|destruct K2 as [K|K]|destruct K3 as [K|K]];
    rewrite K; (assumption || discriminate).
Qed.

End EveryCallKeeps.

Section EveryCallBounds.

Variable PATH_MAX : nat.

(** X6: whatever the length of the value given to [--xml], the path
    buffer is either left as the caller passed it or holds at most
    [PATH_MAX - 1] characters when get_args returns. *)
Theorem X6_path_is_kept_or_bounded p argv c r :
  get_args PATH_MAX p argv c = Some (Returned r) ->
  xml_filename (cfg r) = xml_filename c
  \/ String.length (xml_filename (cfg r)) <= PATH_MAX - 1.
Proof.
  intros H.
  destruct (get_args_scanned _ _ _ _ _ H) as (n & e & s & Hscan & Hv).
  symmetry in Hv.
  assert (Hv' : validate c e s = Returned r) by congruence.
  destruct (validate_returned _ _ _ _ Hv') as (_ & _ & ->).
  apply (scan_bounds_path _ _ _ _ _ Hscan).
Qed.

(** X8: get_args may leave argv in another order (the scanner moves
    operands behind the options), but what it leaves is a rearrangement
    of what it was given: no element is dropped, added or changed. *)
Theorem X8_argv_is_only_rearranged p argv c r :
  get_args PATH_MAX p argv c = Some (Returned r) ->
  Permutation argv (argv_after r).
Proof.
  intros H.
  destruct (get_args_scanned _ _ _ _ _ H) as (n & e & s & Hscan & Hv).
  assert (Hv' : validate c e s = Returned r) by congruence.
  destruct (validate_returned _ _ _ _ Hv') as (-> & _).
  apply (scan_keeps_argv _ _ _ _ _ Hscan).
Qed.

End EveryCallBounds.

(** X18: the enumerators of [LST_RESULTS] that name the elements of a
    point result record take the values 0 to 5, each once, and
    [LST_NUM_ELEMENTS] takes the value 6, the number of those elements:
    an array of [LST_NUM_ELEMENTS] entries has a place for every element
    and no two elements share a place. *)
Theorem X18_record_elements_index_the_record :
  LST_RESULTS_value LST_NUM_ELEMENTS = 6%Z
  /\ (forall e, e <> LST_NUM_ELEMENTS ->
                (0 <= LST_RESULTS_value e
                 < LST_RESULTS_value LST_NUM_ELEMENTS)%Z)
  /\ (forall a b, LST_RESULTS_value a = LST_RESULTS_value b -> a = b)
  /\ (forall i, (0 <= i < LST_RESULTS_value LST_NUM_ELEMENTS)%Z ->
                exists e, e <> LST_NUM_ELEMENTS /\ LST_RESULTS_value e = i).
Proof.
  split; [reflexivity|]. split; [|split].
  - intros [] H; try congruence; vm_compute;
      (split; [discriminate|reflexivity]).
  - intros [] [] H; try reflexivity; vm_compute in H; discriminate.
  - change (LST_RESULTS_value LST_NUM_ELEMENTS) with 6%Z. intros i Hi.
    assert (Hc : (i = 0 \/ i = 1 \/ i = 2 \/ i = 3 \/ i = 4 \/ i = 5)%Z)
      by lia.
    destruct Hc as [->|[->|[->|[->|[->| ->]]]]];
      [exists LST_LATITUDE|exists LST_LONGITUDE|exists LST_HEIGHT
      |exists LST_TAU|exists LST_UPWELLED_RADIANCE
      |exists LST_DOWNWELLED_RADIANCE];
      (split; [discriminate|reflexivity]).
Qed.

(** ** Operands, the end of the options, and a second call *)

Lemma skipn_app_length (A : Type) (pre l : list A) :
  skipn (length pre) (pre ++ l) = l.
Proof.
  induction pre; simpl; auto.
Qed.

Lemma skip_nonoptions_all l : forall i,
  Forall (fun s => nonoption s = true) l ->
  skip_nonoptions l i = i + length l.
Proof.
  induction l as [|s l IH]; intros i H; cbn; [lia|].
  inversion H as [|? ? Hs Hl]; subst. rewrite Hs, IH by assumption. lia.
Qed.

Section ScannerAtRest.

Variable F : Type.
Variable F_eqb : F -> F -> bool.

Lemma getopt_long_advance posix argv (lo : list (option_t F)) d k :
  ready d k ->
  argv <> [] ->
  getopt_long F_eqb posix argv lo d
  = advance F_eqb argv lo (set_optarg None d)
  /\ ready (set_optarg None d) k.
Proof.
  intros (Hnc & Hini & Hk & Hfl & Hk0) Hne.
  split; [|unfold ready; fields; auto].
  unfold getopt_long. destruct argv as [|a argv]; [contradiction|].
  replace (optind (set_optarg None d)) with k by (fields; auto).
  replace (initialized (set_optarg None d)) with true by (fields; auto).
  replace (k =? 0) with false by (symmetry; apply Nat.eqb_neq; assumption).
  cbn [orb negb].
  replace (nextchar (set_optarg None d)) with EmptyString by (fields; auto).
  reflexivity.
Qed.

Lemma getopt_long_ready_next posix argv (lo : list (option_t F)) d k tok :
  ready d k ->
  nth_error argv k = Some tok ->
  nonoption tok = false ->
  exists d1,
    ready d1 k
    /\ getopt_long F_eqb posix argv lo d = next_element F_eqb argv lo d1.
Proof.
  intros Hr Hnth Hopt.
  assert (Hne : argv <> []) by (intros ->; destruct k; discriminate).
  destruct (getopt_long_advance posix argv lo d k Hr Hne) as (-> & Hr0).
  destruct (clamp_ready _ _ Hr0) as (Hr1 & _ & _).
  unfold advance.
  destruct (ordering (set_optarg None d)).
  - eauto.
  - destruct (permute_ready argv _ _ _ Hr1 Hnth Hopt) as (d1 & -> & Hr2 & _).
    eauto.
Qed.

(** [--]: the scan is over, whatever comes after. *)
Lemma getopt_long_terminator posix argv (lo : list (option_t F)) d k :
  ready d k ->
  nth_error argv k = Some "--" ->
  exists argv' d1,
    getopt_long F_eqb posix argv lo d = mkRet (-1) None None argv' d1.
Proof.
  intros Hr Hnth.
  destruct (getopt_long_ready_next posix argv lo d k _ Hr Hnth eq_refl)
    as (d1 & (_ & _ & Hk & _) & ->).
  unfold next_element. rewrite Hk, Hnth. cbn [String.eqb Ascii.eqb Bool.eqb].
  destruct (end_of_options_ret F argv d1) as (argv' & d' & -> & _).
  eauto.
Qed.

(** Nothing but operands left: the scan is over. *)
Lemma getopt_long_operands posix pre ops (lo : list (option_t F)) d :
  ready d (length pre) ->
  Forall (fun s => nonoption s = true) ops ->
  exists d1,
    getopt_long F_eqb posix (pre ++ ops) lo d
    = mkRet (-1) None None (pre ++ ops) d1.
Proof.
  intros Hr Hops.
  assert (Hne : pre ++ ops <> []).
  { destruct Hr as (_ & _ & _ & _ & Hk0). destruct pre; [contradiction|].
    discriminate. }
  destruct (getopt_long_advance posix _ lo d _ Hr Hne) as (-> & Hr0).
  destruct (clamp_ready _ _ Hr0) as (Hr1 & _ & Hord).
  unfold advance.
  set (dc := clamp (set_optarg None d)) in *.
  destruct (ordering (set_optarg None d)) eqn:Eord.
  - unfold next_element.
    destruct Hr1 as (_ & _ & Hk & Hfl & _). rewrite Hk.
    destruct ops as [|o ops].
    + rewrite app_nil_r.
      replace (nth_error pre (length pre)) with (@None string)
        by (symmetry; apply nth_error_None; lia).
      unfold finish. rewrite Hfl, Nat.eqb_refl. eauto.
    + rewrite nth_error_middle.
      inversion Hops as [|? ? Ho _]; subst.
      assert (Hdd : String.eqb o "--" = false).
      { apply String.eqb_neq. intros ->. discriminate. }
      rewrite Hdd, Ho, Hord. eauto.
  - destruct Hr1 as (Hnc & Hini & Hk & Hfl & Hk0).
    destruct dc as [oi oa nc fn ln ord ini]; fields; subst nc ini oi fn.
    unfold permute; fields.
    rewrite Nat.eqb_refl; cbn [negb andb].
    destruct (negb (ln =? length pre)); fields;
      rewrite skipn_app_length, (skip_nonoptions_all _ _ Hops);
      unfold next_element; fields;
      (replace (nth_error (pre ++ ops) (length pre + length ops))
         with (@None string)
         by (symmetry; apply nth_error_None; rewrite length_app; lia));
      unfold finish; eauto.
Qed.

(** Under POSIXLY_CORRECT the first operand ends the scan. *)
Lemma getopt_long_operand_posix posix argv (lo : list (option_t F)) d k op :
  ready d k ->
  ordering d = REQUIRE_ORDER ->
  nth_error argv k = Some op ->
  nonoption op = true ->
  exists d1,
    getopt_long F_eqb posix argv lo d = mkRet (-1) None None argv d1.
Proof.
  intros Hr Hord Hnth Hop.
  assert (Hne : argv <> []) by (intros ->; destruct k; discriminate).
  destruct (getopt_long_advance posix argv lo d k Hr Hne) as (-> & Hr0).
  destruct (clamp_ready _ _ Hr0) as ((_ & _ & Hk & _) & _ & Hord1).
  unfold advance.
  replace (ordering (set_optarg None d)) with REQUIRE_ORDER
    by (fields; auto).
  unfold next_element. rewrite Hk, Hnth.
  assert (Hdd : String.eqb op "--" = false).
  { apply String.eqb_neq. intros ->. discriminate. }
  rewrite Hdd, Hop, Hord1.
  replace (ordering (set_optarg None d)) with REQUIRE_ORDER
    by (fields; auto).
  eauto.
Qed.

End ScannerAtRest.

Section AtRest.

Variable PATH_MAX : nat.

(** When the scanner says the options are over, so does the loop, with
    the statics and the path buffer as they are. *)
Lemma scan_step_out argv d fl posix oi xml argv' d1 :
  getopt_long flag_var_eqb posix argv long_options d
  = mkRet (-1) None None argv' d1 ->
  scan_step PATH_MAX (mkScan argv (mkProcess d fl posix) oi xml)
  = inr (OutOfOptions, mkScan argv' (mkProcess d1 fl posix) oi xml).
Proof.
  intros Hg. unfold scan_step.
  cbn [sc_process sc_argv sc_option_index sc_xml scanner flags posixly_correct].
  rewrite Hg. reflexivity.
Qed.

(** A run whose loop stops right after the tokens [ts], whatever made it
    stop there, ends as the run on [ts] alone. *)
Lemma get_args_stops_after p prog ts rest c :
  unused p ->
  (forall d k oi fl xml,
      ready d k -> k = S (length ts) ->
      exists argv' d1,
        scan_step PATH_MAX
          (mkScan (prog :: map render ts ++ rest)
                  (mkProcess d fl (posixly_correct p)) oi xml)
        = inr (OutOfOptions,
               mkScan argv' (mkProcess d1 fl (posixly_correct p)) oi xml)) ->
  exists r1 r2,
    get_args PATH_MAX p (prog :: map render ts ++ rest) c = Some (Returned r1)
    /\ get_args PATH_MAX p (prog :: map render ts) c = Some (Returned r2)
    /\ same_outcome r1 r2.
Proof.
  intros Hu Hstop.
  destruct (get_args_prefix PATH_MAX p prog ts rest c Hu)
    as (d' & oi' & fuel & Hr & Hg).
  destruct (Hstop d' _ oi' (flags_after ts (mkStatics 0 0 0))
                  (xml_after PATH_MAX ts (xml_filename c)) Hr eq_refl)
    as (argv' & d1 & Hstep).
  cbn [scan] in Hg. rewrite Hstep in Hg.
  destruct (get_args_tokens PATH_MAX p prog ts c Hu) as (s2 & Hg2 & Hx2 & Hf2).
  destruct (validate_same c
              (mkScan argv' (mkProcess d1 (flags_after ts (mkStatics 0 0 0))
                                       (posixly_correct p)) oi'
                      (xml_after PATH_MAX ts (xml_filename c))) s2)
    as (r1 & r2 & V1 & V2 & Hs); [cbn; congruence|cbn; congruence|].
  exists r1, r2. rewrite Hg, Hg2, V1, V2. unfold same_outcome. auto.
Qed.

(** X1: operands after the options are passed over in silence: a command
    line of option tokens followed by any elements that do not start
    with ['-'] (or are ["-"] or empty) ends as it would without them. *)
Theorem X1_trailing_operands_are_ignored p prog ts ops c :
  unused p ->
  Forall (fun s => nonoption s = true) ops ->
  exists r1 r2,
    get_args PATH_MAX p (prog :: map render ts ++ ops) c = Some (Returned r1)
    /\ get_args PATH_MAX p (prog :: map render ts) c = Some (Returned r2)
    /\ same_outcome r1 r2.
Proof.
  intros Hu Hops. apply get_args_stops_after; [exact Hu|].
  intros d k oi fl xml Hr ->.
  assert (Hr' : ready d (length (prog :: map render ts)))
    by (cbn [length]; rewrite length_map; exact Hr).
  destruct (getopt_long_operands _ flag_var_eqb (posixly_correct p)
              (prog :: map render ts) ops long_options d Hr' Hops)
    as (d1 & Hg).
  exists (prog :: map render ts ++ ops), d1.
  apply scan_step_out. exact Hg.
Qed.

(** X2: everything after the element [--] is left unread, options
    included: a command line of option tokens, then [--], then anything
    at all ends as it would with the option tokens alone. *)
Theorem X2_nothing_is_read_after_the_terminator p prog ts rest c :
  unused p ->
  exists r1 r2,
    get_args PATH_MAX p (prog :: map render ts ++ "--" :: rest) c
    = Some (Returned r1)
    /\ get_args PATH_MAX p (prog :: map render ts) c = Some (Returned r2)
    /\ same_outcome r1 r2.
Proof.
  intros Hu. apply get_args_stops_after; [exact Hu|].
  intros d k oi fl xml Hr ->.
  destruct (getopt_long_terminator _ flag_var_eqb (posixly_correct p)
              (prog :: map render ts ++ "--" :: rest) long_options d
              (S (length ts)) Hr) as (argv' & d1 & Hg).
  { rewrite <- (length_map render ts).
    apply (nth_error_middle _ (prog :: map render ts)). }
  exists argv', d1. apply scan_step_out. exact Hg.
Qed.

End AtRest.

Section FurtherRuns.

Variable PATH_MAX : nat.

(** A run from an unused process, followed up to the turn that leaves
    the loop. *)
Lemma get_args_from_start p argv c s' e s :
  argv <> [] ->
  unused p ->
  reaches PATH_MAX
          (mkScan argv (mkProcess (started (posixly_correct p))
                                  (mkStatics 0 0 0) (posixly_correct p))
                  None (xml_filename c)) s' ->
  scan_step PATH_MAX s' = inr (e, s) ->
  get_args PATH_MAX p argv c = Some (validate c e s).
Proof.
  intros Hne Hu Hr Hx.
  destruct (reaches_exit_unused PATH_MAX p argv None (xml_filename c) s'
              (e, s) Hne Hu Hr Hx) as (n & Hn).
  apply (get_args_scan PATH_MAX p argv c n e s Hn).
Qed.

(** X9: with POSIXLY_CORRECT in the environment the scan stops at the
    first operand, so a command line that starts with an operand ends
    as the empty command line does, whatever options follow; on an empty
    path buffer that is the missing-argument failure. *)
Theorem X9_posixly_correct_stops_at_the_first_operand p prog op rest c :
  unused p ->
  posixly_correct p = true ->
  nonoption op = true ->
  exists r1 r2,
    get_args PATH_MAX p (prog :: op :: rest) c = Some (Returned r1)
    /\ get_args PATH_MAX p [prog] c = Some (Returned r2)
    /\ same_outcome r1 r2
    /\ (xml_filename c = "" -> missing_argument_failure r1).
Proof.
  intros Hu Hposix Hop.
  destruct (getopt_long_operand_posix _ flag_var_eqb true
              (prog :: op :: rest) long_options (started true) 1 op
              (started_ready true) eq_refl eq_refl Hop) as (d1 & Hg).
  assert (H1 : get_args PATH_MAX p (prog :: op :: rest) c
               = Some (validate c OutOfOptions
                         (mkScan (prog :: op :: rest)
                                 (mkProcess d1 (mkStatics 0 0 0)
                                            (posixly_correct p))
                                 None (xml_filename c)))).
  { apply (get_args_from_start p (prog :: op :: rest) c
             (mkScan (prog :: op :: rest)
                     (mkProcess (started (posixly_correct p))
                                (mkStatics 0 0 0) (posixly_correct p))
                     None (xml_filename c)));
      [discriminate|exact Hu|apply reaches_refl|].
    apply scan_step_out. rewrite Hposix. exact Hg. }
  destruct (get_args_tokens PATH_MAX p prog [] c Hu) as (s2 & H2 & Hx2 & Hf2).
  cbn [map] in H2.
  destruct (validate_same c
              (mkScan (prog :: op :: rest)
                      (mkProcess d1 (mkStatics 0 0 0) (posixly_correct p))
                      None (xml_filename c)) s2)
    as (r1 & r2 & V1 & V2 & Hs & Hc & Ho);
    [cbn in Hx2 |- *; congruence|cbn in Hf2 |- *; congruence|].
  exists r1, r2. rewrite H1, H2, V1, V2.
  split; [reflexivity|]. split; [reflexivity|].
  split; [unfold same_outcome; auto|].
  intros He. revert V1. unfold validate. cbn [sc_xml]. rewrite He.
  intros V1. injection V1 as <-. split; reflexivity.
Qed.

(** Where a run on option tokens leaves the process. *)
Lemma get_args_tokens_end p prog ts c :
  unused p ->
  exists d1 oi1,
    ready d1 (S (length ts))
    /\ get_args PATH_MAX p (prog :: map render ts) c
       = Some (validate c OutOfOptions
                 (mkScan (prog :: map render ts)
                         (mkProcess d1 (flags_after ts (mkStatics 0 0 0))
                                    (posixly_correct p)) oi1
                         (xml_after PATH_MAX ts (xml_filename c)))).
Proof.
  intros Hu.
  destruct (get_args_prefix PATH_MAX p prog ts [] c Hu)
    as (d' & oi' & fuel & Hr & Hg).
  rewrite app_nil_r in Hg.
  destruct (getopt_long_done _ flag_var_eqb (posixly_correct p)
              (prog :: map render ts) long_options d' (S (length ts)) Hr)
    as (d1 & Hr1 & Hgo).
  { rewrite <- (length_map render ts). apply nth_error_end. }
  cbn [scan] in Hg.
  rewrite (scan_step_out PATH_MAX _ _ _ _ _ _ _ _ Hgo) in Hg.
  eauto.
Qed.

(** X10: get_args can be used once per process.  After a run on option
    tokens, a second call in the same process scans nothing, whatever
    the first call returned: the path buffer it is given comes back
    untouched, so an empty one gives the missing-argument failure, and a
    non-empty one gives SUCCESS with the booleans of the first call. *)
Theorem X10_second_call_scans_nothing p prog ts c :
  unused p ->
  exists r1,
    get_args PATH_MAX p (prog :: map render ts) c = Some (Returned r1)
    /\ forall c2,
      exists r2,
        get_args PATH_MAX (process_after r1) (argv_after r1) c2
        = Some (Returned r2)
        /\ xml_filename (cfg r2) = xml_filename c2
        /\ (xml_filename c2 = "" -> missing_argument_failure r2)
        /\ (xml_filename c2 <> "" ->
            status r2 = SUCCESS
            /\ use_tape6 (cfg r2) = given UseTape6 ts
            /\ verbose (cfg r2) = given Verbose ts
            /\ debug (cfg r2) = given Debug ts).
Proof.
  intros Hu.
  destruct (get_args_tokens_end p prog ts c Hu) as (d1 & oi1 & Hr1 & Hg).
  set (argv := prog :: map render ts) in *.
  set (fl := flags_after ts (mkStatics 0 0 0)) in *.
  set (s1 := mkScan argv (mkProcess d1 fl (posixly_correct p)) oi1
                    (xml_after PATH_MAX ts (xml_filename c))) in *.
  assert (Hret : exists r1, validate c OutOfOptions s1 = Returned r1).
  { unfold validate. destruct (String.length (sc_xml s1) <=? 0);
      eexists; reflexivity. }
  destruct Hret as (r1 & Hv1). rewrite Hv1 in Hg.
  exists r1. split; [exact Hg|]. intros c2.
  destruct (validate_returned _ _ _ _ Hv1) as (Ha & Hp & _).
  rewrite Ha, Hp. cbn [s1 sc_argv sc_process].
  destruct (getopt_long_done _ flag_var_eqb (posixly_correct p) argv
              long_options d1 (S (length ts)) Hr1) as (d2 & _ & Hgo).
  { unfold argv. rewrite <- (length_map render ts). apply nth_error_end. }
  assert (Hscan : scan PATH_MAX 1
                       (mkScan argv (mkProcess d1 fl (posixly_correct p))
                               None (xml_filename c2))
                  = Some (OutOfOptions,
                          mkScan argv (mkProcess d2 fl (posixly_correct p))
                                 None (xml_filename c2))).
  { cbn [scan]. rewrite (scan_step_out PATH_MAX _ _ _ _ _ _ _ _ Hgo).
    reflexivity. }
  rewrite (get_args_scan PATH_MAX _ _ c2 _ _ _ Hscan).
  unfold validate. cbn [sc_xml sc_process flags sc_argv].
  destruct (String.length (xml_filename c2) <=? 0) eqn:E.
  - apply length_zero_empty in E.
    eexists. split; [reflexivity|]. cbn.
    repeat split; auto; contradiction.
  - assert (Hne : xml_filename c2 <> "")
      by (intros He; rewrite He in E; discriminate).
    eexists. split; [reflexivity|].
    cbn [cfg xml_filename status use_tape6 verbose debug].
    destruct (flags_after_given ts (mkStatics 0 0 0)) as (Hfv & Hfd & Hfu).
    fold fl in Hfv, Hfd, Hfu. rewrite Hfv, Hfd, Hfu.
    cbn [verbose_flag_v debug_flag_v use_tape6_flag_v].
    split; [reflexivity|]. split; [contradiction|]. intros _.
    destruct (given Verbose ts), (given Debug ts), (given UseTape6 ts);
      auto.
Qed.

(** A run on option tokens and the calls that follow it in the same
    process: the first returns what [validate] makes of the tokens, and
    any later call on the argv it left goes straight to [validate] with
    the statics of the first call and the path buffer it is handed. *)
Lemma get_args_tokens_again p prog ts c :
  unused p ->
  exists r1 d1 oi1 d2,
    get_args PATH_MAX p (prog :: map render ts) c = Some (Returned r1)
    /\ validate c OutOfOptions
                (mkScan (prog :: map render ts)
                        (mkProcess d1 (flags_after ts (mkStatics 0 0 0))
                                   (posixly_correct p)) oi1
                        (xml_after PATH_MAX ts (xml_filename c)))
       = Returned r1
    /\ forall c2,
      get_args PATH_MAX (process_after r1) (argv_after r1) c2
      = Some (validate c2 OutOfOptions
                (mkScan (prog :: map render ts)
                        (mkProcess d2 (flags_after ts (mkStatics 0 0 0))
                                   (posixly_correct p)) None
                        (xml_filename c2))).
Proof.
  intros Hu.
  destruct (get_args_tokens_end p prog ts c Hu) as (d1 & oi1 & Hr1 & Hg).
  set (argv := prog :: map render ts) in *.
  set (fl := flags_after ts (mkStatics 0 0 0)) in *.
  set (s1 := mkScan argv (mkProcess d1 fl (posixly_correct p)) oi1
                    (xml_after PATH_MAX ts (xml_filename c))) in *.
  assert (Hret : exists r1, validate c OutOfOptions s1 = Returned r1).
  { unfold validate. destruct (String.length (sc_xml s1) <=? 0);
      eexists; reflexivity. }
  destruct Hret as (r1 & Hv1). rewrite Hv1 in Hg.
  destruct (getopt_long_done _ flag_var_eqb (posixly_correct p) argv
              long_options d1 (S (length ts)) Hr1) as (d2 & _ & Hgo).
  { unfold argv. rewrite <- (length_map render ts). apply nth_error_end. }
  exists r1, d1, oi1, d2. split; [exact Hg|]. split; [exact Hv1|].
  intros c2.
  destruct (validate_returned _ _ _ _ Hv1) as (Ha & Hp & _).
  rewrite Ha, Hp. cbn [s1 sc_argv sc_process].
  apply (get_args_scan PATH_MAX _ _ c2 1).
  cbn [scan]. rewrite (scan_step_out PATH_MAX _ _ _ _ _ _ _ _ Hgo).
  reflexivity.
Qed.

(** C5, as the code has it: get_args keeps state from one call to the
    next in a process, the three statics and the scanner's position.
    After a first call on option tokens, a second call on the same argv
    in the same process scans nothing.  Handed the configuration the
    first call left, it comes back with the same status, the same
    configuration and the same output as the first; handed a
    configuration with an empty path buffer, as a freshly allocated one
    is, it fails with the missing-argument error and leaves that
    configuration as it was, even when the first call succeeded. *)
Theorem C5_second_parse_in_one_process p prog ts c :
  unused p ->
  exists r1,
    get_args PATH_MAX p (prog :: map render ts) c = Some (Returned r1)
    /\ argv_after r1 = prog :: map render ts
    /\ (exists r2,
           get_args PATH_MAX (process_after r1) (argv_after r1) (cfg r1)
           = Some (Returned r2)
           /\ same_outcome r1 r2)
    /\ (forall c2,
           xml_filename c2 = "" ->
           exists r2,
             get_args PATH_MAX (process_after r1) (argv_after r1) c2
             = Some (Returned r2)
             /\ missing_argument_failure r2
             /\ cfg r2 = c2).
Proof.
  intros Hu.
  destruct (get_args_tokens_again p prog ts c Hu)
    as (r1 & d1 & oi1 & d2 & Hg & Hv1 & Hagain).
  exists r1. split; [exact Hg|].
  destruct (validate_returned _ _ _ _ Hv1) as (Ha & _ & Hx).
  cbn [sc_argv sc_xml] in Ha, Hx.
  split; [exact Ha|]. split.
  - rewrite (Hagain (cfg r1)), Hx.
    unfold validate in Hv1 |- *. cbn [sc_xml sc_process flags sc_argv] in *.
    destruct (String.length (xml_after PATH_MAX ts (xml_filename c)) <=? 0);
      injection Hv1 as <-; eexists; (split; [reflexivity|]);
      unfold same_outcome; cbn; auto.
  - intros c2 He. rewrite (Hagain c2).
    unfold validate. cbn [sc_xml sc_process flags sc_argv]. rewrite He.
    eexists. split; [reflexivity|].
    split; [split; reflexivity|].
    cbn. destruct c2 as [x t v g]. cbn in He. subst x. reflexivity.
Qed.

(** X17: a call that fails may still have written.  When [--help] comes
    after option tokens, the caller's path buffer holds the value of
    the last [--xml=] before it, and the statics hold the flags before
    it, although the call returns FAILURE and leaves the booleans
    unset. *)
Theorem X17_failed_call_has_written p prog ts rest c :
  unused p ->
  exists r,
    get_args PATH_MAX p (prog :: map render ts ++ "--help" :: rest) c
    = Some (Returned r)
    /\ status r = FAILURE
    /\ cfg r = mkConfig (xml_after PATH_MAX ts (xml_filename c))
                        (use_tape6 c) (verbose c) (debug c)
    /\ flags (process_after r) = flags_after ts (mkStatics 0 0 0).
Proof.
  intros Hu.
  destruct (get_args_prefix PATH_MAX p prog ts ("--help" :: rest) c Hu)
    as (d' & oi' & fuel & Hr & Hg).
  destruct (scan_step_help PATH_MAX
              (prog :: map render ts ++ "--help" :: rest) d' (S (length ts))
              (flags_after ts (mkStatics 0 0 0)) (posixly_correct p) oi'
              (xml_after PATH_MAX ts (xml_filename c)) Hr)
    as (d1 & oi1 & Hstep).
  { rewrite <- (length_map render ts).
    apply (nth_error_middle _ (prog :: map render ts)). }
  cbn [scan] in Hg. rewrite Hstep in Hg. cbn [validate] in Hg.
  eexists. split; [exact Hg|]. cbn. auto.
Qed.

End FurtherRuns.

(** ** Other spellings, and tokens that are turned down *)

Lemma spell_all_exact ts : spell_all (map Exact ts) = map render ts.
Proof.
  unfold spell_all. induction ts as [|t ts IH]; cbn; [reflexivity|].
  rewrite IH. reflexivity.
Qed.

Lemma spell_all_app ws1 ws2 :
  spell_all (ws1 ++ ws2) = spell_all ws1 ++ spell_all ws2.
Proof.
  unfold spell_all. rewrite map_app, concat_app. reflexivity.
Qed.

Lemma meaning_exact ts : map meaning (map Exact ts) = ts.
Proof.
  induction ts as [|t ts IH]; cbn; [reflexivity|]. rewrite IH. reflexivity.
Qed.

Lemma well_spelt_exact ts : Forall well_spelt (map Exact ts).
Proof.
  induction ts; cbn; constructor; cbn; auto.
Qed.

Lemma scan_element_short (F : Type) (F_eqb : F -> F -> bool) argv
      (lo : list (option_t F)) a c rest d :
  c <> "-"%char ->
  scan_element F_eqb argv lo (String a (String c rest)) d
  = short_option F argv (String c rest) d.
Proof.
  intros Hc. unfold scan_element.
  destruct c as [[] [] [] [] [] [] [] []]; try reflexivity. congruence.
Qed.

Lemma nth_error_last (A : Type) (l : list A) : forall a rest d,
  nth_error ((a :: l) ++ rest) (length l) = Some (last (a :: l) d).
Proof.
  induction l as [|b l IH]; intros a rest d; [reflexivity|].
  change (nth_error ((a :: b :: l) ++ rest) (length (b :: l)))
    with (nth_error ((b :: l) ++ rest) (length l)).
  rewrite (IH b rest d). reflexivity.
Qed.

Section Spelt.

Variable PATH_MAX : nat.

(** A command line of options, however they are spelt, ends as the
    command line of the tokens they stand for. *)
Lemma get_args_words p prog ws c :
  unused p ->
  Forall well_spelt ws ->
  exists r1 r2,
    get_args PATH_MAX p (prog :: spell_all ws) c = Some (Returned r1)
    /\ get_args PATH_MAX p (prog :: map render (map meaning ws)) c
       = Some (Returned r2)
    /\ same_outcome r1 r2.
Proof.
  intros Hu Hws.
  destruct (reaches_words PATH_MAX ws [prog] [] (started (posixly_correct p))
              (mkStatics 0 0 0) (posixly_correct p) None (xml_filename c)
              (started_ready _) Hws) as (d' & oi' & Hr & Hreach).
  rewrite app_nil_r in Hreach. cbn [app length Nat.add] in Hreach, Hr.
  destruct (getopt_long_done _ flag_var_eqb (posixly_correct p)
              (prog :: spell_all ws) long_options d' _ Hr) as (d1 & _ & Hgo).
  { apply nth_error_end. }
  pose proof (get_args_from_start PATH_MAX p (prog :: spell_all ws) c _ _ _
                ltac:(discriminate) Hu Hreach
                (scan_step_out PATH_MAX _ _ _ _ _ _ _ _ Hgo)) as H1.
  destruct (get_args_tokens PATH_MAX p prog (map meaning ws) c Hu)
    as (s2 & H2 & Hx2 & Hf2).
  destruct (validate_same c
              (mkScan (prog :: spell_all ws)
                      (mkProcess d1 (flags_after (map meaning ws)
                                                 (mkStatics 0 0 0))
                                 (posixly_correct p)) oi'
                      (xml_after PATH_MAX (map meaning ws) (xml_filename c)))
              s2)
    as (r1 & r2 & V1 & V2 & Hs); [cbn; congruence|cbn; congruence|].
  exists r1, r2. rewrite H1, H2, V1, V2. unfold same_outcome. auto.
Qed.

(** X3: the value of [--xml] may be given as the next element instead of
    after an ['=']; whatever that element is, an option-like one or an
    empty one included, it is the value.  [--xml v] among option tokens
    ends as [--xml=v] in the same place does. *)
Theorem X3_xml_value_as_next_element p prog ts1 v ts2 c :
  unused p ->
  exists r1 r2,
    get_args PATH_MAX p
             (prog :: map render ts1 ++ "--xml" :: v :: map render ts2) c
    = Some (Returned r1)
    /\ get_args PATH_MAX p (prog :: map render (ts1 ++ Xml v :: ts2)) c
       = Some (Returned r2)
    /\ same_outcome r1 r2.
Proof.
  intros Hu.
  destruct (get_args_words p prog
              (map Exact ts1 ++ XmlThen "xml" v :: map Exact ts2) c Hu)
    as (r1 & r2 & H1 & H2 & Hs).
  { apply Forall_app. split; [apply well_spelt_exact|].
    constructor; [|apply well_spelt_exact].
    split; [discriminate|reflexivity]. }
  rewrite spell_all_app, spell_all_exact in H1.
  change (spell_all (XmlThen "xml" v :: map Exact ts2))
    with ("--xml" :: v :: spell_all (map Exact ts2)) in H1.
  rewrite spell_all_exact in H1.
  rewrite map_app in H2. cbn [map meaning] in H2.
  rewrite !meaning_exact in H2.
  exists r1, r2. auto.
Qed.

(** X4: every option may be written under any non-empty beginning of its
    name ([--v] for [--verbose], [--x=a.xml] for [--xml=a.xml]).  A
    command line of options each under its name or a beginning of it,
    [--xml] with its value attached or detached, ends as the command
    line with every option written out in full. *)
Theorem X4_shortened_option_names p prog ws c :
  unused p ->
  Forall well_spelt ws ->
  exists r1 r2,
    get_args PATH_MAX p (prog :: spell_all ws) c = Some (Returned r1)
    /\ get_args PATH_MAX p (prog :: map render (map meaning ws)) c
       = Some (Returned r2)
    /\ same_outcome r1 r2.
Proof.
  apply get_args_words.
Qed.

(** The turn on a token the scanner answers with ['?'], when the
    message does not fit. *)
Lemma scan_step_question_overflow argv d k fl posix oi xml tok d1 :
  getopt_long flag_var_eqb posix argv long_options d
  = mkRet QUESTION None None argv d1 ->
  optind d1 = S k ->
  nth_error argv k = Some tok ->
  MAX_STR_LEN < String.length tok + 16 ->
  scan_step PATH_MAX (mkScan argv (mkProcess d fl posix) oi xml)
  = inr (UndefinedBehaviour, mkScan argv (mkProcess d1 fl posix) oi xml).
Proof.
  intros Hg Ho Hnth Hlen. unfold scan_step.
  cbn [sc_process sc_argv sc_option_index sc_xml scanner flags posixly_correct].
  rewrite Hg. cbn [r_c r_flag r_longind r_argv r_data].
  rewrite Ho. cbn [Nat.sub]. rewrite Nat.sub_0_r, Hnth.
  unfold sprintf_unknown.
  destruct (_ <? _) eqn:E; [|reflexivity].
  apply Nat.ltb_lt in E. cbn [String.append String.length] in E. lia.
Qed.

(** What the scanner answers to a token with an unregistered name. *)
Lemma getopt_long_unregistered posix argv d k tok :
  ready d k ->
  nth_error argv k = Some tok ->
  unregistered tok ->
  exists d1,
    optind d1 = S k
    /\ getopt_long flag_var_eqb posix argv long_options d
       = mkRet QUESTION None None argv d1.
Proof.
  intros Hr Hnth Hun.
  destruct (unregistered_is_option _ Hun) as (Hopt & Hdd).
  destruct (getopt_long_ready _ flag_var_eqb posix argv long_options d k _
              Hr Hnth Hopt Hdd) as (d1 & Hr1 & Ha1 & Hg).
  destruct Hun as (body & -> & Hnone).
  change (scan_element flag_var_eqb argv long_options ("--" ++ body) d1)
    with (process_long_option flag_var_eqb argv long_options body d1) in Hg.
  unfold process_long_option in Hg.
  destruct (split_name body) as (nm, value). cbn [fst] in Hnone.
  rewrite (find_exact_none _ nm long_options 0 Hnone) in Hg.
  rewrite (find_abbrev_none _ flag_var_eqb nm long_options 0 Hnone) in Hg.
  eexists. split; [|exact Hg].
  destruct Hr1 as (_ & _ & Hk & _). fields. rewrite Hk. reflexivity.
Qed.

(** X14: the message for an unknown option is built without a bound.
    When an unregistered [--<name>] token of more than
    [MAX_STR_LEN - 16] characters comes after option tokens, the text
    "Unknown option <token>" and its terminator do not fit [errmsg], and
    the call has no defined outcome. *)
Theorem X14_long_unknown_option_overflows p prog ts tok rest c :
  unused p ->
  unregistered tok ->
  MAX_STR_LEN < String.length tok + 16 ->
  get_args PATH_MAX p (prog :: map render ts ++ tok :: rest) c
  = Some Undefined.
Proof.
  intros Hu Hun Hlen.
  destruct (get_args_prefix PATH_MAX p prog ts (tok :: rest) c Hu)
    as (d' & oi' & fuel & Hr & Hg).
  assert (Hnth : nth_error (prog :: map render ts ++ tok :: rest)
                           (S (length ts)) = Some tok).
  { rewrite <- (length_map render ts).
    apply (nth_error_middle _ (prog :: map render ts)). }
  destruct (getopt_long_unregistered (posixly_correct p) _ _ _ _ Hr Hnth Hun)
    as (d1 & Ho & Hgo).
  cbn [scan] in Hg.
  rewrite (scan_step_question_overflow _ _ _ _ _ _ _ _ _ Hgo Ho Hnth Hlen)
    in Hg.
  exact Hg.
Qed.

(** X11: an option that takes no value is turned down when it is given
    one.  [--verbose=<v>], [--debug=<v>], [--use-tape6=<v>] and
    [--help=<v>] after option tokens end the call with the usage text,
    the error "Unknown option <token>", and FAILURE. *)
Theorem X11_value_on_a_flag_is_an_error p prog ts nm v rest c :
  unused p ->
  In nm ["verbose"; "debug"; "use-tape6"; "help"] ->
  String.length ("--" ++ nm ++ "=" ++ v) + 16 <= MAX_STR_LEN ->
  exists r,
    get_args PATH_MAX p
             (prog :: map render ts ++ ("--" ++ nm ++ "=" ++ v)%string :: rest)
             c
    = Some (Returned r)
    /\ unknown_option_failure ("--" ++ nm ++ "=" ++ v) r.
Proof.
  intros Hu Hnm Hlen.
  set (tok := ("--" ++ nm ++ "=" ++ v)%string) in *.
  destruct (get_args_prefix PATH_MAX p prog ts (tok :: rest) c Hu)
    as (d' & oi' & fuel & Hr & Hg).
  assert (Hnth : nth_error (prog :: map render ts ++ tok :: rest)
                           (S (length ts)) = Some tok).
  { rewrite <- (length_map render ts).
    apply (nth_error_middle _ (prog :: map render ts)). }
  assert (Hgo : exists d1,
             optind d1 = S (S (length ts))
             /\ getopt_long flag_var_eqb (posixly_correct p)
                            (prog :: map render ts ++ tok :: rest)
                            long_options d'
                = mkRet QUESTION None None
                        (prog :: map render ts ++ tok :: rest) d1).
  { assert (Hopt : nonoption tok = false /\ tok <> "--").
    { unfold tok. cbn in Hnm.
      destruct Hnm as [<-|[<-|[<-|[<-|[]]]]];
        (split; [reflexivity|discriminate]). }
    destruct Hopt as (Hopt & Hdd).
    destruct (getopt_long_ready _ flag_var_eqb (posixly_correct p) _
                long_options d' _ _ Hr Hnth Hopt Hdd)
      as (d1 & (_ & _ & Hk & _) & _ & Hgo).
    rewrite Hgo. unfold tok. cbn in Hnm.
    destruct Hnm as [<-|[<-|[<-|[<-|[]]]]]; cbn;
      eexists; (split; [|reflexivity]); fields; rewrite Hk; reflexivity. }
  destruct Hgo as (d1 & Ho & Hgo).
  cbn [scan] in Hg.
  rewrite (scan_step_question PATH_MAX _ _ _ _ _ _ _ _ _ Hgo Ho Hnth Hlen)
    in Hg.
  cbn [validate] in Hg.
  eexists. split; [exact Hg|].
  unfold unknown_option_failure. cbn. auto.
Qed.

(** X12: with an empty [optstring] there are no short options.  A token
    of a ['-'] and one other character after option tokens ends the
    call with the usage text, the error "Unknown option <token>", and
    FAILURE. *)
Theorem X12_single_letter_option_is_an_error p prog ts ch rest c :
  unused p ->
  ch <> "-"%char ->
  exists r,
    get_args PATH_MAX p
             (prog :: map render ts
                ++ String "-" (String ch EmptyString) :: rest) c
    = Some (Returned r)
    /\ unknown_option_failure (String "-" (String ch EmptyString)) r.
Proof.
  intros Hu Hch.
  set (tok := String "-" (String ch EmptyString)) in *.
  destruct (get_args_prefix PATH_MAX p prog ts (tok :: rest) c Hu)
    as (d' & oi' & fuel & Hr & Hg).
  assert (Hnth : nth_error (prog :: map render ts ++ tok :: rest)
                           (S (length ts)) = Some tok).
  { rewrite <- (length_map render ts).
    apply (nth_error_middle _ (prog :: map render ts)). }
  assert (Hdd : tok <> "--") by (unfold tok; congruence).
  destruct (getopt_long_ready _ flag_var_eqb (posixly_correct p) _
              long_options d' _ _ Hr Hnth eq_refl Hdd)
    as (d1 & (_ & _ & Hk & _) & _ & Hgo).
  subst tok.
  rewrite (scan_element_short _ _ _ _ _ _ _ _ Hch) in Hgo.
  cbn [short_option] in Hgo.
  cbn [scan] in Hg.
  rewrite (scan_step_question PATH_MAX _ _ (S (length ts)) _ _ _ _
             (String "-" (String ch EmptyString)) _ Hgo)
    in Hg; [| fields; rewrite Hk; reflexivity | exact Hnth
            | unfold MAX_STR_LEN; cbn [String.length]; lia].
  cbn [validate] in Hg.
  eexists. split; [exact Hg|].
  unfold unknown_option_failure. cbn. auto.
Qed.

(** X13: a token of a ['-'] and two or more other characters is turned
    down at its first character, when [optind] has not yet moved past
    it; the error that get_args prints then names [argv[optind - 1]],
    the element before the token: the last option token, or the program
    name when the token comes first. *)
Theorem X13_cluster_is_reported_as_the_element_before
        p prog ts ch ch2 more rest c :
  unused p ->
  ch <> "-"%char ->
  fits (last (prog :: map render ts) prog) ->
  exists r,
    get_args PATH_MAX p
             (prog :: map render ts
                ++ String "-" (String ch (String ch2 more)) :: rest) c
    = Some (Returned r)
    /\ unknown_option_failure (last (prog :: map render ts) prog) r.
Proof.
  intros Hu Hch Hfit.
  set (tok := String "-" (String ch (String ch2 more))) in *.
  destruct (get_args_prefix PATH_MAX p prog ts (tok :: rest) c Hu)
    as (d' & oi' & fuel & Hr & Hg).
  assert (Hnth : nth_error (prog :: map render ts ++ tok :: rest)
                           (S (length ts)) = Some tok).
  { rewrite <- (length_map render ts).
    apply (nth_error_middle _ (prog :: map render ts)). }
  assert (Hprev : nth_error (prog :: map render ts ++ tok :: rest)
                            (length ts)
                  = Some (last (prog :: map render ts) prog)).
  { rewrite <- (length_map render ts).
    apply (nth_error_last _ (map render ts) prog (tok :: rest) prog). }
  assert (Hdd : tok <> "--") by (unfold tok; congruence).
  destruct (getopt_long_ready _ flag_var_eqb (posixly_correct p) _
              long_options d' _ _ Hr Hnth eq_refl Hdd)
    as (d1 & (_ & _ & Hk & _) & _ & Hgo).
  subst tok.
  rewrite (scan_element_short _ _ _ _ _ _ _ _ Hch) in Hgo.
  cbn [short_option] in Hgo.
  cbn [scan] in Hg.
  rewrite (scan_step_question PATH_MAX _ _ (length ts) _ _ _ _
             (last (prog :: map render ts) prog) _ Hgo)
    in Hg; [| fields; exact Hk | exact Hprev | exact Hfit].
  cbn [validate] in Hg.
  eexists. split; [exact Hg|].
  unfold unknown_option_failure. cbn. auto.
Qed.

End Spelt.

(** ** Operands among the options *)

Lemma firstn_app_length (A : Type) (a b : list A) :
  firstn (length a) (a ++ b) = a.
Proof.
  induction a; simpl; [reflexivity|]. rewrite IHa. reflexivity.
Qed.

Lemma skipn_two_app (A : Type) (a b c : list A) :
  skipn (length a + length b) (a ++ b ++ c) = c.
Proof.
  rewrite <- length_app, app_assoc. apply skipn_app_length.
Qed.

Lemma skipn_three_app (A : Type) (a b c e : list A) :
  skipn (length a + length b + length c) (a ++ b ++ c ++ e) = e.
Proof.
  rewrite <- !length_app, !app_assoc. apply skipn_app_length.
Qed.

Lemma skipn_blocks (A : Type) (a b c e : list A) n :
  n = length a + length b + length c ->
  skipn n (a ++ b ++ c ++ e) = e.
Proof.
  intros ->. apply skipn_three_app.
Qed.

(** The exchange puts the options taken in since the last one in front
    of the operands that were skipped. *)
Lemma exchange_argv_blocks pre skipped fresh rest :
  exchange_argv (length pre) (length pre + length skipped)
                (length pre + length skipped + length fresh)
                (pre ++ skipped ++ fresh ++ rest)
  = pre ++ fresh ++ skipped ++ rest.
Proof.
  unfold exchange_argv.
  destruct ((_ <? _) && (_ <? _))%bool eqn:E.
  - rewrite firstn_app_length, skipn_two_app, skipn_three_app,
      skipn_app_length.
    replace (length pre + length skipped + length fresh
             - (length pre + length skipped)) with (length fresh) by lia.
    replace (length pre + length skipped - length pre)
      with (length skipped) by lia.
    rewrite !firstn_app_length. reflexivity.
  - apply andb_false_iff in E.
    destruct E as [E|E]; apply Nat.ltb_ge in E.
    + destruct fresh; [reflexivity|cbn [length] in E; lia].
    + destruct skipped; [reflexivity|cbn [length] in E; lia].
Qed.

Lemma skip_nonoptions_stop ops rest : forall i,
  Forall (fun s => nonoption s = true) ops ->
  match rest with
  | [] => True
  | s :: _ => nonoption s = false
  end ->
  skip_nonoptions (ops ++ rest) i = i + length ops.
Proof.
  induction ops as [|o ops IH]; intros i Hops Hrest.
  - cbn [app length]. rewrite Nat.add_0_r.
    destruct rest as [|s rest]; [reflexivity|].
    cbn. rewrite Hrest. reflexivity.
  - inversion Hops as [|? ? Ho Hops']; subst.
    cbn [app skip_nonoptions length]. rewrite Ho, IH by assumption. lia.
Qed.

(** What [permute] does between two elements: the blocks change places
    and the operands ahead are skipped. *)
Lemma permute_blocks d pre skipped fresh ops rest :
  permuting d pre skipped fresh ->
  Forall (fun s => nonoption s = true) ops ->
  match rest with
  | [] => True
  | s :: _ => nonoption s = false
  end ->
  exists d',
    permute (pre ++ skipped ++ fresh ++ ops ++ rest) (clamp d)
    = (pre ++ fresh ++ skipped ++ ops ++ rest, d')
    /\ permuting d' (pre ++ fresh) (skipped ++ ops) []
    /\ optarg d' = optarg d.
Proof.
  intros (Hnc & Hini & Hord & Hpre & Hf & Hl & Ho) Hops Hrest.
  destruct d as [oi oa nc fn ln ord ini]; fields; subst nc ini ord fn ln oi.
  assert (Hc : clamp (mkData (length pre + length skipped + length fresh) oa
                             "" (length pre)
                             (length pre + length skipped) PERMUTE true)
               = mkData (length pre + length skipped + length fresh) oa
                        "" (length pre)
                        (length pre + length skipped) PERMUTE true).
  { unfold clamp; fields.
    replace (_ <? length pre + length skipped) with false
      by (symmetry; apply Nat.ltb_ge; lia).
    fields.
    replace (_ <? length pre) with false
      by (symmetry; apply Nat.ltb_ge; lia).
    reflexivity. }
  rewrite Hc. unfold permute; fields.
  assert (Hskip : forall l,
             skipn (length pre + length skipped + length fresh) l
             = ops ++ rest ->
             skip_nonoptions
               (skipn (length pre + length skipped + length fresh) l)
               (length pre + length skipped + length fresh)
             = length pre + length skipped + length fresh + length ops).
  { intros l ->. apply skip_nonoptions_stop; assumption. }
  destruct (negb (length pre =? length pre + length skipped)
            && negb (length pre + length skipped
                     =? length pre + length skipped + length fresh))%bool
    eqn:E.
  - unfold exchange; fields.
    rewrite exchange_argv_blocks.
    rewrite Hskip by (apply skipn_blocks; lia).
    eexists. split; [reflexivity|]. split; [|reflexivity].
    unfold permuting; fields. rewrite !length_app. cbn [length].
    repeat split; auto; try lia.
    destruct pre; [contradiction|discriminate].
  - assert (Hcase : skipped = [] \/ fresh = []).
    { apply andb_false_iff in E.
      destruct E as [E|E]; apply negb_false_iff, Nat.eqb_eq in E.
      - left. destruct skipped; [reflexivity|cbn [length] in E; lia].
      - right. destruct fresh; [reflexivity|cbn [length] in E; lia]. }
    assert (Hargv : pre ++ skipped ++ fresh ++ ops ++ rest
                    = pre ++ fresh ++ skipped ++ ops ++ rest)
      by (destruct Hcase as [-> | ->]; rewrite ?app_nil_r; reflexivity).
    destruct (negb (length pre + length skipped
                    =? length pre + length skipped + length fresh)) eqn:E2;
      [apply negb_true_iff, Nat.eqb_neq in E2
      |apply negb_false_iff, Nat.eqb_eq in E2]; fields;
      rewrite Hskip by (apply skipn_blocks; lia);
      rewrite Hargv;
      (eexists; split; [reflexivity|]); (split; [|reflexivity]);
      unfold permuting; fields; rewrite !length_app; cbn [length];
      (destruct Hcase as [-> | ->]; cbn [length] in *);
      repeat split; auto; try lia;
      destruct pre; try contradiction; discriminate.
Qed.

Section ScannerPermuting.

Variable F : Type.
Variable F_eqb : F -> F -> bool.

(** Between two elements a call goes straight to [advance]. *)
Lemma getopt_long_permuting posix argv (lo : list (option_t F)) d
      pre skipped fresh :
  permuting d pre skipped fresh ->
  argv <> [] ->
  getopt_long F_eqb posix argv lo d
  = advance F_eqb argv lo (set_optarg None d)
  /\ permuting (set_optarg None d) pre skipped fresh.
Proof.
  intros (Hnc & Hini & Hord & Hpre & Hf & Hl & Ho) Hne.
  split; [|unfold permuting; fields; auto 10].
  unfold getopt_long. destruct argv as [|a argv]; [contradiction|].
  replace (initialized (set_optarg None d)) with true by (fields; auto).
  replace (optind (set_optarg None d) =? 0) with false
    by (symmetry; apply Nat.eqb_neq; fields; rewrite Ho;
        destruct pre; [contradiction|cbn [length]; lia]).
  cbn [orb negb].
  replace (nextchar (set_optarg None d)) with EmptyString by (fields; auto).
  reflexivity.
Qed.

(** The operands ahead are skipped and the option behind them is
    scanned; argv has the options taken in so far in front of the
    operands skipped so far. *)
Lemma getopt_long_permuting_option posix (lo : list (option_t F)) d
      pre skipped fresh ops tok rest :
  permuting d pre skipped fresh ->
  Forall (fun s => nonoption s = true) ops ->
  nonoption tok = false ->
  tok <> "--" ->
  exists d1,
    permuting d1 (pre ++ fresh) (skipped ++ ops) []
    /\ optarg d1 = None
    /\ getopt_long F_eqb posix (pre ++ skipped ++ fresh ++ ops ++ tok :: rest)
                   lo d
       = scan_element F_eqb (pre ++ fresh ++ skipped ++ ops ++ tok :: rest)
                      lo tok d1.
Proof.
  intros Hp Hops Hopt Hdd.
  assert (Hne : pre ++ skipped ++ fresh ++ ops ++ tok :: rest <> [])
    by (destruct Hp as (_ & _ & _ & Hpre & _); destruct pre;
        [contradiction|discriminate]).
  destruct (getopt_long_permuting posix _ lo d pre skipped fresh Hp Hne)
    as (-> & Hp0).
  destruct (permute_blocks _ pre skipped fresh ops (tok :: rest) Hp0 Hops Hopt)
    as (d1 & Hperm & Hp1 & Ha1).
  unfold advance.
  replace (ordering (set_optarg None d)) with PERMUTE
    by (destruct Hp0 as (_ & _ & -> & _); reflexivity).
  rewrite Hperm.
  exists d1. split; [exact Hp1|]. split; [rewrite Ha1; fields; reflexivity|].
  unfold next_element.
  replace (optind d1) with (length (pre ++ fresh ++ skipped ++ ops))
    by (destruct Hp1 as (_ & _ & _ & _ & _ & _ & ->);
        rewrite !length_app; cbn [length]; lia).
  replace (pre ++ fresh ++ skipped ++ ops ++ tok :: rest)
    with ((pre ++ fresh ++ skipped ++ ops) ++ tok :: rest)
    by (rewrite <- !app_assoc; reflexivity).
  rewrite nth_error_middle.
  replace (String.eqb tok "--") with false
    by (symmetry; apply String.eqb_neq; assumption).
  rewrite Hopt. reflexivity.
Qed.

(** With nothing but operands ahead the scan is over. *)
Lemma getopt_long_permuting_end posix (lo : list (option_t F)) d
      pre skipped fresh ops :
  permuting d pre skipped fresh ->
  Forall (fun s => nonoption s = true) ops ->
  exists d1,
    getopt_long F_eqb posix (pre ++ skipped ++ fresh ++ ops) lo d
    = mkRet (-1) None None (pre ++ fresh ++ skipped ++ ops) d1.
Proof.
  intros Hp Hops.
  assert (Hne : pre ++ skipped ++ fresh ++ ops <> [])
    by (destruct Hp as (_ & _ & _ & Hpre & _); destruct pre;
        [contradiction|discriminate]).
  destruct (getopt_long_permuting posix _ lo d pre skipped fresh Hp Hne)
    as (-> & Hp0).
  destruct (permute_blocks _ pre skipped fresh ops [] Hp0 Hops I)
    as (d1 & Hperm & Hp1 & Ha1).
  rewrite !app_nil_r in Hperm.
  unfold advance.
  replace (ordering (set_optarg None d)) with PERMUTE
    by (destruct Hp0 as (_ & _ & -> & _); reflexivity).
  rewrite Hperm.
  unfold next_element.
  replace (optind d1) with (length (pre ++ fresh ++ skipped ++ ops))
    by (destruct Hp1 as (_ & _ & _ & _ & _ & _ & ->);
        rewrite !length_app; cbn [length]; lia).
  replace (nth_error (pre ++ fresh ++ skipped ++ ops)
                     (length (pre ++ fresh ++ skipped ++ ops))) with (@None string)
    by (symmetry; apply nth_error_None; lia).
  unfold finish. eexists. reflexivity.
Qed.

End ScannerPermuting.

Section Interleaved.

Variable PATH_MAX : nat.

(** One turn of the loop on an option of the usage line that comes
    behind operands. *)
Lemma scan_step_permuting d pre skipped fresh ops t rest fl posix oi xml :
  permuting d pre skipped fresh ->
  Forall (fun s => nonoption s = true) ops ->
  exists d' oi',
    permuting d' (pre ++ fresh) (skipped ++ ops) [render t]
    /\ scan_step PATH_MAX
         (mkScan (pre ++ skipped ++ fresh ++ ops ++ render t :: rest)
                 (mkProcess d fl posix) oi xml)
       = inl (mkScan (pre ++ fresh ++ skipped ++ ops ++ render t :: rest)
                     (mkProcess d' (flags_after [t] fl) posix) oi'
                     (xml_after PATH_MAX [t] xml)).
Proof.
  intros Hp Hops.
  destruct (render_is_option t) as (Hopt & Hdd).
  destruct (getopt_long_permuting_option _ flag_var_eqb posix long_options d
              pre skipped fresh ops (render t) rest Hp Hops Hopt Hdd)
    as (d1 & Hp1 & Ha1 & Hg).
  destruct Hp1 as (Hnc & Hini & Hord & Hpre & Hf & Hl & Ho).
  unfold scan_step.
  cbn [sc_process sc_argv sc_option_index sc_xml scanner flags posixly_correct].
  rewrite Hg.
  set (argv' := pre ++ fresh ++ skipped ++ ops ++ render t :: rest).
  clearbody argv'.
  destruct d1 as [oi1 oa1 nc1 fn1 ln1 ord1 ini1]; fields; subst.
  cbn [length] in *.
  destruct t as [v|[]]; cbn; do 2 eexists; (split; [|reflexivity]);
    unfold permuting; fields; cbn [length]; repeat split; auto; lia.
Qed.

(** The loop on options among operands: it takes in the options and
    leaves when only operands are left. *)
Lemma scan_items items : forall pre skipped fresh ops d fl posix oi xml,
  permuting d pre skipped fresh ->
  Forall (fun s => nonoption s = true) ops ->
  Forall item_ok items ->
  exists s' s,
    reaches PATH_MAX
            (mkScan (pre ++ skipped ++ fresh ++ ops ++ map item_text items)
                    (mkProcess d fl posix) oi xml) s'
    /\ scan_step PATH_MAX s' = inr (OutOfOptions, s)
    /\ sc_xml s = xml_after PATH_MAX (options_of items) xml
    /\ flags (sc_process s) = flags_after (options_of items) fl.
Proof.
  induction items as [|[t|o] items IH];
    intros pre skipped fresh ops d fl posix oi xml Hp Hops Hok.
  - cbn [map options_of]. rewrite app_nil_r.
    destruct (getopt_long_permuting_end _ flag_var_eqb posix long_options d
                pre skipped fresh ops Hp Hops) as (d1 & Hg).
    do 2 eexists. split; [apply reaches_refl|].
    split; [apply (scan_step_out PATH_MAX _ _ _ _ _ _ _ _ Hg)|].
    split; reflexivity.
  - inversion Hok as [|? ? _ Hok']; subst.
    destruct (scan_step_permuting d pre skipped fresh ops t
                (map item_text items) fl posix oi xml Hp Hops)
      as (d' & oi' & Hp' & Hstep).
    destruct (IH (pre ++ fresh) (skipped ++ ops) [render t] [] d'
                 (flags_after [t] fl) posix oi' (xml_after PATH_MAX [t] xml)
                 Hp' (Forall_nil _) Hok')
      as (s' & s & Hr & Hx & Hxml & Hfl).
    exists s', s. split; [|split; [exact Hx|split; assumption]].
    eapply reaches_trans; [apply reaches_step; exact Hstep|].
    cbn [map item_text].
    replace ((pre ++ fresh) ++ (skipped ++ ops) ++ [render t] ++ []
             ++ map item_text items)
      with (pre ++ fresh ++ skipped ++ ops ++ render t :: map item_text items)
      in Hr by (rewrite <- !app_assoc; reflexivity).
    exact Hr.
  - inversion Hok as [|? ? Ho Hok']; subst. cbn in Ho.
    destruct (IH pre skipped fresh (ops ++ [o]) d fl posix oi xml Hp
                 (proj2 (Forall_app _ _ _) (conj Hops (Forall_cons _ Ho (Forall_nil _))))
                 Hok')
      as (s' & s & Hr & Hx & Hxml & Hfl).
    exists s', s. split; [|split; [exact Hx|split; assumption]].
    cbn [map item_text options_of].
    rewrite <- app_assoc in Hr. exact Hr.
Qed.

(** X15: in the default mode of the scanner operands are ignored
    wherever they stand: a command line of options of the usage line
    mixed with operands ends as its options alone do, with the same
    status, configuration and output. *)
Theorem X15_operands_among_options_are_ignored p prog items c :
  unused p ->
  posixly_correct p = false ->
  Forall item_ok items ->
  exists r1 r2,
    get_args PATH_MAX p (prog :: map item_text items) c = Some (Returned r1)
    /\ get_args PATH_MAX p (prog :: map render (options_of items)) c
       = Some (Returned r2)
    /\ same_outcome r1 r2.
Proof.
  intros Hu Hposix Hok.
  assert (Hp : permuting (started (posixly_correct p)) [prog] [] [])
    by (rewrite Hposix; unfold permuting, started; cbn;
        repeat split; auto; discriminate).
  destruct (scan_items items [prog] [] [] [] (started (posixly_correct p))
              (mkStatics 0 0 0) (posixly_correct p) None (xml_filename c)
              Hp (Forall_nil _) Hok)
    as (s' & s & Hr & Hx & Hxml & Hfl).
  cbn [app] in Hr.
  assert (Hg1 := get_args_from_start PATH_MAX p _ c s' _ s
                   (fun H => nil_cons (eq_sym H)) Hu Hr Hx).
  destruct (get_args_tokens PATH_MAX p prog (options_of items) c Hu)
    as (s2 & Hg2 & Hx2 & Hf2).
  destruct (validate_same c s s2) as (r1 & r2 & V1 & V2 & Hs);
    [congruence|congruence|].
  exists r1, r2. rewrite Hg1, Hg2, V1, V2. auto.
Qed.

End Interleaved.

Section ShortenedHelp.

Variable PATH_MAX : nat.

(** A beginning of [--help] asks for help as [--help] does: no other
    option name starts with an [h]. *)
Lemma scan_step_help_as argv d k fl posix oi xml nm :
  abbreviates nm "help" ->
  ready d k ->
  nth_error argv k = Some ("--" ++ nm)%string ->
  exists d' oi',
    scan_step PATH_MAX (mkScan argv (mkProcess d fl posix) oi xml)
    = inr (HelpRequested, mkScan argv (mkProcess d' fl posix) oi' xml).
Proof.
  intros Hab Hr Hnth.
  apply abbreviates_cases in Hab. cbn in Hab.
  decompose [or] Hab; try contradiction; subst nm;
    (destruct (getopt_long_ready _ flag_var_eqb posix argv long_options d k _
                 Hr Hnth eq_refl) as (d1 & Hr1 & Ha1 & Hg); [discriminate|]);
    unfold scan_step;
    cbn [sc_process sc_argv sc_option_index sc_xml scanner flags
         posixly_correct];
    rewrite Hg; cbn; eauto.
Qed.

(** X16: [--h], [--he] and [--hel] are taken for [--help]: after
    options of the usage line the call prints the usage text and
    nothing else and returns FAILURE, whatever follows. *)
Theorem X16_shortened_help p prog ts nm rest c :
  unused p ->
  abbreviates nm "help" ->
  exists r,
    get_args PATH_MAX p (prog :: map render ts ++ ("--" ++ nm)%string :: rest) c
    = Some (Returned r)
    /\ help_failure r.
Proof.
  intros Hu Hab.
  destruct (get_args_prefix PATH_MAX p prog ts (("--" ++ nm)%string :: rest)
              c Hu)
    as (d' & oi' & fuel & Hr & Hg).
  destruct (scan_step_help_as
              (prog :: map render ts ++ ("--" ++ nm)%string :: rest) d'
              (S (length ts))
              (flags_after ts (mkStatics 0 0 0)) (posixly_correct p) oi'
              (xml_after PATH_MAX ts (xml_filename c)) nm Hab Hr)
    as (d1 & oi1 & Hstep).
  { rewrite <- (length_map render ts).
    apply (nth_error_middle _ (prog :: map render ts)). }
  cbn [scan] in Hg. rewrite Hstep in Hg. cbn [validate] in Hg.
  eexists. split; [exact Hg|].
  unfold help_failure. cbn. auto.
Qed.

End ShortenedHelp.

(** ** Further runs worked out *)

(** [--xml=a.xml --verbose] parsed twice in one process. *)
Lemma C5_witness :
  exists r1,
    get_args LINUX_PATH_MAX (fresh_process false)
             ("scene_based_lst" :: map render [Xml "a.xml"; Flag Verbose])
             fresh_config
    = Some (Returned r1)
    /\ argv_after r1
       = "scene_based_lst" :: map render [Xml "a.xml"; Flag Verbose]
    /\ (exists r2,
           get_args LINUX_PATH_MAX (process_after r1) (argv_after r1) (cfg r1)
           = Some (Returned r2)
           /\ same_outcome r1 r2)
    /\ (forall c2,
           xml_filename c2 = "" ->
           exists r2,
             get_args LINUX_PATH_MAX (process_after r1) (argv_after r1) c2
             = Some (Returned r2)
             /\ missing_argument_failure r2
             /\ cfg r2 = c2).
Proof.
  apply (C5_second_parse_in_one_process LINUX_PATH_MAX (fresh_process false)
           "scene_based_lst" [Xml "a.xml"; Flag Verbose] fresh_config).
  apply unused_fresh_process.
Defined.

(** [--xml=a.xml] and two operands behind it. *)
Lemma X1_witness :
  exists r1 r2,
    get_args LINUX_PATH_MAX (fresh_process false)
             ("scene_based_lst" :: map render [Xml "a.xml"]
                ++ ["scene.txt"; "-"]) fresh_config
    = Some (Returned r1)
    /\ get_args LINUX_PATH_MAX (fresh_process false)
                ("scene_based_lst" :: map render [Xml "a.xml"]) fresh_config
       = Some (Returned r2)
    /\ same_outcome r1 r2.
Proof.
  apply (X1_trailing_operands_are_ignored LINUX_PATH_MAX (fresh_process false)
           "scene_based_lst" [Xml "a.xml"] ["scene.txt"; "-"] fresh_config).
  - apply unused_fresh_process.
  - repeat constructor.
Defined.

(** [--help] behind [--] is not read. *)
Lemma X2_witness :
  exists r1 r2,
    get_args LINUX_PATH_MAX (fresh_process false)
             ("scene_based_lst" :: map render [Xml "a.xml"]
                ++ "--" :: ["--help"]) fresh_config
    = Some (Returned r1)
    /\ get_args LINUX_PATH_MAX (fresh_process false)
                ("scene_based_lst" :: map render [Xml "a.xml"]) fresh_config
       = Some (Returned r2)
    /\ same_outcome r1 r2.
Proof.
  apply (X2_nothing_is_read_after_the_terminator LINUX_PATH_MAX
           (fresh_process false) "scene_based_lst" [Xml "a.xml"] ["--help"]
           fresh_config).
  apply unused_fresh_process.
Defined.

(** [--xml --help]: the value is ["--help"]. *)
Lemma X3_witness :
  exists r1 r2,
    get_args LINUX_PATH_MAX (fresh_process false)
             ("scene_based_lst" :: map render [Flag Debug]
                ++ "--xml" :: "--help" :: map render [Flag Verbose])
             fresh_config
    = Some (Returned r1)
    /\ get_args LINUX_PATH_MAX (fresh_process false)
                ("scene_based_lst"
                   :: map render ([Flag Debug] ++ Xml "--help"
                                    :: [Flag Verbose]))
                fresh_config
       = Some (Returned r2)
    /\ same_outcome r1 r2.
Proof.
  apply (X3_xml_value_as_next_element LINUX_PATH_MAX (fresh_process false)
           "scene_based_lst" [Flag Debug] "--help" [Flag Verbose]
           fresh_config).
  apply unused_fresh_process.
Defined.

(** [--verb --x a.xml --d]. *)
Lemma X4_witness :
  exists r1 r2,
    get_args LINUX_PATH_MAX (fresh_process false)
             ("scene_based_lst"
                :: spell_all [FlagAs "verb" Verbose; XmlThen "x" "a.xml";
                              FlagAs "d" Debug]) fresh_config
    = Some (Returned r1)
    /\ get_args LINUX_PATH_MAX (fresh_process false)
                ("scene_based_lst"
                   :: map render
                        (map meaning [FlagAs "verb" Verbose;
                                      XmlThen "x" "a.xml"; FlagAs "d" Debug]))
                fresh_config
       = Some (Returned r2)
    /\ same_outcome r1 r2.
Proof.
  apply (X4_shortened_option_names LINUX_PATH_MAX (fresh_process false)
           "scene_based_lst"
           [FlagAs "verb" Verbose; XmlThen "x" "a.xml"; FlagAs "d" Debug]
           fresh_config).
  - apply unused_fresh_process.
  - repeat constructor; discriminate.
Defined.

(** A process in which [verbose_flag] is already 1: [--xml=a.xml] alone
    comes back with verbose true. *)
Lemma X5_witness :
  exists r,
    get_args LINUX_PATH_MAX
             (mkProcess Getopt.initial (mkStatics 1 0 0) false)
             ["scene_based_lst"; "--xml=a.xml"] fresh_config
    = Some (Returned r)
    /\ status r = SUCCESS
    /\ verbose (cfg r) = true.
Proof.
  eexists. split; [vm_compute; reflexivity|].
  split; [reflexivity|].
  refine (proj1 (proj2 (X5_statics_are_never_cleared LINUX_PATH_MAX
                          (mkProcess Getopt.initial (mkStatics 1 0 0) false)
                          ["scene_based_lst"; "--xml=a.xml"] fresh_config
                          _ _) _) _).
  - vm_compute; reflexivity.
  - reflexivity.
  - discriminate.
Defined.

(** A value of 5000 characters. *)
Lemma X6_witness :
  exists r,
    get_args LINUX_PATH_MAX (fresh_process false)
             ["scene_based_lst"; ("--xml=" ++ filler 5000)%string]
             fresh_config
    = Some (Returned r)
    /\ (xml_filename (cfg r) = xml_filename fresh_config
        \/ String.length (xml_filename (cfg r)) <= LINUX_PATH_MAX - 1).
Proof.
  eexists. split; [vm_compute; reflexivity|].
  refine (X6_path_is_kept_or_bounded LINUX_PATH_MAX (fresh_process false)
            ["scene_based_lst"; ("--xml=" ++ filler 5000)%string]
            fresh_config _ _).
  vm_compute; reflexivity.
Defined.

(** An operand in front of an option is moved behind it. *)
Lemma X8_witness :
  exists r,
    get_args LINUX_PATH_MAX (fresh_process false)
             ["scene_based_lst"; "stray"; "--xml=a.xml"] fresh_config
    = Some (Returned r)
    /\ argv_after r = ["scene_based_lst"; "--xml=a.xml"; "stray"]
    /\ Permutation ["scene_based_lst"; "stray"; "--xml=a.xml"] (argv_after r).
Proof.
  eexists. split; [vm_compute; reflexivity|].
  split; [reflexivity|].
  refine (X8_argv_is_only_rearranged LINUX_PATH_MAX (fresh_process false)
            ["scene_based_lst"; "stray"; "--xml=a.xml"] fresh_config _ _).
  vm_compute; reflexivity.
Defined.

(** With POSIXLY_CORRECT set, [stray --xml=a.xml] is a command line
    without a path. *)
Lemma X9_witness :
  exists r1 r2,
    get_args LINUX_PATH_MAX (fresh_process true)
             ("scene_based_lst" :: "stray" :: ["--xml=a.xml"]) fresh_config
    = Some (Returned r1)
    /\ get_args LINUX_PATH_MAX (fresh_process true) ["scene_based_lst"]
                fresh_config
       = Some (Returned r2)
    /\ same_outcome r1 r2
    /\ (xml_filename fresh_config = "" -> missing_argument_failure r1).
Proof.
  apply (X9_posixly_correct_stops_at_the_first_operand LINUX_PATH_MAX
           (fresh_process true) "scene_based_lst" "stray" ["--xml=a.xml"]
           fresh_config).
  - apply unused_fresh_process.
  - reflexivity.
  - reflexivity.
Defined.

(** A second call after [--xml=a.xml --verbose]. *)
Lemma X10_witness :
  exists r1,
    get_args LINUX_PATH_MAX (fresh_process false)
             ("scene_based_lst" :: map render [Xml "a.xml"; Flag Verbose])
             fresh_config
    = Some (Returned r1)
    /\ forall c2,
      exists r2,
        get_args LINUX_PATH_MAX (process_after r1) (argv_after r1) c2
        = Some (Returned r2)
        /\ xml_filename (cfg r2) = xml_filename c2
        /\ (xml_filename c2 = "" -> missing_argument_failure r2)
        /\ (xml_filename c2 <> "" ->
            status r2 = SUCCESS
            /\ use_tape6 (cfg r2) = given UseTape6 [Xml "a.xml"; Flag Verbose]
            /\ verbose (cfg r2) = given Verbose [Xml "a.xml"; Flag Verbose]
            /\ debug (cfg r2) = given Debug [Xml "a.xml"; Flag Verbose]).
Proof.
  apply (X10_second_call_scans_nothing LINUX_PATH_MAX (fresh_process false)
           "scene_based_lst" [Xml "a.xml"; Flag Verbose] fresh_config).
  apply unused_fresh_process.
Defined.

(** [--verbose=1]. *)
Lemma X11_witness :
  exists r,
    get_args LINUX_PATH_MAX (fresh_process false)
             ("scene_based_lst" :: map render [Xml "a.xml"]
                ++ ("--" ++ "verbose" ++ "=" ++ "1")%string :: [])
             fresh_config
    = Some (Returned r)
    /\ unknown_option_failure ("--" ++ "verbose" ++ "=" ++ "1") r.
Proof.
  apply (X11_value_on_a_flag_is_an_error LINUX_PATH_MAX (fresh_process false)
           "scene_based_lst" [Xml "a.xml"] "verbose" "1" [] fresh_config).
  - apply unused_fresh_process.
  - left. reflexivity.
  - unfold MAX_STR_LEN. cbn [String.append String.length]. lia.
Defined.

(** [-h] is no way to ask for help. *)
Lemma X12_witness :
  exists r,
    get_args LINUX_PATH_MAX (fresh_process false)
             ("scene_based_lst" :: map render [Xml "a.xml"]
                ++ String "-" (String "h" EmptyString) :: []) fresh_config
    = Some (Returned r)
    /\ unknown_option_failure (String "-" (String "h" EmptyString)) r.
Proof.
  apply (X12_single_letter_option_is_an_error LINUX_PATH_MAX
           (fresh_process false) "scene_based_lst" [Xml "a.xml"] "h"%char []
           fresh_config).
  - apply unused_fresh_process.
  - discriminate.
Defined.

(** [-vd] after [--xml=a.xml] is reported as [--xml=a.xml]. *)
Lemma X13_witness :
  exists r,
    get_args LINUX_PATH_MAX (fresh_process false)
             ("scene_based_lst" :: map render [Xml "a.xml"]
                ++ String "-" (String "v" (String "d" EmptyString)) :: [])
             fresh_config
    = Some (Returned r)
    /\ unknown_option_failure
         (last ("scene_based_lst" :: map render [Xml "a.xml"])
               "scene_based_lst") r.
Proof.
  apply (X13_cluster_is_reported_as_the_element_before LINUX_PATH_MAX
           (fresh_process false) "scene_based_lst" [Xml "a.xml"]
           "v"%char "d"%char EmptyString [] fresh_config).
  - apply unused_fresh_process.
  - discriminate.
  - unfold fits, MAX_STR_LEN. cbn. lia.
Defined.

(** An unknown option of 497 characters. *)
Lemma X14_witness :
  get_args LINUX_PATH_MAX (fresh_process false)
           ("scene_based_lst" :: map render [Flag Debug]
              ++ ("--" ++ filler 495)%string :: []) fresh_config
  = Some Undefined.
Proof.
  apply (X14_long_unknown_option_overflows LINUX_PATH_MAX (fresh_process false)
           "scene_based_lst" [Flag Debug] ("--" ++ filler 495)%string []
           fresh_config).
  - apply unused_fresh_process.
  - exists (filler 495). split; [reflexivity|vm_compute; reflexivity].
  - apply Nat.ltb_lt. vm_compute. reflexivity.
Defined.

(** Operands before, between and after the options. *)
Lemma X15_witness :
  exists r1 r2,
    get_args LINUX_PATH_MAX (fresh_process false)
             ("scene_based_lst"
                :: map item_text [Operand "one"; Opt (Flag Verbose);
                                  Operand "two"; Operand "-";
                                  Opt (Xml "a.xml"); Operand "three"])
             fresh_config
    = Some (Returned r1)
    /\ get_args LINUX_PATH_MAX (fresh_process false)
                ("scene_based_lst"
                   :: map render
                        (options_of [Operand "one"; Opt (Flag Verbose);
                                     Operand "two"; Operand "-";
                                     Opt (Xml "a.xml"); Operand "three"]))
                fresh_config
       = Some (Returned r2)
    /\ same_outcome r1 r2.
Proof.
  apply (X15_operands_among_options_are_ignored LINUX_PATH_MAX
           (fresh_process false) "scene_based_lst"
           [Operand "one"; Opt (Flag Verbose); Operand "two"; Operand "-";
            Opt (Xml "a.xml"); Operand "three"] fresh_config).
  - apply unused_fresh_process.
  - reflexivity.
  - repeat constructor.
Defined.

(** [--he]. *)
Lemma X16_witness :
  exists r,
    get_args LINUX_PATH_MAX (fresh_process false)
             ("scene_based_lst" :: map render [Xml "a.xml"]
                ++ ("--" ++ "he")%string :: ["--bogus"]) fresh_config
    = Some (Returned r)
    /\ help_failure r.
Proof.
  apply (X16_shortened_help LINUX_PATH_MAX (fresh_process false)
           "scene_based_lst" [Xml "a.xml"] "he" ["--bogus"] fresh_config).
  - apply unused_fresh_process.
  - split; [discriminate|reflexivity].
Defined.

(** [--xml=a.xml --debug --help]. *)
Lemma X17_witness :
  exists r,
    get_args LINUX_PATH_MAX (fresh_process false)
             ("scene_based_lst" :: map render [Xml "a.xml"; Flag Debug]
                ++ "--help" :: []) fresh_config
    = Some (Returned r)
    /\ status r = FAILURE
    /\ cfg r = mkConfig (xml_after LINUX_PATH_MAX [Xml "a.xml"; Flag Debug]
                                   (xml_filename fresh_config))
                        (use_tape6 fresh_config) (verbose fresh_config)
                        (debug fresh_config)
    /\ flags (process_after r)
       = flags_after [Xml "a.xml"; Flag Debug] (mkStatics 0 0 0).
Proof.
  apply (X17_failed_call_has_written LINUX_PATH_MAX (fresh_process false)
           "scene_based_lst" [Xml "a.xml"; Flag Debug] [] fresh_config).
  apply unused_fresh_process.
Defined.

(** The place of [LST_TAU] in a record. *)
Lemma X18_witness :
  (0 <= LST_RESULTS_value LST_TAU < LST_RESULTS_value LST_NUM_ELEMENTS)%Z.
Proof.
  apply (proj1 (proj2 X18_record_elements_index_the_record) LST_TAU).
  discriminate.
Defined.
